(** * navi: resolution, routing state and link helpers

    A shallow embedding of the repository's routing core and of its React
    link hooks, and the properties proved of them.  The first part holds the
    definitions, module by module:
    - [JSString]    the [String.prototype] operations the code uses;
    - [URLTools]    [URLDescriptor] and [modifyTrailingSlash];
    - [Link]        [isExternalHref], [getLinkURL], [useActive] and
                    [useLinkProps];
    - [Navigation]  [BrowserNavigation] and the routing observable under it;
    - [Resolver]    the table of requests in flight;
    - [Env]         [RouterEnv] and the loaders of the blog's index pages;
    - [RouteTree]   switches, pages, redirects and the walk of the Router.
    The second part holds the theorems, in modules named after these with
    [Facts] appended.

    Where a file of the repository is not among the sources at hand, what is
    defined here follows the specification; the doc comment of every such
    definition says so. *)

From Stdlib Require Import String Ascii ZArith List Bool Lia.
From stdpp Require Import base option list gmap strings pretty.

Local Open Scope string_scope.
Local Open Scope Z_scope.

(* ===================================================================== *)
(** ** JavaScript string primitives *)
(* ===================================================================== *)

Module JSString.

(** [s] begins with [p] (the comparison [indexOf] makes at each
    position). *)
Fixpoint startsWith (p s : string) : bool :=
  match p, s with
  | EmptyString, _ => true
  | String _ _, EmptyString => false
  | String a p', String b s' => Ascii.eqb a b && startsWith p' s'
  end.

(** [s.indexOf(sub)]: the position of the first occurrence of [sub] in
    [s], or [-1].  [indexOf_from i] is the search in a suffix that starts
    at position [i] of the whole string. *)
Fixpoint indexOf_from (i : Z) (s sub : string) : Z :=
  if startsWith sub s then i
  else match s with
       | EmptyString => -1
       | String _ s' => indexOf_from (i + 1) s' sub
       end.

Definition indexOf (s sub : string) : Z := indexOf_from 0 s sub.

(** [s[0] === c] *)
Definition firstCharIs (c : ascii) (s : string) : bool :=
  match s with
  | String c' _ => Ascii.eqb c' c
  | EmptyString => false
  end.

(** [s.slice(-1) === c]: the last character of [s] is [c]. *)
Fixpoint lastCharIs (c : ascii) (s : string) : bool :=
  match s with
  | EmptyString => false
  | String c' EmptyString => Ascii.eqb c' c
  | String _ s' => lastCharIs c s'
  end.

(** [s.slice(0, -1)]: [s] without its last character. *)
Fixpoint dropLast (s : string) : string :=
  match s with
  | EmptyString => EmptyString
  | String _ EmptyString => EmptyString
  | String c s' => String c (dropLast s')
  end.

(** [s.slice(n)] for [n] within the string: [s] without its first [n]
    characters. *)
Fixpoint dropChars (n : nat) (s : string) : string :=
  match n, s with
  | S n', String _ s' => dropChars n' s'
  | _, _ => s
  end.

(** JavaScript truthiness of a string: only [''] is falsy. *)
Definition truthy (s : string) : bool := negb (String.eqb s "").

(** Occurrence of [sub] somewhere in [s], as a proposition. *)
Definition occurs (sub s : string) : Prop :=
  exists pre post, s = pre ++ sub ++ post.

End JSString.

(* ===================================================================== *)
(** ** URLTools *)
(* ===================================================================== *)

(** [URLTools] is imported by the React bindings ([modifyTrailingSlash],
    [joinPaths], [createURLDescriptor]) but is not among the sources at
    hand.  [modifyTrailingSlash] is modelled below; [joinPaths] and
    [createURLDescriptor] are parameters of the [Link] section. *)

Module URLTools.

(** Modelled from the spec: the [URLDescriptor] of URLTools, as the data
    model describes it. *)
Record URLDescriptor := mkURL {
  pathname : string;
  search : string;
  hash : string;
  query : list (string * string);
  href : string;
}.

(** The second argument of [modifyTrailingSlash]: ['add'] or ['remove']. *)
Inductive TrailingSlashAction := AddSlash | RemoveSlash.

(** Modelled from the spec: whether a pathname ends in a slash, the test
    both modes of [modifyTrailingSlash] start from. *)
Definition hasTrailingSlash (pathname : string) : bool :=
  JSString.lastCharIs "/" pathname.

(** Modelled from the spec: [modifyTrailingSlash(pathname, 'add'|'remove')]
    of URLTools, which is missing from the sources.  ['add'] appends the
    trailing slash when the pathname has none; ['remove'] takes the trailing
    slash away when there is one.  The root pathname ["/"] is left as it is
    by ['remove'], since a pathname always begins with [/]. *)
Definition modifyTrailingSlash (pathname : string)
    (action : TrailingSlashAction) : string :=
  match action with
  | AddSlash =>
      if hasTrailingSlash pathname then pathname else pathname ++ "/"
  | RemoveSlash =>
      if hasTrailingSlash pathname && (1 <? Z.of_nat (String.length pathname))
      then JSString.dropLast pathname
      else pathname
  end.

(** A pathname whose last two characters are both slashes. *)
Fixpoint endsWithDoubleSlash (s : string) : bool :=
  match s with
  | String a ((String b rest) as s') =>
      match rest with
      | EmptyString => Ascii.eqb a "/" && Ascii.eqb b "/"
      | _ => endsWithDoubleSlash s'
      end
  | _ => false
  end.

End URLTools.

(* ===================================================================== *)
(** ** Link: [useActive] and [useLinkProps] *)
(* ===================================================================== *)

Module Link.
Import JSString URLTools.

(** [Partial<URLDescriptor>]: every field may be absent. *)
Record PartialURLDescriptor := mkPartialURL {
  partial_pathname : option string;
  partial_search : option string;
  partial_hash : option string;
  partial_query : option (list (string * string));
  partial_href : option string;
}.

(** A link's [href: string | Partial<URLDescriptor>]; a caller that passes
    no href at all hands [undefined] to the hooks. *)
Inductive Href :=
| HrefUndefined
| HrefString (s : string)
| HrefObject (d : PartialURLDescriptor).

(** [!!href]: objects are truthy, [undefined] and [''] are not. *)
Definition hrefTruthy (href : Href) : bool :=
  match href with
  | HrefUndefined => false
  | HrefString s => truthy s
  | HrefObject _ => true
  end.

(** The part of a [React.MouseEvent] the click handler reads or writes. *)
Record MouseEvent := mkMouseEvent {
  button : Z;
  altKey : bool;
  ctrlKey : bool;
  metaKey : bool;
  shiftKey : bool;
  defaultPrevented : bool;
}.

Definition preventDefault (event : MouseEvent) : MouseEvent :=
  {| button := button event;
     altKey := altKey event;
     ctrlKey := ctrlKey event;
     metaKey := metaKey event;
     shiftKey := shiftKey event;
     defaultPrevented := true |}.

(** [a || b] on possibly-undefined objects. *)
Definition orElse {A : Type} (a b : option A) : option A :=
  match a with
  | Some _ => a
  | None => b
  end.

(** [!!x] for an optional boolean. *)
Definition flag (x : option bool) : bool := default false x.

(** [Object.is(a, b)] on values that are the same exactly when they are
    equal: [undefined], booleans, strings, and references to objects. *)
Definition objectIs {A : Type} `{EqDecision A} (a b : A) : bool :=
  bool_decide (a = b).

(** [React.useCallback(callback, deps)], as React documents it.  [cell] is
    what the hook keeps between the renders of one component: nothing
    before the first render, the callback and the dependencies kept
    afterwards.  On the first render, and on a render whose dependencies
    are not all the same as the ones kept, the callback given is kept and
    returned; otherwise the callback kept is returned and the one given is
    dropped. *)
Definition useCallback {Callback Deps : Type}
    (areHookInputsEqual : Deps -> Deps -> bool)
    (cell : option (Callback * Deps)) (callback : Callback) (deps : Deps)
    : Callback * option (Callback * Deps) :=
  match cell with
  | Some (prevCallback, prevDeps) =>
      if areHookInputsEqual deps prevDeps
      then (prevCallback, cell)
      else (callback, Some (callback, deps))
  | None => (callback, Some (callback, deps))
  end.

Section Hooks.

(** Imported from URLTools, whose source is not at hand: any
    implementation may be plugged in. *)
Variable createURLDescriptor : Href -> URLDescriptor.
Variable joinPaths : list string -> string.

(** The [state?: object] of a link, the [HashScrollBehavior] and the
    navigation object held by [NaviContext]. *)
Variable StateObject : Type.
Variable HashScrollBehavior : Type.
Variable Navigation : Type.

(** The function objects that a caller may pass as [onClick]: two of them
    are the same object exactly when they are equal, and [call] is what
    calling one does to the event. *)
Variable Handler : Type.
Context `{EqDecision Handler}.
Variable call : Handler -> MouseEvent -> MouseEvent.

(** A route, as far as the hooks look at it: [route.url]. *)
Record Route := mkRoute {
  route_url : URLDescriptor;
}.

Record NaviContext := mkNaviContext {
  navigation : option Navigation;
  steadyRoute : option Route;
  busyRoute : option Route;
}.

(** [{ state }] *)
Record NavigateOptions := mkNavigateOptions {
  nav_state : StateObject;
}.

(** The calls the hooks make on their collaborators, in order. *)
Inductive Call :=
| CallPrefetch (nav : Navigation) (url : URLDescriptor)
| CallNavigate (nav : Navigation) (url : URLDescriptor)
    (options : option NavigateOptions)
| CallScrollToHash (hash : string) (behavior : option HashScrollBehavior).

Definition isExternalHref (href : Href) : bool :=
  negb (hrefTruthy href) ||
  match href with
  | HrefString s =>
      negb (indexOf s "://" =? -1) || (indexOf s "mailto:" =? 0)
  | _ => false
  end.

(** "Resolve relative to the current directory": the [if (routeURL &&
    typeof href === 'string')] block that [getLinkURL] and [useLinkProps]
    both contain. *)
Definition resolveHref (href : Href) (routeURL : option URLDescriptor)
    : Href :=
  match routeURL, href with
  | Some r, HrefString s =>
      HrefString
        (if firstCharIs "/" s then s else joinPaths ["/"; pathname r; s])
  | _, _ => href
  end.

(** [undefined] is [None]. *)
Definition getLinkURL (href : Href) (routeURL : option URLDescriptor)
    : option URLDescriptor :=
  if negb (isExternalHref href)
  then Some (createURLDescriptor (resolveHref href routeURL))
  else None.

(** The options of [useActive], with their defaults. *)
Record ActiveOptions := mkActiveOptions {
  exact : bool;
  loading : bool;
}.

Definition defaultActiveOptions : ActiveOptions :=
  {| exact := true; loading := false |}.

Definition useActive (context : NaviContext) (href : Href)
    (options : ActiveOptions) : bool :=
  let route :=
    if loading options
    then orElse (busyRoute context) (steadyRoute context)
    else orElse (steadyRoute context) (busyRoute context) in
  let routeURL := option_map route_url route in
  let linkURL := getLinkURL href routeURL in
  match linkURL, routeURL with
  | Some l, Some r =>
      if exact options
      then String.eqb (pathname l) (pathname r)
      else indexOf (modifyTrailingSlash (pathname r) AddSlash) (pathname l)
           =? 0
  | _, _ => false
  end.

(** [UseLinkPropsOptions]; an option that is left out is [undefined],
    that is [None]. *)
Record UseLinkPropsOptions := mkUseLinkPropsOptions {
  opt_disabled : option bool;
  opt_hashScrollBehavior : option HashScrollBehavior;
  opt_href : Href;
  opt_prefetch : bool;
  opt_state : option StateObject;
  opt_onClick : option Handler;
}.

(** What a call of the click handler leaves behind: the event (with its
    [defaultPrevented] flag), the calls made, and whether the handler
    ended in a [TypeError] (a call on an undefined [navigation]). *)
Record ClickOutcome := mkClickOutcome {
  click_event : MouseEvent;
  click_calls : list Call;
  click_threw : bool;
}.

(** What a render of [useLinkProps] produces: the returned [{ onClick,
    href }], and the calls that the body of the effect of this render makes
    when React runs it. *)
Record LinkProps := mkLinkProps {
  onClick : MouseEvent -> ClickOutcome;
  href_prop : Href;
  effect_calls : list Call;
}.

Definition handleClick (navigation : option Navigation)
    (disabled : bool) (hashScrollBehavior : option HashScrollBehavior)
    (state : option StateObject)
    (onClick : option (MouseEvent -> MouseEvent))
    (routeURL linkURL : option URLDescriptor)
    (event : MouseEvent) : ClickOutcome :=
  if (button event =? 0) &&
     negb (altKey event || ctrlKey event || metaKey event || shiftKey event)
  then
    if disabled then mkClickOutcome (preventDefault event) [] false
    else
      let event :=
        match onClick with
        | Some f => f event
        | None => event
        end in
      match routeURL with
      | None => mkClickOutcome event [] false
      | Some r =>
          match linkURL with
          | Some l =>
              if negb (defaultPrevented event) then
                let event := preventDefault event in
                let isSamePathname :=
                  String.eqb (modifyTrailingSlash (pathname l) RemoveSlash)
                             (modifyTrailingSlash (pathname r) RemoveSlash) in
                match navigation with
                | None => mkClickOutcome event [] true
                | Some nav =>
                    let navigate :=
                      CallNavigate nav l (option_map mkNavigateOptions state) in
                    if (isSamePathname || String.eqb (pathname l) "") &&
                       String.eqb (hash l) (hash r) && truthy (hash l)
                    then mkClickOutcome event
                           [navigate;
                            CallScrollToHash (hash r) hashScrollBehavior]
                           false
                    else mkClickOutcome event [navigate] false
                end
              else mkClickOutcome event [] false
          | None => mkClickOutcome event [] false
          end
      end
  else mkClickOutcome event [] false.

(** The dependencies of the click handler: [[disabled, onClick, linkURL &&
    linkURL.href, routeURL && routeURL.href]]. *)
Record CallbackDeps := mkCallbackDeps {
  dep_disabled : option bool;
  dep_onClick : option Handler;
  dep_linkHref : option string;
  dep_routeHref : option string;
}.

(** React compares the dependencies one by one, with [Object.is]. *)
Definition areHookInputsEqual (nextDeps prevDeps : CallbackDeps) : bool :=
  objectIs (dep_disabled nextDeps) (dep_disabled prevDeps)
  && objectIs (dep_onClick nextDeps) (dep_onClick prevDeps)
  && objectIs (dep_linkHref nextDeps) (dep_linkHref prevDeps)
  && objectIs (dep_routeHref nextDeps) (dep_routeHref prevDeps).

(** What the hook keeps from one render to the next: the cell of its
    [useCallback]. *)
Definition HookMemory : Type :=
  option ((MouseEvent -> ClickOutcome) * CallbackDeps).

(** A render of [useLinkProps]: what it returns, and what it keeps for the
    next render. *)
Definition useLinkProps (memory : HookMemory)
    (hashScrollBehaviorFromContext : option HashScrollBehavior)
    (context : NaviContext) (options : UseLinkPropsOptions)
    : LinkProps * HookMemory :=
  let navigation := navigation context in
  let hashScrollBehavior :=
    match opt_hashScrollBehavior options with
    | None => hashScrollBehaviorFromContext
    | Some b => Some b
    end in
  let route := orElse (steadyRoute context) (busyRoute context) in
  let routeURL := option_map route_url route in
  let linkURL := getLinkURL (opt_href options) routeURL in
  let linkURL :=
    if negb (isExternalHref (opt_href options))
    then Some (createURLDescriptor (resolveHref (opt_href options) routeURL))
    else linkURL in
  let (handleClick, memory) :=
    useCallback areHookInputsEqual memory
      (handleClick navigation (flag (opt_disabled options)) hashScrollBehavior
         (opt_state options) (option_map call (opt_onClick options))
         routeURL linkURL)
      {| dep_disabled := opt_disabled options;
         dep_onClick := opt_onClick options;
         dep_linkHref := option_map href linkURL;
         dep_routeHref := option_map href routeURL |} in
  ({| effect_calls :=
        match navigation, linkURL with
        | Some nav, Some l =>
            if opt_prefetch options && truthy (pathname l)
            then [CallPrefetch nav l]
            else []
        | _, _ => []
        end;
      onClick := handleClick;
      href_prop :=
        match linkURL with
        | Some l => HrefString (href l)
        | None => opt_href options
        end |},
   memory).

(** The route [useActive] looks at: the busy one first when [loading] is
    set, the steady one first otherwise. *)
Definition currentRoute (context : NaviContext)
    (options : ActiveOptions) : option Route :=
  if loading options
  then orElse (busyRoute context) (steadyRoute context)
  else orElse (steadyRoute context) (busyRoute context).

(** The three ways of being external that [isExternalHref] knows. *)
Definition externalHref (href : Href) : Prop :=
  hrefTruthy href = false
  \/ exists s, href = HrefString s
               /\ (occurs "://" s \/ startsWith "mailto:" s = true).

(** The modifier keys of a click. *)
Definition unmodified (event : MouseEvent) : Prop :=
  altKey event = false /\ ctrlKey event = false
  /\ metaKey event = false /\ shiftKey event = false.

(** The event as the link's own [onClick] leaves it. *)
Definition afterOnClick (userOnClick : option (MouseEvent -> MouseEvent))
    (event : MouseEvent) : MouseEvent :=
  match userOnClick with
  | Some f => f event
  | None => event
  end.

End Hooks.

Arguments mkNaviContext {Navigation}.
Arguments navigation {Navigation}.
Arguments steadyRoute {Navigation}.
Arguments busyRoute {Navigation}.
Arguments mkNavigateOptions {StateObject}.
Arguments CallPrefetch {StateObject HashScrollBehavior Navigation}.
Arguments CallNavigate {StateObject HashScrollBehavior Navigation}.
Arguments CallScrollToHash {StateObject HashScrollBehavior Navigation}.
Arguments mkUseLinkPropsOptions {StateObject HashScrollBehavior Handler}.
Arguments opt_disabled {StateObject HashScrollBehavior Handler}.
Arguments opt_hashScrollBehavior {StateObject HashScrollBehavior Handler}.
Arguments opt_href {StateObject HashScrollBehavior Handler}.
Arguments opt_prefetch {StateObject HashScrollBehavior Handler}.
Arguments opt_state {StateObject HashScrollBehavior Handler}.
Arguments opt_onClick {StateObject HashScrollBehavior Handler}.
Arguments mkCallbackDeps {Handler}.
Arguments dep_disabled {Handler}.
Arguments dep_onClick {Handler}.
Arguments dep_linkHref {Handler}.
Arguments dep_routeHref {Handler}.
Arguments areHookInputsEqual {Handler _}.
Arguments mkClickOutcome {StateObject HashScrollBehavior Navigation}.
Arguments click_event {StateObject HashScrollBehavior Navigation}.
Arguments click_calls {StateObject HashScrollBehavior Navigation}.
Arguments click_threw {StateObject HashScrollBehavior Navigation}.
Arguments onClick {StateObject HashScrollBehavior Navigation}.
Arguments href_prop {StateObject HashScrollBehavior Navigation}.
Arguments effect_calls {StateObject HashScrollBehavior Navigation}.
Arguments useActive createURLDescriptor joinPaths {Navigation}.
Arguments currentRoute {Navigation}.
Arguments handleClick {StateObject HashScrollBehavior Navigation}.
Arguments useLinkProps createURLDescriptor joinPaths
  {StateObject HashScrollBehavior Navigation Handler _} call.

(** A small [createURLDescriptor] and [joinPaths] to run the hooks on
    examples: the href is cut at the first [#] and, before it, at the first
    [?]; an object href contributes the fields it has; paths are joined by
    plain concatenation. *)
Fixpoint cutAt (c : ascii) (s : string) : string * string :=
  match s with
  | EmptyString => (EmptyString, EmptyString)
  | String a s' =>
      if Ascii.eqb a c then (EmptyString, s)
      else let (before, rest) := cutAt c s' in (String a before, rest)
  end.

Definition exampleCreateURLDescriptor (href : Href) : URLDescriptor :=
  match href with
  | HrefUndefined => mkURL "" "" "" [] ""
  | HrefString s =>
      let (beforeHash, hash) := cutAt "#" s in
      let (pathname, search) := cutAt "?" beforeHash in
      mkURL pathname search hash [] s
  | HrefObject d =>
      let pathname := default "" (partial_pathname d) in
      let search := default "" (partial_search d) in
      let hash := default "" (partial_hash d) in
      mkURL pathname search hash (default [] (partial_query d))
        (pathname ++ search ++ hash)
  end.

Definition exampleJoinPaths (parts : list string) : string :=
  String.concat "" parts.

(** A plain left click, a context in which a page is being viewed, and a
    link given by a string href. *)
Definition primaryClick : MouseEvent :=
  mkMouseEvent 0 false false false false false.

Definition viewing (pathname : string) : NaviContext unit :=
  mkNaviContext (Some tt)
    (Some (mkRoute (mkURL pathname "" "" [] pathname))) None.

Definition linkTo (s : string) (disabled prefetch : bool)
    (state : option nat) : UseLinkPropsOptions nat unit nat :=
  mkUseLinkPropsOptions (Some disabled) None (HrefString s) prefetch state
    None.

(** Function objects named by numbers, none of which touches the event. *)
Definition exampleCall (handler : nat) (event : MouseEvent) : MouseEvent :=
  event.

End Link.

(* ===================================================================== *)
(** ** Link: the click handler's guards *)
(* ===================================================================== *)

Module LinkGuards.
Import JSString URLTools Link.

(** The click is one the handler takes for itself: primary button, no
    modifier key. *)
Definition ownClick (event : MouseEvent) : Prop :=
  button event = 0 /\ unmodified event.

(** The click gets past every guard of the handler, up to the call of
    [navigation.navigate]: it is the handler's own, the link is not
    disabled, there are a current route URL and a link URL, and the link's
    own [onClick] has not prevented the default action. *)
Definition reachesNavigate (disabled : bool)
    (userOnClick : option (MouseEvent -> MouseEvent))
    (routeURL linkURL : option URLDescriptor) (event : MouseEvent) : Prop :=
  ownClick event
  /\ disabled = false
  /\ is_Some routeURL
  /\ is_Some linkURL
  /\ defaultPrevented (afterOnClick userOnClick event) = false.

(** The link points at the page that is shown, to a hash of its own:
    the test before [scrollToHash] in the handler. *)
Definition samePageHash (l r : URLDescriptor) : Prop :=
  (modifyTrailingSlash (pathname l) RemoveSlash
   = modifyTrailingSlash (pathname r) RemoveSlash
   \/ pathname l = "")
  /\ hash l = hash r
  /\ hash l <> "".

(** The route URL [useLinkProps] works with: the steady route's, or else
    the busy route's. *)
Definition shownURL {Navigation : Type} (context : NaviContext Navigation)
    : option URLDescriptor :=
  option_map route_url (orElse (steadyRoute context) (busyRoute context)).

Section Renders.

Variable createURLDescriptor : Href -> URLDescriptor.
Variable joinPaths : list string -> string.
Variables StateObject HashScrollBehavior Navigation Handler : Type.
Context `{EqDecision Handler}.
Variable call : Handler -> MouseEvent -> MouseEvent.

(** What one render of a component that uses the hook brings to it: the
    value of [HashScrollContext], the value of [NaviContext], and the
    options. *)
Record Render := mkRender {
  render_scroll : option HashScrollBehavior;
  render_context : NaviContext Navigation;
  render_options : UseLinkPropsOptions StateObject HashScrollBehavior Handler;
}.

Definition render (memory : HookMemory StateObject HashScrollBehavior
                              Navigation Handler)
    (r : Render) :=
  useLinkProps createURLDescriptor joinPaths call memory
    (render_scroll r) (render_context r) (render_options r).

(** What the hook keeps after the renders of a component, from the first
    one on. *)
Definition memoryAfter (renders : list Render)
    : HookMemory StateObject HashScrollBehavior Navigation Handler :=
  fold_left (fun memory r => snd (render memory r)) renders None.

(** The link URL of a render. *)
Definition linkURLOf (r : Render) : option URLDescriptor :=
  getLinkURL createURLDescriptor joinPaths
    (opt_href (render_options r)) (shownURL (render_context r)).

(** The dependencies a render hands to [useCallback]. *)
Definition depsOf (r : Render) : CallbackDeps Handler :=
  {| dep_disabled := opt_disabled (render_options r);
     dep_onClick := opt_onClick (render_options r);
     dep_linkHref := option_map href (linkURLOf r);
     dep_routeHref := option_map href (shownURL (render_context r)) |}.

(** The click handler a render makes: the closure over the values of that
    render. *)
Definition handlerOf (r : Render)
    : MouseEvent -> ClickOutcome StateObject HashScrollBehavior Navigation :=
  handleClick (navigation (render_context r))
    (flag (opt_disabled (render_options r)))
    (orElse (opt_hashScrollBehavior (render_options r)) (render_scroll r))
    (opt_state (render_options r))
    (option_map call (opt_onClick (render_options r)))
    (shownURL (render_context r)) (linkURLOf r).

End Renders.

Arguments mkRender {StateObject HashScrollBehavior Navigation Handler}.
Arguments render_scroll {StateObject HashScrollBehavior Navigation Handler}.
Arguments render_context {StateObject HashScrollBehavior Navigation Handler}.
Arguments render_options {StateObject HashScrollBehavior Navigation Handler}.
Arguments render createURLDescriptor joinPaths
  {StateObject HashScrollBehavior Navigation Handler _} call.
Arguments memoryAfter createURLDescriptor joinPaths
  {StateObject HashScrollBehavior Navigation Handler _} call.
Arguments linkURLOf createURLDescriptor joinPaths
  {StateObject HashScrollBehavior Navigation Handler}.
Arguments depsOf createURLDescriptor joinPaths
  {StateObject HashScrollBehavior Navigation Handler}.
Arguments handlerOf createURLDescriptor joinPaths
  {StateObject HashScrollBehavior Navigation Handler} call.

(** Clicks that are not the handler's own: the secondary button, and the
    primary button with the control key held. *)
Definition secondaryClick : MouseEvent :=
  mkMouseEvent 2 false false false false false.

Definition controlClick : MouseEvent :=
  mkMouseEvent 0 false true false false false.

(** A link to [/about] rendered while [/posts/] is shown: with the
    navigation object in the context or without it, with a state or
    without. *)
Definition aboutRender (navigation : option unit) (state : option nat)
    : Render nat unit unit nat :=
  mkRender None
    (mkNaviContext navigation
       (Some (mkRoute (mkURL "/posts/" "" "" [] "/posts/"))) None)
    (linkTo "/about" false false state).

End LinkGuards.

(* ===================================================================== *)
(** ** Link: the component, its anchor and the default renderer *)
(* ===================================================================== *)

Module LinkComponent.
Import JSString URLTools Link LinkGuards.

(** A style object: values by property name. *)
Abbreviation Style := (gmap string string).

(** [Object.assign({}, a, b)]: an undefined source is skipped, and where
    both sources have a key the later one wins. *)
Definition assign (a b : option Style) : Style :=
  default ∅ b ∪ default ∅ a.

(** [x || ''] for an optional string. *)
Definition orEmpty (x : option string) : string :=
  match x with
  | Some s => s
  | None => ""
  end.

(** JavaScript truthiness of an optional string. *)
Definition given (x : option string) : bool :=
  match x with
  | Some s => truthy s
  | None => false
  end.

Section Component.

Variable createURLDescriptor : Href -> URLDescriptor.
Variable joinPaths : list string -> string.
Variables StateObject HashScrollBehavior Navigation Children : Type.
Variable Handler : Type.
Context `{EqDecision Handler}.
Variable call : Handler -> MouseEvent -> MouseEvent.

Local Abbreviation ClickOutcome :=
  (ClickOutcome StateObject HashScrollBehavior Navigation).

(** [LinkProps]: the props of [<Link>]. *)
Record Props := mkProps {
  props_active : option bool;
  props_activeClassName : option string;
  props_activeStyle : option Style;
  props_children : Children;
  props_className : option string;
  props_disabled : option bool;
  props_exact : option bool;
  props_hashScrollBehavior : option HashScrollBehavior;
  props_hidden : option bool;
  props_href : Href;
  props_id : option string;
  props_lang : option string;
  props_onClick : option Handler;
  props_prefetch : option bool;
  props_style : option Style;
  props_tabIndex : option Z;
  props_target : option string;
  props_title : option string;
}.

(** A click handler of the caller's, seen as a handler of the anchor: it
    does to the event what it does and calls none of the collaborators. *)
Definition callerHandler (f : Handler)
    : MouseEvent -> ClickOutcome :=
  fun event => mkClickOutcome (call f event) [] false.

(** [LinkContext]: the value [<Link>] provides to its anchor, [{ ...rest,
    children, href, ref, onClick }]. *)
Record LinkContext := mkLinkContext {
  context_children : Children;
  context_className : option string;
  context_hidden : option bool;
  context_href : Href;
  context_id : option string;
  context_lang : option string;
  context_onClick : option (MouseEvent -> ClickOutcome);
  context_style : option Style;
  context_tabIndex : option Z;
  context_target : option string;
  context_title : option string;
}.

(** [LinkRendererProps]: what [<Link>] hands to its [render] prop. *)
Record LinkRendererProps := mkLinkRendererProps {
  renderer_anchorProps : LinkContext;
  renderer_active : bool;
  renderer_activeClassName : option string;
  renderer_activeStyle : option Style;
  renderer_children : Children;
  renderer_className : option string;
  renderer_disabled : option bool;
  renderer_tabIndex : option Z;
  renderer_hidden : option bool;
  renderer_href : Href;
  renderer_id : option string;
  renderer_lang : option string;
  renderer_style : option Style;
  renderer_target : option string;
  renderer_title : option string;
  renderer_onClick : option (MouseEvent -> ClickOutcome);
}.

(** The options [<Link>] calls [useLinkProps] with: [{ hashScrollBehavior,
    href, onClick, prefetch }]; [disabled] and [state] are left out. *)
Definition hookOptions (props : Props)
    : UseLinkPropsOptions StateObject HashScrollBehavior Handler :=
  mkUseLinkPropsOptions None (props_hashScrollBehavior props)
    (props_href props) (flag (props_prefetch props)) None
    (props_onClick props).

(** A render of the function component [Link]: what it hands to [render],
    with the context it provides, and what its [useLinkProps] keeps for
    the next render. *)
Definition Link
    (memory : HookMemory StateObject HashScrollBehavior Navigation Handler)
    (fromContext : option HashScrollBehavior)
    (context : NaviContext Navigation) (props : Props)
    : LinkRendererProps
      * HookMemory StateObject HashScrollBehavior Navigation Handler :=
  let (hook, memory) :=
    useLinkProps createURLDescriptor joinPaths call memory fromContext
      context (hookOptions props) in
  let onClick := onClick hook in
  let href := href_prop hook in
  let actualActive :=
    useActive createURLDescriptor joinPaths context href
      (mkActiveOptions (flag (props_exact props)) false) in
  let active :=
    match props_active props with
    | None => actualActive
    | Some a => a
    end in
  let linkContext :=
    {| context_children := props_children props;
       context_className := props_className props;
       context_hidden := props_hidden props;
       context_href := href;
       context_id := props_id props;
       context_lang := props_lang props;
       context_onClick :=
         if given (props_target props)
         then option_map callerHandler (props_onClick props)
         else Some onClick;
       context_style := props_style props;
       context_tabIndex := props_tabIndex props;
       context_target := props_target props;
       context_title := props_title props |} in
  ({| renderer_anchorProps := linkContext;
     renderer_active := active;
     renderer_activeClassName := props_activeClassName props;
     renderer_activeStyle := props_activeStyle props;
     renderer_children := props_children props;
     renderer_className := props_className props;
     renderer_disabled := props_disabled props;
     renderer_tabIndex := props_tabIndex props;
     renderer_hidden := props_hidden props;
     renderer_href := href;
     renderer_id := props_id props;
     renderer_lang := props_lang props;
     renderer_style := props_style props;
     renderer_target := props_target props;
     renderer_title := props_title props;
     renderer_onClick := context_onClick linkContext |},
   memory).

(** The effect of the hook inside [<Link>]: the prefetch. *)
Definition LinkEffect
    (memory : HookMemory StateObject HashScrollBehavior Navigation Handler)
    (fromContext : option HashScrollBehavior)
    (context : NaviContext Navigation) (props : Props) : list _ :=
  effect_calls
    (fst (useLinkProps createURLDescriptor joinPaths call memory fromContext
            context (hookOptions props))).

(** What one render of a [<Link>] brings to it, and what the hook keeps
    after the renders of a [<Link>], from the first one on. *)
Record LinkRender := mkLinkRender {
  link_scroll : option HashScrollBehavior;
  link_context : NaviContext Navigation;
  link_props : Props;
}.

Definition linkMemoryAfter (renders : list LinkRender)
    : HookMemory StateObject HashScrollBehavior Navigation Handler :=
  fold_left
    (fun memory r =>
       snd (Link memory (link_scroll r) (link_context r) (link_props r)))
    renders None.

(** The render of the hook inside a render of a [<Link>]. *)
Definition hookRender (r : LinkRender)
    : Render StateObject HashScrollBehavior Navigation Handler :=
  mkRender (link_scroll r) (link_context r) (hookOptions (link_props r)).

(** The props of a [<LinkAnchor>] that matter here: [children],
    [className], [hidden], [style] and its own [onClick]. *)
Record AnchorProps := mkAnchorProps {
  anchor_children : Children;
  anchor_className : option string;
  anchor_hidden : option bool;
  anchor_style : option Style;
  anchor_onClick : option (MouseEvent -> MouseEvent);
}.

(** [defaultLinkRenderer] *)
Definition defaultLinkRenderer (props : LinkRendererProps) : AnchorProps :=
  {| anchor_children := renderer_children props;
     anchor_className :=
       Some (orEmpty (renderer_className props) ++ " "
             ++ (if renderer_active props && given (renderer_activeClassName props)
                 then orEmpty (renderer_activeClassName props)
                 else ""));
     anchor_hidden := renderer_hidden props;
     anchor_style :=
       Some (assign (renderer_style props)
               (if renderer_active props
                then renderer_activeStyle props
                else Some ∅));
     anchor_onClick := None |}.

(** The click handler that [LinkAnchor.renderChildren] puts on the [<a>]:
    the context's, or, when the anchor has an [onClick] of its own, that one
    first and the context's after it unless the default action was
    prevented.  Calling a context handler that is undefined is a
    [TypeError]. *)
Definition anchorHandleClick (props : AnchorProps) (context : LinkContext)
    : option (MouseEvent -> ClickOutcome) :=
  match anchor_onClick props with
  | None => context_onClick context
  | Some own =>
      Some (fun e =>
              let e := own e in
              if negb (defaultPrevented e) then
                match context_onClick context with
                | Some handler => handler e
                | None => mkClickOutcome e [] true
                end
              else mkClickOutcome e [] false)
  end.

End Component.

Arguments mkProps {HashScrollBehavior Children Handler}.
Arguments props_active {HashScrollBehavior Children Handler}.
Arguments props_disabled {HashScrollBehavior Children Handler}.
Arguments props_exact {HashScrollBehavior Children Handler}.
Arguments props_href {HashScrollBehavior Children Handler}.
Arguments props_onClick {HashScrollBehavior Children Handler}.
Arguments props_prefetch {HashScrollBehavior Children Handler}.
Arguments props_target {HashScrollBehavior Children Handler}.
Arguments props_style {HashScrollBehavior Children Handler}.
Arguments props_className {HashScrollBehavior Children Handler}.
Arguments props_activeStyle {HashScrollBehavior Children Handler}.
Arguments props_activeClassName {HashScrollBehavior Children Handler}.
Arguments props_hashScrollBehavior {HashScrollBehavior Children Handler}.
Arguments callerHandler {StateObject HashScrollBehavior Navigation Handler}.
Arguments mkLinkRender {HashScrollBehavior Navigation Children Handler}.
Arguments link_scroll {HashScrollBehavior Navigation Children Handler}.
Arguments link_context {HashScrollBehavior Navigation Children Handler}.
Arguments link_props {HashScrollBehavior Navigation Children Handler}.
Arguments linkMemoryAfter createURLDescriptor joinPaths
  {StateObject HashScrollBehavior Navigation Children Handler _} call.
Arguments hookRender
  {StateObject HashScrollBehavior Navigation Children Handler}.
Arguments context_onClick {StateObject HashScrollBehavior Navigation Children}.
Arguments context_href {StateObject HashScrollBehavior Navigation Children}.
Arguments renderer_anchorProps
  {StateObject HashScrollBehavior Navigation Children}.
Arguments renderer_active {StateObject HashScrollBehavior Navigation Children}.
Arguments renderer_activeClassName
  {StateObject HashScrollBehavior Navigation Children}.
Arguments renderer_activeStyle
  {StateObject HashScrollBehavior Navigation Children}.
Arguments renderer_className
  {StateObject HashScrollBehavior Navigation Children}.
Arguments renderer_style {StateObject HashScrollBehavior Navigation Children}.
Arguments renderer_disabled
  {StateObject HashScrollBehavior Navigation Children}.
Arguments renderer_href {StateObject HashScrollBehavior Navigation Children}.
Arguments renderer_onClick
  {StateObject HashScrollBehavior Navigation Children}.
Arguments hookOptions {StateObject HashScrollBehavior Children Handler}.
Arguments Link createURLDescriptor joinPaths
  {StateObject HashScrollBehavior Navigation Children Handler _} call.
Arguments LinkEffect createURLDescriptor joinPaths
  {StateObject HashScrollBehavior Navigation Children Handler _} call.
Arguments mkAnchorProps {Children}.
Arguments anchor_className {Children}.
Arguments anchor_style {Children}.
Arguments anchor_onClick {Children}.
Arguments defaultLinkRenderer
  {StateObject HashScrollBehavior Navigation Children}.
Arguments anchorHandleClick
  {StateObject HashScrollBehavior Navigation Children}.

(** A [<Link>] with an href, and maybe [disabled] and a [target]. *)
Definition exampleProps (href : string) (disabled : option bool)
    (target : option string) : Props unit unit nat :=
  mkProps None None None tt None disabled None None None (HrefString href)
    None None None None None None target None.

End LinkComponent.

(* ===================================================================== *)
(** ** BrowserNavigation and the routing observable *)
(* ===================================================================== *)

Module Navigation.
Import URLTools.

Local Open Scope list_scope.

(** Object identity: every [new] takes the next reference. *)
Definition Ref := nat.

Section BrowserNavigation.

Variable Context : Type.
Variable Junction : Type.
Variable Route : Type.

(** The [history] package: an object with a [location]; the browser's own
    one is what [createBrowserHistory()] returns. *)
Variable History : Type.
Variable location : History -> URLDescriptor.
Variable createBrowserHistory : History.

(** A [Router] object: its identity and what [new Router(resolver,
    { rootContext, rootJunction, rootPath })] was given.  An option that was
    passed as [undefined] is [None]. *)
Record Router := mkRouter {
  router_ref : Ref;
  router_resolver : Ref;
  rootContext : option Context;
  rootJunction : option Junction;
  rootPath : option string;
}.

(** Modelled from the spec: the [RoutingState] of the data model (its
    source is missing); [lastRoute] is the last of [routes] and [isBusy] the
    negation of [isSteady]. *)
Record RoutingState := mkRoutingState {
  rs_url : URLDescriptor;
  rs_routes : list Route;
  rs_isSteady : bool;
  rs_error : option string;
}.

(** [{ history, router, ...routingState, onRendered }]; [onRendered] is
    always the navigation's own [handleRendered]. *)
Record NavigationState := mkNavigationState {
  ns_history : History;
  ns_router : Router;
  ns_routingState : RoutingState;
}.

(** The observers [BrowserNavigation] subscribes to its observable: its
    own [handleChange], and a [MapObserver] around a caller's observer
    (named by a number) that keeps the history and the router it was built
    with. *)
Inductive Observer :=
| HandleChange
| MapObserver (observer : nat) (history : History) (router : Router).

(** What the observable does to the outside, in order, and what a caller
    of [getSteadyState] is handed: the promise on a deferred value. *)
Inductive Effect :=
| ResolveRequested (generation : nat) (router : Router) (url : URLDescriptor)
| Delivered (observer : Observer) (state : RoutingState)
| SteadyCompleted (deferred : nat) (state : RoutingState)
| SteadyStateReturned (deferred : nat).

(** *** HistoryRoutingObservable *)

(** Modelled from the spec: [HistoryRoutingObservable], whose source is
    missing.  It wraps the router's resolution of the history's current URL
    as a stream with a last-value cell that is replayed to new subscribers;
    every new resolution request takes the next generation number, and a
    report from the router is passed on only if it belongs to the current
    generation (cancellation by disregard).  [getSteadyState] hands out a
    deferred value that is completed once the state of the current request
    is steady. *)
Record HistoryRoutingObservable := mkObservable {
  hro_history : History;
  hro_router : Router;
  hro_url : URLDescriptor;
  hro_generation : nat;
  hro_lastState : RoutingState;
  hro_observers : list (nat * Observer);
  hro_nextSubscription : nat;
  hro_waiting : list nat;
  hro_nextDeferred : nat;
}.

Definition deliverAll (observers : list (nat * Observer))
    (state : RoutingState) : list Effect :=
  map (fun o => Delivered (snd o) state) observers.

(** Modelled from the spec: how the observable starts a request (the
    source is missing): next generation, a busy state for the URL in the
    last-value cell, the router asked to resolve, the busy state pushed. *)
Definition startResolution (router : Router) (url : URLDescriptor)
    (o : HistoryRoutingObservable) : HistoryRoutingObservable * list Effect :=
  let generation := S (hro_generation o) in
  let busy := mkRoutingState url [] false None in
  ({| hro_history := hro_history o;
      hro_router := router;
      hro_url := url;
      hro_generation := generation;
      hro_lastState := busy;
      hro_observers := hro_observers o;
      hro_nextSubscription := hro_nextSubscription o;
      hro_waiting := hro_waiting o;
      hro_nextDeferred := hro_nextDeferred o |},
   ResolveRequested generation router url
     :: deliverAll (hro_observers o) busy).

(** Modelled from the spec: [createHistoryRoutingObservable({ history,
    router })], which starts with a request for the history's location. *)
Definition createHistoryRoutingObservable (history : History)
    (router : Router) : HistoryRoutingObservable * list Effect :=
  startResolution router (location history)
    {| hro_history := history;
       hro_router := router;
       hro_url := location history;
       hro_generation := 0;
       hro_lastState := mkRoutingState (location history) [] false None;
       hro_observers := [];
       hro_nextSubscription := 0;
       hro_waiting := [];
       hro_nextDeferred := 0 |}.

(** Modelled from the spec: [subscribe] of the observable; the new
    subscriber gets the latest state at once.  The
    result names the subscription. *)
Definition subscribe (observer : Observer) (o : HistoryRoutingObservable)
    : nat * HistoryRoutingObservable * list Effect :=
  let subscription := hro_nextSubscription o in
  (subscription,
   {| hro_history := hro_history o;
      hro_router := hro_router o;
      hro_url := hro_url o;
      hro_generation := hro_generation o;
      hro_lastState := hro_lastState o;
      hro_observers := hro_observers o ++ [(subscription, observer)];
      hro_nextSubscription := S subscription;
      hro_waiting := hro_waiting o;
      hro_nextDeferred := hro_nextDeferred o |},
   [Delivered observer (hro_lastState o)]).

(** Modelled from the spec: the end of a subscription. *)
Definition unsubscribe (subscription : nat) (o : HistoryRoutingObservable)
    : HistoryRoutingObservable :=
  {| hro_history := hro_history o;
     hro_router := hro_router o;
     hro_url := hro_url o;
     hro_generation := hro_generation o;
     hro_lastState := hro_lastState o;
     hro_observers :=
       filter (fun s => negb (Nat.eqb (fst s) subscription)) (hro_observers o);
     hro_nextSubscription := hro_nextSubscription o;
     hro_waiting := hro_waiting o;
     hro_nextDeferred := hro_nextDeferred o |}.

(** Modelled from the spec: [getValue], the content of the last-value
    cell. *)
Definition getValue (o : HistoryRoutingObservable) : RoutingState :=
  hro_lastState o.

(** Modelled from the spec: [setRouter] of the observable; a root-context
    change resolves the current URL again,
    whether or not the pathname changed. *)
Definition setRouter (router : Router) (o : HistoryRoutingObservable)
    : HistoryRoutingObservable * list Effect :=
  startResolution router (hro_url o) o.

(** Modelled from the spec: the observable's history listener; the
    location changed. *)
Definition handleLocationChange (url : URLDescriptor)
    (o : HistoryRoutingObservable) : HistoryRoutingObservable * list Effect :=
  startResolution (hro_router o) url o.

(** Modelled from the spec: the observable's handling of a report of the
    router, a state for the request of generation [generation].
    A report for a superseded request is dropped; a report for the current
    one goes into the cell and to the observers, and a steady one completes
    the waiting deferred values. *)
Definition handleResolution (generation : nat) (state : RoutingState)
    (o : HistoryRoutingObservable) : HistoryRoutingObservable * list Effect :=
  if Nat.eqb generation (hro_generation o) then
    ({| hro_history := hro_history o;
        hro_router := hro_router o;
        hro_url := hro_url o;
        hro_generation := hro_generation o;
        hro_lastState := state;
        hro_observers := hro_observers o;
        hro_nextSubscription := hro_nextSubscription o;
        hro_waiting := if rs_isSteady state then [] else hro_waiting o;
        hro_nextDeferred := hro_nextDeferred o |},
     deliverAll (hro_observers o) state
       ++ (if rs_isSteady state
           then map (fun d => SteadyCompleted d state) (hro_waiting o)
           else []))
  else (o, []).

(** Modelled from the spec: [getSteadyState] of the observable; a new
    deferred value, completed at once when the
    cell already holds a steady state, put on the waiting list otherwise. *)
Definition observableGetSteadyState (o : HistoryRoutingObservable)
    : nat * HistoryRoutingObservable * list Effect :=
  let deferred := hro_nextDeferred o in
  let steady := rs_isSteady (hro_lastState o) in
  (deferred,
   {| hro_history := hro_history o;
      hro_router := hro_router o;
      hro_url := hro_url o;
      hro_generation := hro_generation o;
      hro_lastState := hro_lastState o;
      hro_observers := hro_observers o;
      hro_nextSubscription := hro_nextSubscription o;
      hro_waiting :=
        if steady then hro_waiting o else hro_waiting o ++ [deferred];
      hro_nextDeferred := S deferred |},
   if steady then [SteadyCompleted deferred (hro_lastState o)] else []).

(** *** The world around the navigation object *)

(** References handed out so far and everything the observable did. *)
Record World := mkWorld {
  nextRef : Ref;
  log : list Effect;
}.

Definition M (A : Type) : Type := World -> A * World.

Definition ret {A : Type} (a : A) : M A := fun w => (a, w).

Definition bind {A B : Type} (m : M A) (k : A -> M B) : M B :=
  fun w => let (a, w') := m w in k a w'.

Notation "x <- m ;; k" := (bind m (fun x => k))
  (at level 100, m at next level, right associativity).

(** [new]: a fresh identity. *)
Definition newRef : M Ref :=
  fun w => (nextRef w, mkWorld (S (nextRef w)) (log w)).

Definition emit (effects : list Effect) : M unit :=
  fun w => (tt, mkWorld (nextRef w) (log w ++ effects)).

(** *** BrowserNavigation *)

(** [setDocumentTitle?: boolean | ((pageTitle?: string) => string)] *)
Inductive SetDocumentTitle :=
| TitleFlag (b : bool)
| TitleFunction (f : option string -> string).

Record BrowserNavigationOptions := mkOptions {
  opt_history : option History;
  opt_setDocumentTitle : option SetDocumentTitle;
  opt_disableScrollHandling : option bool;
  opt_initialRootContext : option Context;
  opt_rootJunction : Junction;
  opt_rootPath : option string;
}.

(** The fields of the class.  A field that no statement has assigned yet
    reads as [undefined], that is [None]. *)
Record BrowserNavigation := mkNavigation {
  nav_router : Router;
  nav_history : History;
  nav_setDocumentTitle : option (option string -> string);
  nav_disableScrollHandling : bool;
  nav_rootJunction : option Junction;
  nav_rootPath : option string;
  nav_resolver : Ref;
  nav_receivedState : option RoutingState;
  nav_renderedState : option RoutingState;
  nav_historyRoutingObservable : HistoryRoutingObservable;
}.

(** [(x?) => x || 'Untitled Page'] *)
Definition defaultDocumentTitle (x : option string) : string :=
  match x with
  | Some s => if JSString.truthy s then s else "Untitled Page"
  | None => "Untitled Page"
  end.

(** [handleChange], run over what the observable delivered: every state
    delivered to it becomes [receivedState]. *)
Fixpoint handleChange (effects : list Effect)
    (receivedState : option RoutingState) : option RoutingState :=
  match effects with
  | [] => receivedState
  | Delivered HandleChange state :: rest => handleChange rest (Some state)
  | _ :: rest => handleChange rest receivedState
  end.

(** The navigation object after its observable moved to [observable] and
    did [effects]. *)
Definition observed (nav : BrowserNavigation)
    (observable : HistoryRoutingObservable) (effects : list Effect)
    : BrowserNavigation :=
  {| nav_router := nav_router nav;
     nav_history := nav_history nav;
     nav_setDocumentTitle := nav_setDocumentTitle nav;
     nav_disableScrollHandling := nav_disableScrollHandling nav;
     nav_rootJunction := nav_rootJunction nav;
     nav_rootPath := nav_rootPath nav;
     nav_resolver := nav_resolver nav;
     nav_receivedState := handleChange effects (nav_receivedState nav);
     nav_renderedState := nav_renderedState nav;
     nav_historyRoutingObservable := observable |}.

Definition constructor (options : BrowserNavigationOptions)
    : M BrowserNavigation :=
  let history := default createBrowserHistory (opt_history options) in
  resolver <- newRef ;;
  routerRef <- newRef ;;
  let router :=
    mkRouter routerRef resolver
      (opt_initialRootContext options)
      (Some (opt_rootJunction options))
      (opt_rootPath options) in
  let setDocumentTitle :=
    match opt_setDocumentTitle options with
    | Some (TitleFlag false) => None
    | Some (TitleFunction f) => Some f
    | _ => Some defaultDocumentTitle
    end in
  let disableScrollHandling :=
    default false (opt_disableScrollHandling options) in
  let (observable, created) := createHistoryRoutingObservable history router in
  _ <- emit created ;;
  let '(_, observable, replayed) := subscribe HandleChange observable in
  _ <- emit replayed ;;
  ret {| nav_router := router;
         nav_history := history;
         nav_setDocumentTitle := setDocumentTitle;
         nav_disableScrollHandling := disableScrollHandling;
         nav_rootJunction := None;
         nav_rootPath := None;
         nav_resolver := resolver;
         nav_receivedState := handleChange (created ++ replayed) None;
         nav_renderedState := Some (getValue observable);
         nav_historyRoutingObservable := observable |}.

Definition createBrowserNavigation (options : BrowserNavigationOptions)
    : M BrowserNavigation :=
  constructor options.

Definition setContext (context : Context) (nav : BrowserNavigation)
    : M BrowserNavigation :=
  routerRef <- newRef ;;
  let router :=
    mkRouter routerRef (nav_resolver nav)
      (Some context)
      (nav_rootJunction nav)
      (nav_rootPath nav) in
  let (observable, effects) :=
    setRouter router (nav_historyRoutingObservable nav) in
  _ <- emit effects ;;
  ret (observed
         {| nav_router := router;
            nav_history := nav_history nav;
            nav_setDocumentTitle := nav_setDocumentTitle nav;
            nav_disableScrollHandling := nav_disableScrollHandling nav;
            nav_rootJunction := nav_rootJunction nav;
            nav_rootPath := nav_rootPath nav;
            nav_resolver := nav_resolver nav;
            nav_receivedState := nav_receivedState nav;
            nav_renderedState := nav_renderedState nav;
            nav_historyRoutingObservable := nav_historyRoutingObservable nav |}
         observable effects).

(** The object that [getSnapshot], the [then] of [getSteadyState] and
    [MapObserver.next] all build around a routing state. *)
Definition toNavigationState (history : History) (router : Router)
    (routingState : RoutingState) : NavigationState :=
  mkNavigationState history router routingState.

Definition getSnapshot (nav : BrowserNavigation) : NavigationState :=
  toNavigationState (nav_history nav) (nav_router nav)
    (getValue (nav_historyRoutingObservable nav)).

(** [getSteadyState]: the promise returned is the observable's deferred
    value followed by a [then]; it is named by the deferred value's number,
    and [steadyNavigationState] is what the [then] makes of the routing
    state the deferred value is completed with. *)
Definition getSteadyState (nav : BrowserNavigation)
    : M (nat * BrowserNavigation) :=
  let '(deferred, observable, effects) :=
    observableGetSteadyState (nav_historyRoutingObservable nav) in
  _ <- emit effects ;;
  ret (deferred, observed nav observable effects).

Definition steadyNavigationState (nav : BrowserNavigation)
    (routingState : RoutingState) : NavigationState :=
  toNavigationState (nav_history nav) (nav_router nav) routingState.

(** [subscribe]: a [MapObserver] around the caller's observer. *)
Definition navSubscribe (observer : nat) (nav : BrowserNavigation)
    : M (nat * BrowserNavigation) :=
  let mapObserver := MapObserver observer (nav_history nav) (nav_router nav) in
  let '(subscription, observable, effects) :=
    subscribe mapObserver (nav_historyRoutingObservable nav) in
  _ <- emit effects ;;
  ret (subscription, observed nav observable effects).

(** [MapObserver.next] *)
Definition mapObserverNext (history : History) (router : Router)
    (routingState : RoutingState) : NavigationState :=
  toNavigationState history router routingState.

(** *** What can happen to a navigation object *)

Inductive Event :=
| SetContext (context : Context)
| GetSteadyState
| Subscribe (observer : nat)
| Unsubscribe (subscription : nat)
| LocationChange (url : URLDescriptor)
| Resolution (generation : nat) (state : RoutingState).

Definition step (event : Event) (nav : BrowserNavigation)
    : M BrowserNavigation :=
  match event with
  | SetContext context => setContext context nav
  | GetSteadyState =>
      r <- getSteadyState nav ;;
      _ <- emit [SteadyStateReturned (fst r)] ;;
      ret (snd r)
  | Subscribe observer => r <- navSubscribe observer nav ;; ret (snd r)
  | Unsubscribe subscription =>
      ret (observed nav
             (unsubscribe subscription (nav_historyRoutingObservable nav)) [])
  | LocationChange url =>
      let (observable, effects) :=
        handleLocationChange url (nav_historyRoutingObservable nav) in
      _ <- emit effects ;;
      ret (observed nav observable effects)
  | Resolution generation state =>
      let (observable, effects) :=
        handleResolution generation state (nav_historyRoutingObservable nav) in
      _ <- emit effects ;;
      ret (observed nav observable effects)
  end.

Fixpoint run (events : list Event) (nav : BrowserNavigation)
    : M BrowserNavigation :=
  match events with
  | [] => ret nav
  | event :: rest => nav' <- step event nav ;; run rest nav'
  end.

(** The router resolves what it was asked to resolve: a report for a
    generation carries the URL of that generation's request. *)
Definition reportsRequest (w : World) (event : Event) : Prop :=
  match event with
  | Resolution generation state =>
      exists router,
        In (ResolveRequested generation router (rs_url state)) (log w)
  | _ => True
  end.

(** A run in which every report of the router is one for a request made. *)
Fixpoint faithfulRun (events : list Event) (nav : BrowserNavigation)
    (w : World) : Prop :=
  match events with
  | [] => True
  | event :: rest =>
      reportsRequest w event
      /\ faithfulRun rest (fst (step event nav w)) (snd (step event nav w))
  end.

(** The states with which a deferred value was completed, in order. *)
Fixpoint completions (deferred : nat) (effects : list Effect)
    : list RoutingState :=
  match effects with
  | [] => []
  | SteadyCompleted d state :: rest =>
      if Nat.eqb d deferred
      then state :: completions deferred rest
      else completions deferred rest
  | _ :: rest => completions deferred rest
  end.

(** The world before anything was created. *)
Definition emptyWorld : World := mkWorld 0%nat [].

(** The navigation object and its world after [createBrowserNavigation]
    and the events that followed. *)
Definition navigationAfter (options : BrowserNavigationOptions)
    (events : list Event) : BrowserNavigation * World :=
  bind (createBrowserNavigation options) (run events) emptyWorld.

(** The events after [createBrowserNavigation options] in which the router
    reports only on requests that were made. *)
Definition faithfulHistory (options : BrowserNavigationOptions)
    (events : list Event) : Prop :=
  faithfulRun events
    (fst (createBrowserNavigation options emptyWorld))
    (snd (createBrowserNavigation options emptyWorld)).

(** The requests in a log, seen from an observable: none is younger than
    its generation, and the one of its generation asks for its URL. *)
Definition requestsKnown (effects : list Effect)
    (o : HistoryRoutingObservable) : Prop :=
  forall generation router url,
    In (ResolveRequested generation router url) effects ->
    (generation <= hro_generation o)%nat
    /\ (generation = hro_generation o -> url = hro_url o).

(** The part of the invariant that needs no assumption on the router. *)
Definition bound (nav : BrowserNavigation) (w : World) : Prop :=
  router_resolver (nav_router nav) = nav_resolver nav
  /\ (router_ref (nav_router nav) < nextRef w)%nat
  /\ hro_router (nav_historyRoutingObservable nav) = nav_router nav.

(** What holds of a navigation object and its world at every moment: the
    router is bound to the navigation's resolver, is younger than the next
    reference and is the one the observable uses; no request is younger
    than the observable's generation and the request of that generation is
    the one for the observable's URL; the last-value cell holds a state of
    that URL; and a deferred value waits only while that state is not
    steady. *)
Record coherent (nav : BrowserNavigation) (w : World) : Prop := mkCoherent {
  coh_resolver : router_resolver (nav_router nav) = nav_resolver nav;
  coh_fresh : (router_ref (nav_router nav) < nextRef w)%nat;
  coh_router : hro_router (nav_historyRoutingObservable nav) = nav_router nav;
  coh_requests : requestsKnown (log w) (nav_historyRoutingObservable nav);
  coh_cell :
    rs_url (hro_lastState (nav_historyRoutingObservable nav))
    = hro_url (nav_historyRoutingObservable nav);
  coh_waiting :
    hro_waiting (nav_historyRoutingObservable nav) <> [] ->
    rs_isSteady (hro_lastState (nav_historyRoutingObservable nav)) = false;
}.

(** What holds of the deferred values at every moment: none waits twice;
    one that waits was handed out and has not been completed; one that was
    handed out and does not wait has been completed, once; and one that has
    not been handed out yet was neither completed nor returned. *)
Record settled (nav : BrowserNavigation) (w : World) : Prop := mkSettled {
  set_once : List.NoDup (hro_waiting (nav_historyRoutingObservable nav));
  set_waiting :
    forall d,
      In d (hro_waiting (nav_historyRoutingObservable nav)) ->
      (d < hro_nextDeferred (nav_historyRoutingObservable nav))%nat
      /\ completions d (log w) = [];
  set_done :
    forall d,
      (d < hro_nextDeferred (nav_historyRoutingObservable nav))%nat ->
      ~ In d (hro_waiting (nav_historyRoutingObservable nav)) ->
      exists state,
        completions d (log w) = [state] /\ rs_isSteady state = true;
  set_new :
    forall d,
      (hro_nextDeferred (nav_historyRoutingObservable nav) <= d)%nat ->
      completions d (log w) = []
      /\ ~ In (SteadyStateReturned d) (log w);
}.

End BrowserNavigation.

Arguments mkRouter {Context Junction}.
Arguments router_ref {Context Junction}.
Arguments router_resolver {Context Junction}.
Arguments rootContext {Context Junction}.
Arguments rootJunction {Context Junction}.
Arguments rootPath {Context Junction}.
Arguments mkRoutingState {Route}.
Arguments rs_url {Route}.
Arguments rs_routes {Route}.
Arguments rs_isSteady {Route}.
Arguments rs_error {Route}.
Arguments HandleChange {Context Junction History}.
Arguments MapObserver {Context Junction History}.
Arguments ResolveRequested {Context Junction Route History}.
Arguments Delivered {Context Junction Route History}.
Arguments SteadyCompleted {Context Junction Route History}.
Arguments SteadyStateReturned {Context Junction Route History}.
Arguments hro_history {Context Junction Route History}.
Arguments hro_router {Context Junction Route History}.
Arguments hro_url {Context Junction Route History}.
Arguments hro_generation {Context Junction Route History}.
Arguments hro_lastState {Context Junction Route History}.
Arguments hro_observers {Context Junction Route History}.
Arguments hro_waiting {Context Junction Route History}.
Arguments hro_nextDeferred {Context Junction Route History}.
Arguments deliverAll {Context Junction Route History}.
Arguments mkWorld {Context Junction Route History}.
Arguments nextRef {Context Junction Route History}.
Arguments log {Context Junction Route History}.
Arguments mkOptions {Context Junction History}.
Arguments opt_history {Context Junction History}.
Arguments opt_initialRootContext {Context Junction History}.
Arguments opt_rootJunction {Context Junction History}.
Arguments opt_rootPath {Context Junction History}.
Arguments nav_router {Context Junction Route History}.
Arguments nav_history {Context Junction Route History}.
Arguments nav_rootJunction {Context Junction Route History}.
Arguments nav_rootPath {Context Junction Route History}.
Arguments nav_resolver {Context Junction Route History}.
Arguments nav_receivedState {Context Junction Route History}.
Arguments nav_renderedState {Context Junction Route History}.
Arguments nav_historyRoutingObservable {Context Junction Route History}.
Arguments setContext {Context Junction Route History}.
Arguments getSteadyState {Context Junction Route History}.
Arguments steadyNavigationState {Context Junction Route History}.
Arguments SetContext {Context Route}.
Arguments GetSteadyState {Context Route}.
Arguments Subscribe {Context Route}.
Arguments Unsubscribe {Context Route}.
Arguments LocationChange {Context Route}.
Arguments Resolution {Context Route}.
Arguments step {Context Junction Route History}.
Arguments run {Context Junction Route History}.
Arguments reportsRequest {Context Junction Route History}.
Arguments faithfulRun {Context Junction Route History}.
Arguments completions {Context Junction Route History}.
Arguments emptyWorld {Context Junction Route History}.
Arguments navigationAfter {Context Junction Route History}.
Arguments faithfulHistory {Context Junction Route History}.
Arguments requestsKnown {Context Junction Route History}.
Arguments bound {Context Junction Route History}.

(** *** An example: one page, then another *)

Definition pageURL (pathname : string) : URLDescriptor :=
  mkURL pathname "" "" [] pathname.

(** A history is its location here; contexts are numbers, junctions are
    named, routes are titles. *)
Definition exampleOptions
    : BrowserNavigationOptions nat string URLDescriptor :=
  mkOptions (Some (pageURL "/a")) None None (Some 0%nat) "root" (Some "/app").

Definition exampleNavigationAfter (events : list (Event nat string))
    : BrowserNavigation nat string string URLDescriptor
      * World nat string string URLDescriptor :=
  navigationAfter (fun history => history) (pageURL "/") exampleOptions events.

Definition steadyAt (pathname : string) : RoutingState string :=
  mkRoutingState (pageURL pathname) ["page"] true None.

(** A caller asks for the steady state and subscribes while [/a] is being
    resolved, the location changes to [/b], and only then does the router
    report a steady [/a]. *)
Definition exampleSuperseded : list (Event nat string) :=
  [GetSteadyState; Subscribe 5%nat; LocationChange (pageURL "/b");
   Resolution 1%nat (steadyAt "/a")].
Arguments coherent {Context Junction Route History}.
Arguments settled {Context Junction Route History}.

End Navigation.

(* ===================================================================== *)
(** ** Resolver *)
(* ===================================================================== *)

Module Resolver.

Local Open Scope list_scope.
Local Open Scope nat_scope.

(** Modelled from the spec: the options of a resolution that matter for
    its identity: whether
    content is asked for, or meta data only. *)
Record ResolveOptions := mkResolveOptions {
  withContent : bool;
}.

(** Modelled from the spec: the cache key is computed from the path and
    the options' flags. *)
Definition Key : Type := string * bool.

Definition cacheKey (path : string) (options : ResolveOptions) : Key :=
  (path, withContent options).

Section Resolver.

(** What a loader produces, and what it fails with. *)
Variable Value : Type.
Variable Error : Type.

(** Modelled from the spec: a cache entry goes from [Pending] to
    [Fulfilled] or [Rejected]. *)
Inductive Entry :=
| Pending
| Fulfilled (value : Value)
| Rejected (error : Error).

(** Modelled from the spec: the [Resolver], whose source is missing.  It
    owns the table of requests, in flight or completed, by cache key; every
    request has a handle (the promise its callers hold) and every handle an
    entry.  [invocations] records the calls of user loader functions, one
    key per call. *)
Record Resolver := mkResolver {
  table : gmap Key nat;
  entries : gmap nat Entry;
  nextHandle : nat;
  invocations : list Key;
}.

Definition newResolver : Resolver := mkResolver ∅ ∅ 0 [].

(** Modelled from the spec: [resolve(path, options)] of the Resolver,
    called by the router [router]: a request with
    the same key that is in flight or completed gives its handle back and
    the loader is left alone; otherwise the loader is invoked and a new
    pending handle is put on the table. *)
Definition resolve (router : nat) (path : string) (options : ResolveOptions)
    (r : Resolver) : nat * Resolver :=
  let key := cacheKey path options in
  match table r !! key with
  | Some handle => (handle, r)
  | None =>
      let handle := nextHandle r in
      (handle,
       {| table := <[key := handle]> (table r);
          entries := <[handle := Pending]> (entries r);
          nextHandle := S handle;
          invocations := invocations r ++ [key] |})
  end.

(** Modelled from the spec: the loader of the request [key] completes.
    A pending entry takes the outcome (a rejection is kept as a [Rejected]
    entry, nothing is tried again); an entry that is already settled
    stays. *)
Definition settle (key : Key) (outcome : Entry) (r : Resolver) : Resolver :=
  match table r !! key with
  | Some handle =>
      match entries r !! handle with
      | Some Pending =>
          {| table := table r;
             entries := <[handle := outcome]> (entries r);
             nextHandle := nextHandle r;
             invocations := invocations r |}
      | _ => r
      end
  | None => r
  end.

(** What the holder of a handle sees. *)
Definition received (r : Resolver) (handle : nat) : option Entry :=
  entries r !! handle.

(** How often the loader was invoked for a key. *)
Definition invocationCount (key : Key) (r : Resolver) : nat :=
  length (filter (fun k => k = key) (invocations r)).

(** What happens to a resolver: calls of [resolve] by routers, and loaders
    that complete. *)
Inductive Operation :=
| Resolve (router : nat) (path : string) (options : ResolveOptions)
| Settle (key : Key) (outcome : Entry).

(** A call of [resolve] and the handle it was answered with. *)
Record Answer := mkAnswer {
  answer_router : nat;
  answer_key : Key;
  answer_handle : nat;
}.

Fixpoint run (operations : list Operation) (r : Resolver)
    : Resolver * list Answer :=
  match operations with
  | [] => (r, [])
  | Resolve router path options :: rest =>
      let (handle, r') := resolve router path options r in
      let (final, answers) := run rest r' in
      (final, mkAnswer router (cacheKey path options) handle :: answers)
  | Settle key outcome :: rest => run rest (settle key outcome r)
  end.

(** No loader of [key] completes among the operations. *)
Definition unsettled (key : Key) (operations : list Operation) : Prop :=
  forall outcome, ~ In (Settle key outcome) operations.

(** What holds of a resolver at every moment: handles on the table are
    older than the next handle, and two keys never share a handle. *)
Record wellFormed (r : Resolver) : Prop := mkWellFormed {
  wf_bound :
    forall key handle, table r !! key = Some handle -> handle < nextHandle r;
  wf_injective :
    forall key1 key2 handle,
      table r !! key1 = Some handle -> table r !! key2 = Some handle ->
      key1 = key2;
}.

End Resolver.

Arguments Pending {Value Error}.
Arguments Fulfilled {Value Error}.
Arguments Rejected {Value Error}.
Arguments newResolver {Value Error}.
Arguments table {Value Error}.
Arguments entries {Value Error}.
Arguments nextHandle {Value Error}.
Arguments invocations {Value Error}.
Arguments resolve {Value Error}.
Arguments settle {Value Error}.
Arguments received {Value Error}.
Arguments invocationCount {Value Error}.
Arguments Resolve {Value Error}.
Arguments Settle {Value Error}.
Arguments run {Value Error}.
Arguments unsettled {Value Error}.
Arguments wellFormed {Value Error}.

End Resolver.

(* ===================================================================== *)
(** ** RouterEnv and the blog's index pages *)
(* ===================================================================== *)

Module Env.

Local Open Scope list_scope.
Local Open Scope nat_scope.

(** [Params] of URLTools: values by name. *)
Abbreviation Params := (gmap string string).

(** The options object of [router.resolve(href, { withContent })]. *)
Record RouterResolveOptions := mkRouterResolveOptions {
  withContent : bool;
}.

(** What [RouterEnv] asks of its [router]: the [Router] class is not among
    the sources, a loader sees it through [resolve] and [resolveSiteMap],
    whose awaited results are routes and site maps. *)
Class RouterInterface (Router Route SiteMap : Type) := {
  resolve : Router -> string -> RouterResolveOptions -> Route;
  resolveSiteMap : Router -> string -> RouterResolveOptions -> SiteMap;
}.

Section RouterEnv.

Variable Context : Type.
Variable HTTPMethod : Type.
Variable Router : Type.

(** [interface RouterEnv<Context>], every field [readonly]. *)
Record RouterEnv := mkRouterEnv {
  context : Context;
  method : HTTPMethod;
  params : Params;
  pathname : string;
  query : Params;
  router : Router;
  unmatchedPathnamePart : string;
}.

(** *** examples/blog/src/pages/index.js *)

Variables Route SiteMap : Type.
Context `{RouterInterface Router Route SiteMap}.

(** [join] of Node's [path] module. *)
Variable join : list string -> string.

(** A post of [./posts], as far as [index.js] looks at it: its [slug] and
    its [getPage] property, the page node of the post. *)
Variable PostPage : Type.

Record Post := mkPost {
  slug : string;
  getPage : PostPage;
}.

Definition BLOG_TITLE : string := "create-react-blog".

(** An entry of the [posts] that an index page shows: [{ href, route }]. *)
Record PostLink := mkPostLink {
  link_href : string;
  link_route : Route;
}.

(** [<BlogIndexPage pageNumber pageCount posts />] *)
Record BlogIndexPage := mkBlogIndexPage {
  pageNumber : nat;
  pageCount : nat;
  posts : list PostLink;
}.

(** [Navi.createPage({ title, getContent })], with the content that
    [getContent] returns. *)
Record IndexPage := mkIndexPage {
  page_title : string;
  page_content : BlogIndexPage;
}.

(** "Get the blog's root pathname, as all index pages other than the first
    one are mounted at [/pages/n]." *)
Definition blogPathname (i : nat) (env : RouterEnv) : string :=
  if Nat.eqb i 0 then pathname env else join [pathname env; "../.."].

(** The loader of the index page for the [i]-th chunk (the second
    component of a pair of [chunkPagePairs]), with every [await] taken. *)
Definition indexPageLoader (chunkCount i : nat) (chunk : list Post)
    (env : RouterEnv) : IndexPage :=
  let blogPathname := blogPathname i env in
  let posts :=
    map (fun post =>
           let href := join [blogPathname; "posts"; slug post] in
           {| link_href := href;
              link_route :=
                resolve (router env) href
                  {| withContent := false |} |})
        chunk in
  let pageTitle :=
    if Nat.ltb 0 i
    then (BLOG_TITLE ++ " – page " ++ pretty i)%string
    else BLOG_TITLE in
  {| page_title := pageTitle;
     page_content :=
       {| pageNumber := i + 1; pageCount := chunkCount; posts := posts |} |}.

(** The path under which the index page of the [i]-th chunk is listed:
    ['/' + (i + 1)]. *)
Definition indexPagePath (i : nat) : string :=
  ("/" ++ pretty (i + 1))%string.

(** The content of the ['/rss'] page: [env.router.resolveSiteMap('/',
    { withContent: true })]. *)
Definition rssContent (env : RouterEnv) : SiteMap :=
  resolveSiteMap (router env) "/" {| withContent := true |}.

End RouterEnv.

Arguments mkRouterEnv {Context HTTPMethod Router}.
Arguments context {Context HTTPMethod Router}.
Arguments method {Context HTTPMethod Router}.
Arguments params {Context HTTPMethod Router}.
Arguments pathname {Context HTTPMethod Router}.
Arguments query {Context HTTPMethod Router}.
Arguments router {Context HTTPMethod Router}.
Arguments unmatchedPathnamePart {Context HTTPMethod Router}.
Arguments mkPostLink {Route}.
Arguments link_href {Route}.
Arguments link_route {Route}.
Arguments posts {Route}.
Arguments pageNumber {Route}.
Arguments pageCount {Route}.
Arguments page_title {Route}.
Arguments page_content {Route}.
Arguments blogPathname {Context HTTPMethod Router}.
Arguments mkPost {PostPage}.
Arguments slug {PostPage}.
Arguments getPage {PostPage}.
Arguments indexPageLoader {Context HTTPMethod Router Route SiteMap _} join
  {PostPage}.
Arguments rssContent {Context HTTPMethod Router Route SiteMap _}.

(** A router that answers with the href it was asked for, and a [join]
    that concatenates with slashes. *)
#[export] Instance echoRouter : RouterInterface unit string string :=
  {| resolve := fun _ href _ => href;
     resolveSiteMap := fun _ href _ => href |}.

End Env.

(* ===================================================================== *)
(** ** The blog's switch of pages *)
(* ===================================================================== *)

Module BlogPages.
Import JSString Env.

Local Open Scope list_scope.
Local Open Scope nat_scope.

(** An object used as a map: its properties in the order in which they
    were first set.  Setting a property that is there replaces its value in
    place. *)
Fixpoint objSet {V : Type} (key : string) (value : V)
    (obj : list (string * V)) : list (string * V) :=
  match obj with
  | [] => [(key, value)]
  | (key', value') :: rest =>
      if String.eqb key' key
      then (key', value) :: rest
      else (key', value') :: objSet key value rest
  end.

Fixpoint objGet {V : Type} (key : string) (obj : list (string * V))
    : option V :=
  match obj with
  | [] => None
  | (key', value) :: rest =>
      if String.eqb key' key then Some value else objGet key rest
  end.

(** [{ ...target, ...source }]: the properties of [source] set on
    [target], one after the other. *)
Definition objSpread {V : Type} (target source : list (string * V))
    : list (string * V) :=
  fold_left (fun obj entry => objSet (fst entry) (snd entry) obj)
    source target.

(** lodash's [fromPairs]. *)
Definition fromPairs {V : Type} (pairs : list (string * V))
    : list (string * V) :=
  objSpread [] pairs.

(** lodash's [chunk(array, size)]: the array cut into pieces of [size]
    elements, the last one shorter if need be; no piece at all for a size
    below one. *)
Fixpoint chunkFrom {A : Type} (fuel size : nat) (l : list A)
    : list (list A) :=
  match fuel, l with
  | S fuel', _ :: _ => take size l :: chunkFrom fuel' size (drop size l)
  | _, _ => []
  end.

Definition chunk {A : Type} (l : list A) (size : nat) : list (list A) :=
  if Nat.ltb size 1 then [] else chunkFrom (length l) size l.

(** [s.replace(pattern, '')] for a string [pattern]: [s] without the first
    occurrence of [pattern]. *)
Fixpoint removeFirst (pattern s : string) : string :=
  if startsWith pattern s then dropChars (String.length pattern) s
  else match s with
       | EmptyString => EmptyString
       | String c s' => String c (removeFirst pattern s')
       end.

(** [\d]: a decimal digit. *)
Definition isDigit (c : ascii) : bool :=
  Nat.leb 48 (nat_of_ascii c) && Nat.leb (nat_of_ascii c) 57.

(** [\d+$]: one digit or more, up to the end. *)
Fixpoint digitsToEnd (s : string) : bool :=
  match s with
  | EmptyString => false
  | String c EmptyString => isDigit c
  | String c s' => isDigit c && digitsToEnd s'
  end.

(** [/^\/page\/\d+$/.test(s)] *)
Definition isIndexPagePath (s : string) : bool :=
  startsWith "/page/" s && digitsToEnd (dropChars 6 s).

(** "Sets the number of posts that'll appear on each index page." *)
Definition INDEX_PAGE_SIZE : nat := 1.

(** A [TypeError]: a property was read of [undefined]. *)
Inductive TypeError :=
| ReadOfUndefined (property : string).

(** How a call ends: it returns a value, or it throws. *)
Inductive Outcome (A : Type) :=
| Returns (value : A)
| Throws (error : TypeError).

Arguments Returns {A}.
Arguments Throws {A}.

(** [<BlogContext.Provider value={{ pathname, title }}><BlogLayout
    isViewingIndex={...} /></BlogContext.Provider>] *)
Record BlogContextProvider := mkBlogContextProvider {
  value_pathname : string;
  value_title : string;
  layout_isViewingIndex : bool;
}.

Section Pages.

Variables Context HTTPMethod Router Route SiteMap : Type.
Context `{RouterInterface Router Route SiteMap}.

(** [join] of Node's [path] module, and the type of the page nodes that
    the posts bring along. *)
Variable join : list string -> string.
Variable PostPage : Type.

Local Abbreviation Post := (Post PostPage).

(** The [content] of a switch. *)
Inductive SwitchContent := BlogPostLayout.

Local Abbreviation RouterEnv := (RouterEnv Context HTTPMethod Router).

#[local] Unset Elimination Schemes.

(** What a path of the blog maps to: the loader of an index page, a
    function that makes a redirect of the environment, the page of a post,
    a switch with its content and paths, a module imported on demand, or
    the page of the RSS feed with its content function. *)
Inductive Entry :=
| LoaderEntry (load : RouterEnv -> IndexPage Route)
| RedirectEntry (target : RouterEnv -> string)
| PostEntry (page : PostPage)
| SwitchEntry (content : option SwitchContent)
    (paths : list (string * Entry))
| ImportEntry (module : string)
| RssEntry (getContent : RouterEnv -> SiteMap).

#[local] Set Elimination Schemes.

(** The environment as [pagesSwitch.getContent] reads it: an object with
    the fields of [RouterEnv] and, maybe, with the properties [url] and
    [mountname], which [RouterEnv] does not declare.  A property that the
    object does not have reads as [undefined], that is [None]. *)
Record EnvObject := mkEnvObject {
  declared : RouterEnv;
  env_url : option URLTools.URLDescriptor;
  env_mountname : option string;
}.

(** The object that has the fields of [RouterEnv] and no other. *)
Definition onlyDeclared (env : RouterEnv) : EnvObject :=
  {| declared := env; env_url := None; env_mountname := None |}.

(** [getContent] of [pagesSwitch].  [env.url.pathname] is read first: on
    an object without [url] that is a read of [undefined].  A [mountname]
    that is [undefined] is replaced as the string ['undefined']. *)
Definition getContent (env : EnvObject) : Outcome BlogContextProvider :=
  match env_url env with
  | None => Throws (ReadOfUndefined "pathname")
  | Some url =>
      let remainingPathname :=
        removeFirst (default "undefined" (env_mountname env))
          (URLTools.pathname url) in
      let isViewingIndex :=
        String.eqb remainingPathname "/"
        || isIndexPagePath remainingPathname in
      Returns
        {| value_pathname :=
             if truthy (pathname (declared env))
             then pathname (declared env)
             else "/";
           value_title := BLOG_TITLE;
           layout_isViewingIndex := isViewingIndex |}
  end.

(** [chunks] and [chunkPagePairs], before [shift] takes the first pair
    away. *)
Definition chunks (posts : list Post) : list (list Post) :=
  chunk posts INDEX_PAGE_SIZE.

Definition chunkPagePairs (posts : list Post) : list (string * Entry) :=
  imap (fun i chunk =>
          (indexPagePath i,
           LoaderEntry
             (indexPageLoader join (length (chunks posts)) i chunk)))
       (chunks posts).

(** The redirect at [/page/1]: [env => Navi.createRedirect(join(
    env.pathname, '../..'))]. *)
Definition firstPageRedirect (env : RouterEnv) : string :=
  join [pathname env; "../.."].

(** The [paths] of [pagesSwitch].  [chunkPagePairs.shift()[1]] fails with a
    [TypeError] when there is no pair: the result is [None] then. *)
Definition pagesSwitchPaths (posts : list Post)
    : option (list (string * Entry)) :=
  match chunkPagePairs posts with
  | [] => None
  | first :: remaining =>
      Some
        [("/", snd first);
         ("/page",
          SwitchEntry None
            (objSpread [("/1", RedirectEntry firstPageRedirect)]
               (fromPairs remaining)));
         ("/posts",
          SwitchEntry (Some BlogPostLayout)
            (fromPairs
               (map (fun post =>
                       (("/" ++ slug post)%string, PostEntry (getPage post)))
                    posts)));
         ("/tags", ImportEntry "./tags");
         ("/about", ImportEntry "./about");
         ("/rss", RssEntry rssContent)]
  end.

End Pages.

Arguments LoaderEntry {Context HTTPMethod Router Route SiteMap PostPage}.
Arguments RedirectEntry {Context HTTPMethod Router Route SiteMap PostPage}.
Arguments PostEntry {Context HTTPMethod Router Route SiteMap PostPage}.
Arguments SwitchEntry {Context HTTPMethod Router Route SiteMap PostPage}.
Arguments ImportEntry {Context HTTPMethod Router Route SiteMap PostPage}.
Arguments RssEntry {Context HTTPMethod Router Route SiteMap PostPage}.
Arguments mkEnvObject {Context HTTPMethod Router}.
Arguments declared {Context HTTPMethod Router}.
Arguments env_url {Context HTTPMethod Router}.
Arguments env_mountname {Context HTTPMethod Router}.
Arguments onlyDeclared {Context HTTPMethod Router}.
Arguments getContent {Context HTTPMethod Router}.
Arguments chunkPagePairs {Context HTTPMethod Router Route SiteMap _} join
  {PostPage}.
Arguments firstPageRedirect {Context HTTPMethod Router}.
Arguments pagesSwitchPaths {Context HTTPMethod Router Route SiteMap _} join
  {PostPage}.

(** Three posts, the first and the last with the same slug and with
    pages of their own. *)
Definition examplePosts : list (Post string) :=
  [mkPost "hello" "first page"; mkPost "world" "world page";
   mkPost "hello" "second page"].

(** The environment of a request for [/blog/page/2], with the seven
    declared fields, and the same with the two properties that
    [getContent] reads besides. *)
Definition exampleBlogEnv : RouterEnv unit unit unit :=
  mkRouterEnv tt tt ∅ "/blog" ∅ tt "/page/2".

Definition exampleEnvObject : EnvObject unit unit unit :=
  mkEnvObject exampleBlogEnv
    (Some (URLTools.mkURL "/blog/page/2" "" "" [] "/blog/page/2"))
    (Some "/blog").

Definition examplePaths
    : option (list (string * Entry unit unit unit string string string)) :=
  pagesSwitchPaths (String.concat "/") examplePosts.

End BlogPages.

(* ===================================================================== *)
(** ** Route tree and Router *)
(* ===================================================================== *)

Module RouteTree.
Import JSString.

Local Open Scope list_scope.
Local Open Scope nat_scope.

(** Modelled from the spec: [RouteType] of Route.ts (only its use in
    [BrowserNavigation] is among the sources), the variants of a route tree
    node and of a route. *)
Inductive RouteType :=
| SwitchType
| PageType
| RedirectType
| BusyType
| NotFoundType.

Section Tree.

Variable Context : Type.
Variable HTTPMethod : Type.
Variable Router : Type.
Variable Content : Type.
Variable Error : Type.

Local Abbreviation RouterEnv := (Env.RouterEnv Context HTTPMethod Router).

(** How a call of user code ends: it returns, or it throws. *)
Inductive Completion (A : Type) :=
| Normal (a : A)
| Throw (e : Error).

Arguments Normal {A}.
Arguments Throw {A}.

Definition andThen {A B : Type} (c : Completion A)
    (k : A -> Completion B) : Completion B :=
  match c with
  | Normal a => k a
  | Throw e => Throw e
  end.

#[local] Unset Elimination Schemes.

(** Modelled from the spec: the route tree, whose sources are missing.  A
    switch maps path keys to children, in the order in which they were
    registered; a page has a title and a content loader; a redirect has a
    target; a lazy node is produced by a loader.  Loaders are user
    functions of the environment and may throw. *)
Inductive Node :=
| Switch (paths : list (string * Node))
| Page (title : string) (getContent : RouterEnv -> Completion Content)
| Redirect (target : string)
| Lazy (loader : RouterEnv -> Completion Node).

#[local] Set Elimination Schemes.

(** Modelled from the spec: a [Route], one resolved level: its type, the
    pathname matched so far, and what the node gave. *)
Record Route := mkRoute {
  route_type : RouteType;
  route_pathname : string;
  route_title : option string;
  route_content : option Content;
  route_target : option string;
}.

(** The routes of a request so far, and the error of the segment whose
    loader failed, if one did. *)
Record Resolution := mkResolution {
  res_routes : list Route;
  res_error : option Error;
}.

(** Modelled from the spec: the [RoutingState] of a finished resolution;
    [lastRoute] is the last of [routes]. *)
Record RoutingState := mkRoutingState {
  state_pathname : string;
  state_routes : list Route;
  state_isSteady : bool;
  state_error : option Error;
}.

Definition lastRoute (state : RoutingState) : option Route :=
  last (state_routes state).

(** Modelled from the spec: a key of a switch against the unmatched part
    of the pathname.  The index key [/] matches when nothing (or only a
    slash) is left; any other key matches as a path prefix, up to the end
    or to the next slash.  The result is what stays unmatched. *)
Definition matchKey (key remaining : string) : option string :=
  if String.eqb key "/" then
    if String.eqb remaining "" || String.eqb remaining "/"
    then Some "" else None
  else if startsWith key remaining then
    let rest := dropChars (String.length key) remaining in
    if String.eqb rest "" || firstCharIs "/" rest then Some rest else None
  else None.

(** Modelled from the spec: the environment at a segment.  The matched
    pathname and the unmatched part are the segment's, the rest is the
    request's. *)
Definition envAt (env : RouterEnv) (matched remaining : string) : RouterEnv :=
  {| Env.context := Env.context env;
     Env.method := Env.method env;
     Env.params := Env.params env;
     Env.pathname := matched;
     Env.query := Env.query env;
     Env.router := Env.router env;
     Env.unmatchedPathnamePart := remaining |}.

Definition notFound (matched remaining : string) : Resolution :=
  mkResolution
    [mkRoute NotFoundType (matched ++ remaining)%string None None None] None.

(** Modelled from the spec: the child of a switch for the unmatched
    part.  Among the children whose key matches it is the one with the
    longest key, the earliest of them when several are as long.
    [resolveChild] is what resolving a child gives; without a match the
    outcome is a [NotFound] route. *)
Fixpoint choose
    (resolveChild : Node -> string -> string -> Completion Resolution)
    (children : list (string * Node)) (matched remaining : string)
    (best : option (nat * Completion Resolution))
    : Completion Resolution :=
  match children with
  | [] =>
      match best with
      | Some (_, resolution) => resolution
      | None => Normal (notFound matched remaining)
      end
  | (key, child) :: rest =>
      match matchKey key remaining with
      | Some unmatched =>
          let longer :=
            match best with
            | Some (n, _) => Nat.ltb n (String.length key)
            | None => true
            end in
          if longer
          then choose resolveChild rest matched remaining
                 (Some (String.length key,
                        resolveChild child (matched ++ key)%string unmatched))
          else choose resolveChild rest matched remaining best
      | None => choose resolveChild rest matched remaining best
      end
  end.

Definition withRoute (route : Route) (resolution : Resolution) : Resolution :=
  mkResolution (route :: res_routes resolution) (res_error resolution).

(** Modelled from the spec: the walk of the Router and the route tree
    model, whose sources are missing.  Each matched segment gives one
    route; a switch goes on with the child it chooses; a failing loader
    (thrown or rejected alike) is caught, its error is kept for the routing
    state and nothing deeper is resolved; a redirect gives a route that
    carries the target and is not followed. *)
Fixpoint resolveNode (env : RouterEnv) (node : Node)
    (matched remaining : string) {struct node} : Completion Resolution :=
  match node with
  | Switch paths =>
      andThen (choose (resolveNode env) paths matched remaining None)
        (fun below =>
           Normal (withRoute (mkRoute SwitchType matched None None None) below))
  | Page title getContent =>
      match getContent (envAt env matched remaining) with
      | Normal content =>
          Normal (mkResolution
                    [mkRoute PageType matched (Some title) (Some content) None]
                    None)
      | Throw e =>
          Normal (mkResolution
                    [mkRoute PageType matched (Some title) None None]
                    (Some e))
      end
  | Redirect target =>
      Normal (mkResolution
                [mkRoute RedirectType matched None None (Some target)] None)
  | Lazy loader =>
      match loader (envAt env matched remaining) with
      | Normal node' => resolveNode env node' matched remaining
      | Throw e => Normal (mkResolution [] (Some e))
      end
  end.

(** Modelled from the spec: [Router.resolve], the walk from the root
    paths, and the routing state
    it ends in. *)
Definition routerResolve (rootPaths : list (string * Node)) (env : RouterEnv)
    (pathname : string) : Completion RoutingState :=
  andThen (choose (resolveNode env) rootPaths "" pathname None)
    (fun resolution =>
       Normal {| state_pathname := pathname;
                 state_routes := res_routes resolution;
                 state_isSteady := true;
                 state_error := res_error resolution |}).

(** The child that [choose] settles on, with its key and what stays
    unmatched. *)
Fixpoint bestMatch (children : list (string * Node)) (remaining : string)
    (best : option (string * Node * string))
    : option (string * Node * string) :=
  match children with
  | [] => best
  | (key, child) :: rest =>
      match matchKey key remaining with
      | Some unmatched =>
          let longer :=
            match best with
            | Some (key', _, _) =>
                Nat.ltb (String.length key') (String.length key)
            | None => true
            end in
          if longer
          then bestMatch rest remaining (Some (key, child, unmatched))
          else bestMatch rest remaining best
      | None => bestMatch rest remaining best
      end
  end.

(** What [choose] has in hand for the best child so far. *)
Definition chosen
    (resolveChild : Node -> string -> string -> Completion Resolution)
    (matched : string) (best : option (string * Node * string))
    : option (nat * Completion Resolution) :=
  match best with
  | Some (key, child, unmatched) =>
      Some (String.length key,
            resolveChild child (matched ++ key)%string unmatched)
  | None => None
  end.

(** No child other than an index route matches the unmatched part. *)
Definition noChildMatches (paths : list (string * Node)) (remaining : string)
    : Prop :=
  forall key child,
    In (key, child) paths -> key <> "/" -> matchKey key remaining = None.

(** The switch has no index route. *)
Definition noIndexRoute (paths : list (string * Node)) : Prop :=
  forall child, ~ In ("/", child) paths.

(** Where the walk goes.  From a node, with the pathname matched so far
    and the part that is left, the walk is at that node; from a switch it
    goes on into the child it chooses, with that child's key matched; from a
    lazy node it goes on into the node that the loader returns in the
    segment's environment. *)
Inductive Arrives (env : RouterEnv)
    : Node -> string -> string -> Node -> string -> string -> Prop :=
| arrives_here node matched remaining :
    Arrives env node matched remaining node matched remaining
| arrives_child paths matched remaining key child unmatched
    node' matched' remaining' :
    bestMatch paths remaining None = Some (key, child, unmatched) ->
    Arrives env child (matched ++ key)%string unmatched
      node' matched' remaining' ->
    Arrives env (Switch paths) matched remaining node' matched' remaining'
| arrives_loaded loader matched remaining node node' matched' remaining' :
    loader (envAt env matched remaining) = Normal node ->
    Arrives env node matched remaining node' matched' remaining' ->
    Arrives env (Lazy loader) matched remaining node' matched' remaining'.

End Tree.

Arguments Normal {Error A}.
Arguments Throw {Error A}.
Arguments Switch {Context HTTPMethod Router Content Error}.
Arguments Page {Context HTTPMethod Router Content Error}.
Arguments Redirect {Context HTTPMethod Router Content Error}.
Arguments Lazy {Context HTTPMethod Router Content Error}.
Arguments mkRoute {Content}.
Arguments route_type {Content}.
Arguments route_pathname {Content}.
Arguments route_title {Content}.
Arguments route_content {Content}.
Arguments route_target {Content}.
Arguments mkResolution {Content Error}.
Arguments res_routes {Content Error}.
Arguments res_error {Content Error}.
Arguments mkRoutingState {Content Error}.
Arguments state_pathname {Content Error}.
Arguments state_routes {Content Error}.
Arguments state_isSteady {Content Error}.
Arguments state_error {Content Error}.
Arguments lastRoute {Content Error}.
Arguments notFound {Content Error}.
Arguments withRoute {Content Error}.
Arguments choose {Context HTTPMethod Router Content Error}.
Arguments resolveNode {Context HTTPMethod Router Content Error}.
Arguments routerResolve {Context HTTPMethod Router Content Error}.
Arguments bestMatch {Context HTTPMethod Router Content Error}.
Arguments chosen {Context HTTPMethod Router Content Error}.
Arguments noChildMatches {Context HTTPMethod Router Content Error}.
Arguments noIndexRoute {Context HTTPMethod Router Content Error}.
Arguments Arrives {Context HTTPMethod Router Content Error}.

(** *** The example tree of the spec *)

(** [{ '/posts': Switch{ '/hello': Page }, '/old': Redirect('/new') }];
    the page's loader returns its content. *)
Definition exampleTree : list (string * Node unit unit unit string string) :=
  [("/posts",
    Switch [("/hello", Page "Hello" (fun _ => Normal "hello, world"))]);
   ("/old", Redirect "/new")].

Definition exampleEnv : Env.RouterEnv unit unit unit :=
  Env.mkRouterEnv tt tt ∅ "" ∅ tt "".

(** The same tree with the switch at [/posts] and the redirect below
    [/moved] loaded on demand. *)
Definition lazyTree : list (string * Node unit unit unit string string) :=
  [("/posts",
    Lazy (fun _ =>
            Normal
              (Switch
                 [("/hello", Page "Hello" (fun _ => Normal "hello, world"))])));
   ("/moved",
    Switch [("/old", Lazy (fun _ => Normal (Redirect "/new")))])].

End RouteTree.

(* ===================================================================== *)
(** ** BrowserNavigation: handleRendered and scrollToHash *)
(* ===================================================================== *)

Module Rendering.
Import JSString URLTools.

Local Open Scope list_scope.

(** What [handleRendered] and [scrollToHash] do to the document: assign
    [document.title], call [scrollIntoView({ behavior: 'instant', block:
    'start' })] and [focus()] on the element with an id, and call
    [window.scroll({ top, left, behavior: 'instant' })]. *)
Inductive DOMEffect :=
| SetTitle (title : string)
| ScrollIntoView (id : string)
| Focus (id : string)
| WindowScroll (top left : Z).

Definition isScroll (effect : DOMEffect) : bool :=
  match effect with
  | SetTitle _ => false
  | _ => true
  end.

(** [hash.slice(1)] *)
Definition sliceFrom1 (s : string) : string :=
  match s with
  | EmptyString => EmptyString
  | String _ rest => rest
  end.

Section Rendering.

Variable Route : Type.

Local Abbreviation RoutingState := (Navigation.RoutingState Route).

(** [state.lastRoute.type] and [state.lastRoute.title]: Route.ts and
    RoutingState.ts are not among the sources, the two reads are
    parameters. *)
Variable lastRouteType : RoutingState -> RouteTree.RouteType.
Variable lastRouteTitle : RoutingState -> option string.

(** [areURLDescriptorsEqual] of URLTools. *)
Variable areURLDescriptorsEqual : URLDescriptor -> URLDescriptor -> bool.

(** [document.getElementById(id)] finds an element. *)
Variable hasElement : string -> bool.

(** A routing state as an object: [handleRendered] compares states by
    identity. *)
Record StateObject := mkStateObject {
  object_ref : Navigation.Ref;
  object_state : RoutingState;
}.

(** [a === b] on states that may be undefined. *)
Definition sameObject (a b : option StateObject) : bool :=
  match a, b with
  | None, None => true
  | Some x, Some y => Nat.eqb (object_ref x) (object_ref y)
  | _, _ => false
  end.

(** The fields of [BrowserNavigation] that [handleRendered] reads and
    writes. *)
Record Rendering := mkRendering {
  setDocumentTitle : option (option string -> string);
  disableScrollHandling : bool;
  receivedState : option StateObject;
  renderedState : option StateObject;
}.

Definition scrollToHash (hash : string) : list DOMEffect :=
  if truthy hash then
    let id := sliceFrom1 hash in
    if hasElement id then [ScrollIntoView id; Focus id] else []
  else [WindowScroll 0 0].

(** [this.renderedState = this.receivedState] *)
Definition rendered (r : Rendering) : Rendering :=
  {| setDocumentTitle := setDocumentTitle r;
     disableScrollHandling := disableScrollHandling r;
     receivedState := receivedState r;
     renderedState := receivedState r |}.

(** [handleRendered]: the fields after the call and what was done to the
    document.  A state's [url] is always there, so the test [!prevState.url]
    is false wherever it is reached. *)
Definition handleRendered (r : Rendering) : Rendering * list DOMEffect :=
  if negb (sameObject (renderedState r) (receivedState r)) then
    let prevState := renderedState r in
    let nextState := receivedState r in
    let title :=
      match nextState, setDocumentTitle r with
      | Some next, Some f =>
          match lastRouteType (object_state next) with
          | RouteTree.PageType =>
              [SetTitle (f (lastRouteTitle (object_state next)))]
          | _ => []
          end
      | _, _ => []
      end in
    match nextState with
    | Some next =>
        let next := object_state next in
        if Navigation.rs_isSteady next then
          match prevState with
          | Some prev =>
              let prev := object_state prev in
              if areURLDescriptorsEqual (Navigation.rs_url next)
                   (Navigation.rs_url prev)
              then (r, title)
              else if negb (disableScrollHandling r)
                      && (negb (String.eqb (hash (Navigation.rs_url prev))
                                           (hash (Navigation.rs_url next)))
                          || negb (String.eqb
                                     (pathname (Navigation.rs_url prev))
                                     (pathname (Navigation.rs_url next))))
              then (rendered r,
                    title ++ scrollToHash (hash (Navigation.rs_url next)))
              else (rendered r, title)
          | None =>
              if negb (disableScrollHandling r)
              then (rendered r,
                    title ++ scrollToHash (hash (Navigation.rs_url next)))
              else (rendered r, title)
          end
        else (rendered r, title)
    | None => (rendered r, title)
    end
  else (r, []).

End Rendering.

(** *** An example: a page with a hash arrives *)

(** The state of a page at a URL, and the document in which only the
    element [intro] exists. *)
Definition pageAt (ref : nat) (pathname hash : string)
    : StateObject unit :=
  mkStateObject unit ref
    (Navigation.mkRoutingState
       (mkURL pathname "" hash [] (pathname ++ hash)) [tt] true None).

Definition onlyIntro (id : string) : bool := String.eqb id "intro".

Definition samePathnameSearchHash (a b : URLDescriptor) : bool :=
  String.eqb (pathname a) (pathname b)
  && String.eqb (search a) (search b)
  && String.eqb (hash a) (hash b).

Definition exampleRendering : Rendering unit :=
  mkRendering unit (Some (Navigation.defaultDocumentTitle)) false
    (Some (pageAt 2 "/guide" "#intro")) (Some (pageAt 1 "/" "")).

Definition exampleHandleRendered
    : Rendering unit -> Rendering unit * list DOMEffect :=
  handleRendered unit (fun _ => RouteTree.PageType) (fun _ => Some "Guide")
    samePathnameSearchHash onlyIntro.

Arguments mkStateObject {Route}.
Arguments object_ref {Route}.
Arguments object_state {Route}.
Arguments sameObject {Route}.
Arguments mkRendering {Route}.
Arguments setDocumentTitle {Route}.
Arguments disableScrollHandling {Route}.
Arguments receivedState {Route}.
Arguments renderedState {Route}.
Arguments rendered {Route}.
Arguments handleRendered {Route}.

End Rendering.

(* ********************************************************************* *)
(** * Properties *)
(* ********************************************************************* *)

(* ===================================================================== *)
(** ** Facts about the string primitives *)
(* ===================================================================== *)

Module JSStringFacts.
Import JSString.

Lemma app_nil_l (s : string) : "" ++ s = s.
Proof. reflexivity. Qed.

Lemma app_cons (c : ascii) (s t : string) :
  String c s ++ t = String c (s ++ t).
Proof. reflexivity. Qed.

Lemma startsWith_iff (p s : string) :
  startsWith p s = true <-> exists post, s = p ++ post.
Proof.
  revert s; induction p as [|c p IH]; intros s; simpl.
  - split; [intros _; now exists s | reflexivity].
  - destruct s as [|d s].
    + split; [discriminate | intros [post H]; discriminate].
    + rewrite andb_true_iff, Ascii.eqb_eq, IH.
      split.
      * intros [-> [post ->]]. now exists post.
      * intros [post H]. rewrite app_cons in H.
        injection H as -> ->. split; [reflexivity | now exists post].
Qed.

Lemma indexOf_from_range (s sub : string) (i : Z) :
  indexOf_from i s sub = -1 \/ i <= indexOf_from i s sub.
Proof.
  revert i; induction s as [|c s IH]; intros i; simpl.
  - destruct (startsWith sub ""); [right; lia | now left].
  - destruct (startsWith sub (String c s)); [right; lia|].
    destruct (IH (i + 1)) as [H | H]; [now left | right; lia].
Qed.

(** [s.indexOf(sub) === 0] says exactly that [s] begins with [sub]. *)
Lemma indexOf_zero_iff (s sub : string) :
  indexOf s sub = 0 <-> startsWith sub s = true.
Proof.
  unfold indexOf. destruct s as [|c s]; simpl.
  - destruct (startsWith sub ""); split; (reflexivity || discriminate).
  - destruct (startsWith sub (String c s)) eqn:E;
      [split; reflexivity|].
    split; [|discriminate]. intros H.
    destruct (indexOf_from_range s sub (0 + 1)) as [H1 | H1]; lia.
Qed.

Lemma indexOf_from_found (s sub : string) (i : Z) :
  indexOf_from i s sub <> -1 -> occurs sub s.
Proof.
  revert i; induction s as [|c s IH]; intros i; simpl.
  - destruct (startsWith sub "") eqn:E; [|congruence].
    intros _. apply startsWith_iff in E as [post ->].
    now exists "", post.
  - destruct (startsWith sub (String c s)) eqn:E.
    + intros _. apply startsWith_iff in E as [post E]. rewrite E.
      now exists "", post.
    + intros H. destruct (IH (i + 1) H) as (pre & post & ->).
      now exists (String c pre), post.
Qed.

Lemma indexOf_from_occurs (s sub : string) (i : Z) :
  occurs sub s -> 0 <= i -> indexOf_from i s sub <> -1.
Proof.
  intros (pre & post & ->). revert i.
  induction pre as [|c pre IH]; intros i Hi.
  - rewrite app_nil_l.
    assert (E : startsWith sub (sub ++ post) = true)
      by (apply startsWith_iff; now exists post).
    destruct (sub ++ post); simpl; rewrite E; lia.
  - rewrite app_cons. cbn [indexOf_from].
    destruct (startsWith sub (String c (pre ++ sub ++ post))); [lia|].
    apply IH; lia.
Qed.

(** [s.indexOf(sub) !== -1] says exactly that [sub] occurs in [s]. *)
Lemma indexOf_found_iff (s sub : string) :
  indexOf s sub <> -1 <-> occurs sub s.
Proof.
  split; intros H.
  - now apply (indexOf_from_found s sub 0).
  - now apply indexOf_from_occurs.
Qed.

Lemma lastCharIs_snoc (c : ascii) (s : string) :
  lastCharIs c (s ++ String c "") = true.
Proof.
  induction s as [|d s IH].
  - simpl. apply Ascii.eqb_refl.
  - rewrite app_cons. cbn [lastCharIs].
    destruct (s ++ String c "") eqn:E; [|exact IH].
    destruct s; discriminate.
Qed.

End JSStringFacts.

(* ===================================================================== *)
(** ** URLTools: trailing slashes *)
(* ===================================================================== *)

Module URLToolsFacts.
Import JSString JSStringFacts URLTools.

(** Every string is empty or some string followed by one character. *)
Lemma snoc_cases (s : string) :
  s = "" \/ exists q c, s = q ++ String c "".
Proof.
  induction s as [|a s IH]; [now left | right].
  destruct IH as [-> | (q & c & ->)].
  - now exists "", a.
  - now exists (String a q), c.
Qed.

Lemma snoc_not_empty (q : string) (c : ascii) : q ++ String c "" <> "".
Proof. destruct q; discriminate. Qed.

Lemma dropLast_snoc (q : string) (c : ascii) :
  dropLast (q ++ String c "") = q.
Proof.
  induction q as [|a q IH]; [reflexivity|].
  rewrite app_cons. cbn [dropLast].
  destruct (q ++ String c "") eqn:E.
  - now apply snoc_not_empty in E.
  - now rewrite IH.
Qed.

Lemma lastCharIs_snoc_eqb (d c : ascii) (q : string) :
  lastCharIs d (q ++ String c "") = Ascii.eqb c d.
Proof.
  induction q as [|a q IH]; [reflexivity|].
  rewrite app_cons. cbn [lastCharIs].
  destruct (q ++ String c "") eqn:E; [|exact IH].
  now apply snoc_not_empty in E.
Qed.

Lemma length_snoc (q : string) (c : ascii) :
  String.length (q ++ String c "") = S (String.length q).
Proof.
  induction q as [|a q IH]; [reflexivity|].
  rewrite app_cons. cbn [String.length]. now rewrite IH.
Qed.

Lemma lastCharIs_cons (d a : ascii) (s : string) :
  s <> "" -> lastCharIs d (String a s) = lastCharIs d s.
Proof. destruct s; [congruence | reflexivity]. Qed.

Lemma endsWithDoubleSlash_cons (a b : ascii) (rest : string) :
  rest <> "" ->
  endsWithDoubleSlash (String a (String b rest))
  = endsWithDoubleSlash (String b rest).
Proof. destruct rest; [congruence | reflexivity]. Qed.

Lemma endsWithDoubleSlash_snoc (q : string) (c : ascii) :
  endsWithDoubleSlash (q ++ String c "")
  = lastCharIs "/" q && Ascii.eqb c "/".
Proof.
  induction q as [|a q IH]; [reflexivity|].
  destruct q as [|b q]; [reflexivity|].
  rewrite !app_cons in *.
  rewrite endsWithDoubleSlash_cons by apply snoc_not_empty.
  rewrite IH. now rewrite (lastCharIs_cons "/" a (String b q)).
Qed.

Lemma hasTrailingSlash_add (p : string) :
  hasTrailingSlash (modifyTrailingSlash p AddSlash) = true.
Proof.
  unfold modifyTrailingSlash.
  destruct (hasTrailingSlash p) eqn:E; [exact E|].
  apply lastCharIs_snoc.
Qed.

Lemma modifyTrailingSlash_add_twice (p : string) :
  modifyTrailingSlash (modifyTrailingSlash p AddSlash) AddSlash
  = modifyTrailingSlash p AddSlash.
Proof.
  unfold modifyTrailingSlash at 1. now rewrite hasTrailingSlash_add.
Qed.

Lemma remove_snoc (q : string) (c : ascii) :
  modifyTrailingSlash (q ++ String c "") RemoveSlash
  = if Ascii.eqb c "/" && (0 <? Z.of_nat (String.length q))
    then q else q ++ String c "".
Proof.
  unfold modifyTrailingSlash, hasTrailingSlash.
  rewrite lastCharIs_snoc_eqb, length_snoc, dropLast_snoc.
  replace (1 <? Z.of_nat (S (String.length q)))
    with (0 <? Z.of_nat (String.length q)); [reflexivity|].
  destruct (String.length q); [reflexivity|].
  symmetry. apply Z.ltb_lt. lia.
Qed.

(** When ['remove'] takes a slash away, a second ['remove'] changes the
    result again exactly when another slash was waiting behind it. *)
Lemma modifyTrailingSlash_remove_twice (p : string) :
  modifyTrailingSlash (modifyTrailingSlash p RemoveSlash) RemoveSlash
  = modifyTrailingSlash p RemoveSlash
  <-> endsWithDoubleSlash p && (2 <? Z.of_nat (String.length p)) = false.
Proof.
  destruct (snoc_cases p) as [-> | (q & c & ->)]; [now split|].
  rewrite endsWithDoubleSlash_snoc, length_snoc, (remove_snoc q c).
  destruct (Ascii.eqb c "/" && (0 <? Z.of_nat (String.length q))) eqn:E1.
  - apply andb_true_iff in E1 as [Ec El]. rewrite Ec, andb_true_r.
    destruct (snoc_cases q) as [-> | (r & d & ->)]; [discriminate|].
    rewrite (remove_snoc r d), lastCharIs_snoc_eqb, !length_snoc.
    destruct (Ascii.eqb d "/"); cbn [andb]; [|now split].
    destruct (String.length r) as [|n] eqn:Er.
    + now split.
    + replace (0 <? Z.of_nat (S n)) with true
        by (symmetry; apply Z.ltb_lt; lia).
      replace (2 <? Z.of_nat (S (S (S n)))) with true
        by (symmetry; apply Z.ltb_lt; lia).
      split; [|discriminate]. intros H. exfalso.
      apply (f_equal String.length) in H. rewrite length_snoc in H. lia.
  - rewrite (remove_snoc q c), E1. split; [|reflexivity]. intros _.
    apply andb_false_iff in E1 as [Ec | El].
    + now rewrite Ec, andb_false_r.
    + apply Z.ltb_ge in El. destruct q; [reflexivity | cbn in El; lia].
Qed.

(** C7, as the code allows it: for every pathname [p], applying ['add']
    twice gives what applying it once gives; applying ['remove'] twice gives
    what applying it once gives exactly when [p] is not a pathname of more
    than two characters that ends in two slashes (so in particular for every
    pathname without a doubled slash). *)
Theorem modifyTrailingSlash_idempotence (p : string) :
  modifyTrailingSlash (modifyTrailingSlash p AddSlash) AddSlash
  = modifyTrailingSlash p AddSlash
  /\ (modifyTrailingSlash (modifyTrailingSlash p RemoveSlash) RemoveSlash
      = modifyTrailingSlash p RemoveSlash
      <-> endsWithDoubleSlash p && (2 <? Z.of_nat (String.length p)) = false).
Proof.
  split.
  - apply modifyTrailingSlash_add_twice.
  - apply modifyTrailingSlash_remove_twice.
Qed.

(** C7 as stated fails for ['remove'] on ["/a//"]: one application leaves
    ["/a/"], a second one leaves ["/a"]. *)
Lemma modifyTrailingSlash_remove_not_idempotent :
  modifyTrailingSlash "/a//" RemoveSlash = "/a/"
  /\ modifyTrailingSlash (modifyTrailingSlash "/a//" RemoveSlash) RemoveSlash
     = "/a"
  /\ "/a" <> "/a/".
Proof. repeat split. discriminate. Qed.

Example modifyTrailingSlash_add_plain :
  modifyTrailingSlash "/docs" AddSlash = "/docs/".
Proof. reflexivity. Qed.

Example modifyTrailingSlash_remove_root :
  modifyTrailingSlash "/" RemoveSlash = "/".
Proof. reflexivity. Qed.

End URLToolsFacts.

(* ===================================================================== *)
(** ** Link: active links, external links, prefetch and clicks *)
(* ===================================================================== *)

Module LinkFacts.
Import JSString JSStringFacts URLTools Link LinkGuards.

Section HookFacts.

Variable createURLDescriptor : Href -> URLDescriptor.
Variable joinPaths : list string -> string.
Variables StateObject HashScrollBehavior Navigation Handler : Type.
Context `{EqDecision Handler}.
Variable call : Handler -> MouseEvent -> MouseEvent.

Local Abbreviation getLinkURL := (getLinkURL createURLDescriptor joinPaths).
Local Abbreviation resolveHref := (resolveHref joinPaths).
Local Abbreviation useActive :=
  (useActive createURLDescriptor joinPaths (Navigation := Navigation)).
Local Abbreviation useLinkProps :=
  (useLinkProps createURLDescriptor joinPaths call
     (StateObject := StateObject) (HashScrollBehavior := HashScrollBehavior)
     (Navigation := Navigation)).
Local Abbreviation Render :=
  (Render StateObject HashScrollBehavior Navigation Handler).
Local Abbreviation render := (render createURLDescriptor joinPaths call
  (StateObject := StateObject) (HashScrollBehavior := HashScrollBehavior)
  (Navigation := Navigation)).
Local Abbreviation memoryAfter :=
  (memoryAfter createURLDescriptor joinPaths call
     (StateObject := StateObject) (HashScrollBehavior := HashScrollBehavior)
     (Navigation := Navigation)).
Local Abbreviation linkURLOf :=
  (linkURLOf createURLDescriptor joinPaths
     (StateObject := StateObject) (HashScrollBehavior := HashScrollBehavior)
     (Navigation := Navigation) (Handler := Handler)).
Local Abbreviation depsOf :=
  (depsOf createURLDescriptor joinPaths
     (StateObject := StateObject) (HashScrollBehavior := HashScrollBehavior)
     (Navigation := Navigation) (Handler := Handler)).
Local Abbreviation handlerOf :=
  (handlerOf createURLDescriptor joinPaths call
     (StateObject := StateObject) (HashScrollBehavior := HashScrollBehavior)
     (Navigation := Navigation)).

Lemma isExternalHref_iff (href : Href) :
  isExternalHref href = true <-> externalHref href.
Proof.
  unfold isExternalHref, externalHref.
  rewrite orb_true_iff, negb_true_iff.
  split; (intros [H | H]; [now left | right]).
  - destruct href as [|s|d]; try discriminate.
    exists s. split; [reflexivity|].
    apply orb_true_iff in H as [H | H].
    + left. apply indexOf_found_iff. apply negb_true_iff, Z.eqb_neq in H.
      exact H.
    + right. apply indexOf_zero_iff. now apply Z.eqb_eq.
  - destruct H as (s & -> & H). apply orb_true_iff.
    destruct H as [H | H].
    + left. apply negb_true_iff, Z.eqb_neq. now apply indexOf_found_iff.
    + right. apply Z.eqb_eq. now apply indexOf_zero_iff.
Qed.

Lemma getLinkURL_internal (href : Href) (routeURL : option URLDescriptor) :
  isExternalHref href = false ->
  getLinkURL href routeURL
  = Some (createURLDescriptor (resolveHref href routeURL)).
Proof. intros H. unfold Link.getLinkURL. now rewrite H. Qed.

Lemma getLinkURL_external (href : Href) (routeURL : option URLDescriptor) :
  isExternalHref href = true -> getLinkURL href routeURL = None.
Proof. intros H. unfold Link.getLinkURL. now rewrite H. Qed.

(** With no link URL the click handler calls nobody. *)
Lemma handleClick_no_link
    (nav : option Navigation) (disabled : bool)
    (behavior : option HashScrollBehavior) (state : option StateObject)
    (userOnClick : option (MouseEvent -> MouseEvent))
    (routeURL : option URLDescriptor) (event : MouseEvent) :
  click_calls
    (handleClick nav disabled behavior state userOnClick routeURL None event)
  = [].
Proof.
  unfold handleClick.
  destruct (_ && _); [|reflexivity].
  destruct disabled; [reflexivity|].
  destruct routeURL; reflexivity.
Qed.

(** *** The click handler that is kept between renders *)

Lemma areHookInputsEqual_iff (a b : CallbackDeps Handler) :
  areHookInputsEqual a b = true <-> a = b.
Proof.
  unfold areHookInputsEqual, objectIs.
  rewrite !andb_true_iff, !bool_decide_eq_true.
  destruct a, b; cbn. split.
  - intros [[[-> ->] ->] ->]. reflexivity.
  - intros [= -> -> -> ->]. auto.
Qed.

(** A render of the hook, with its two computations of the link URL folded
    into the one of [getLinkURL]: the handler is what [useCallback] makes
    of the closure and the dependencies of this render. *)
Lemma render_unfolded
    (memory : HookMemory StateObject HashScrollBehavior Navigation Handler)
    (r : Render) :
  let kept :=
    useCallback areHookInputsEqual memory (handlerOf r) (depsOf r) in
  render memory r
  = ({| onClick := fst kept;
        href_prop :=
          match linkURLOf r with
          | Some l => HrefString (href l)
          | None => opt_href (render_options r)
          end;
        effect_calls :=
          match navigation (render_context r), linkURLOf r with
          | Some nav, Some l =>
              if opt_prefetch (render_options r) && truthy (pathname l)
              then [CallPrefetch nav l]
              else []
          | _, _ => []
          end |},
     snd kept).
Proof.
  unfold LinkGuards.render, Link.useLinkProps, LinkGuards.handlerOf,
    LinkGuards.depsOf, LinkGuards.linkURLOf, Link.getLinkURL, shownURL.
  destruct (isExternalHref (opt_href (render_options r))); cbn [negb];
    destruct (opt_hashScrollBehavior (render_options r)); cbn [orElse];
    destruct (useCallback _ _ _ _); reflexivity.
Qed.

Lemma memoryAfter_snoc (renders : list Render) (r : Render) :
  memoryAfter (renders ++ [r])%list = snd (render (memoryAfter renders) r).
Proof. unfold LinkGuards.memoryAfter. now rewrite fold_left_app. Qed.

(** The handler in use after a run of renders is the closure made by the
    render [made]: the first of the last renders that all have the
    dependencies of the current one.  It is the current render itself when
    that one is the first render or changes a dependency. *)
Lemma handler_made (earlier : list Render) (current : Render) :
  exists before made after,
    (earlier ++ [current] = before ++ made :: after)%list
    /\ Forall (fun r => depsOf r = depsOf current) (made :: after)
    /\ (forall previous,
          last before = Some previous -> depsOf previous <> depsOf current)
    /\ (earlier = []
        \/ (exists previous,
              last earlier = Some previous
              /\ depsOf previous <> depsOf current) ->
        made = current)
    /\ render (memoryAfter earlier) current
       = ({| onClick := handlerOf made;
             href_prop := href_prop (fst (render None current));
             effect_calls := effect_calls (fst (render None current)) |},
          Some (handlerOf made, depsOf made)).
Proof.
  revert current.
  induction earlier as [|previous earlier IH] using rev_ind; intros current.
  - exists [], current, []. split; [reflexivity|].
    split; [repeat constructor|]. split; [discriminate|].
    split; [reflexivity|].
    rewrite !render_unfolded. reflexivity.
  - destruct (IH previous)
      as (before & made & after & Hsplit & Hsame & Hchanged & _ & Hrender).
    rewrite memoryAfter_snoc, Hrender. cbn [snd].
    rewrite !render_unfolded. cbn [useCallback fst snd].
    assert (Hmade : depsOf made = depsOf previous)
      by now apply Forall_inv in Hsame.
    destruct (areHookInputsEqual (depsOf current) (depsOf made)) eqn:Hdeps.
    + apply areHookInputsEqual_iff in Hdeps.
      exists before, made, (after ++ [current])%list.
      split; [rewrite Hsplit, <- app_assoc; reflexivity|].
      split; [|split; [|split; [|reflexivity]]].
      * rewrite app_comm_cons. apply Forall_app. split.
        -- eapply Forall_impl; [exact Hsame|]. cbn. intros r ->. congruence.
        -- now constructor.
      * intros previous' Hlast. rewrite Hdeps, Hmade. now apply Hchanged.
      * intros [Hnil | (previous' & Hlast & Hne)].
        -- now apply app_eq_nil in Hnil as [_ Hnil].
        -- rewrite last_snoc in Hlast. injection Hlast as <-. congruence.
    + exists (earlier ++ [previous])%list, current, [].
      split; [reflexivity|]. split; [repeat constructor|].
      split; [|split; [reflexivity | reflexivity]].
      intros previous'. rewrite last_snoc. intros [= <-] Heq.
      assert (Hrefl : areHookInputsEqual (depsOf current) (depsOf made) = true)
        by (apply areHookInputsEqual_iff; congruence).
      congruence.
Qed.

(** C9: for a non-external href and a current route, [useActive] with
    [exact = true] is true exactly when the link's pathname and the route's
    pathname are the same string (neither is normalized), and with
    [exact = false] exactly when the route's pathname with the trailing
    slash added begins with the link's pathname, character by character
    (no alignment on a segment boundary is asked for). *)
Theorem useActive_internal_href
    (context : NaviContext Navigation) (href : Href)
    (options : ActiveOptions) (route : Route) :
  isExternalHref href = false ->
  currentRoute context options = Some route ->
  let routeURL := route_url route in
  let linkURL := createURLDescriptor (resolveHref href (Some routeURL)) in
  getLinkURL href (Some routeURL) = Some linkURL
  /\ (exact options = true ->
      (useActive context href options = true
       <-> pathname linkURL = pathname routeURL))
  /\ (exact options = false ->
      (useActive context href options = true
       <-> exists rest,
             modifyTrailingSlash (pathname routeURL) AddSlash
             = pathname linkURL ++ rest)).
Proof.
  intros Hint Hroute routeURL linkURL.
  assert (Hlink : getLinkURL href (Some routeURL) = Some linkURL)
    by now apply getLinkURL_internal.
  split; [exact Hlink|].
  unfold Link.useActive. fold (currentRoute context options).
  rewrite Hroute. cbn [option_map]. fold routeURL. rewrite Hlink.
  split; intros ->.
  - apply String.eqb_eq.
  - rewrite Z.eqb_eq, indexOf_zero_iff. apply startsWith_iff.
Qed.

(** What a handler holds of the render that made it, given that the two
    renders have the same dependencies. *)
Lemma same_deps (made current : Render) :
  depsOf made = depsOf current ->
  opt_disabled (render_options made) = opt_disabled (render_options current)
  /\ opt_onClick (render_options made) = opt_onClick (render_options current)
  /\ option_map href (linkURLOf made) = option_map href (linkURLOf current)
  /\ option_map href (shownURL (render_context made))
     = option_map href (shownURL (render_context current)).
Proof. intros [= H1 H2 H3 H4]. auto. Qed.

(** C10: a falsy href, one that contains [://] and one that begins with
    [mailto:] get no link URL; [useLinkProps] hands such an href back as it
    is, on the first render and on every later one; the click handler it
    returns, whichever render made it, makes no call at all (so none of
    [navigation.navigate]); and [useActive] is false for such an href. *)
Theorem external_href_untouched (href : Href) :
  externalHref href ->
  (forall routeURL, getLinkURL href routeURL = None)
  /\ (forall earlier fromContext context options,
        opt_href options = href ->
        let props :=
          fst (useLinkProps (memoryAfter earlier) fromContext context
                 options) in
        href_prop props = href
        /\ forall event nav url navOptions,
             ~ In (CallNavigate nav url navOptions)
                  (click_calls (onClick props event)))
  /\ (forall context options, useActive context href options = false).
Proof.
  intros Hext. apply isExternalHref_iff in Hext.
  split; [|split].
  - intros routeURL. now apply getLinkURL_external.
  - intros earlier fromContext context options <- props. subst props.
    change (useLinkProps (memoryAfter earlier) fromContext context options)
      with (render (memoryAfter earlier)
              (mkRender fromContext context options)).
    destruct (handler_made earlier (mkRender fromContext context options))
      as (before & made & after & _ & Hsame & _ & _ & ->).
    cbn [fst onClick href_prop]. rewrite render_unfolded. cbn [fst href_prop].
    assert (Hnone : linkURLOf (mkRender fromContext context options) = None)
      by now apply getLinkURL_external.
    rewrite Hnone. split; [reflexivity|].
    apply Forall_inv, same_deps in Hsame as (_ & _ & Hlink & _).
    rewrite Hnone in Hlink.
    intros event nav url navOptions. unfold LinkGuards.handlerOf.
    destruct (linkURLOf made); [discriminate|].
    rewrite handleClick_no_link. apply in_nil.
  - intros context options. unfold Link.useActive.
    rewrite getLinkURL_external by exact Hext. reflexivity.
Qed.


End HookFacts.

(** *** The hooks on examples *)

(** The C9 theorem at work: the href [/foo] while [/foobar/] is viewed is
    active as a prefix and not active as an exact match. *)
Lemma useActive_internal_href_witness :
  isExternalHref (HrefString "/foo") = false
  /\ currentRoute (viewing "/foobar/") (mkActiveOptions false false)
     = Some (mkRoute (mkURL "/foobar/" "" "" [] "/foobar/"))
  /\ useActive exampleCreateURLDescriptor exampleJoinPaths
       (viewing "/foobar/") (HrefString "/foo") (mkActiveOptions false false)
     = true
  /\ useActive exampleCreateURLDescriptor exampleJoinPaths
       (viewing "/foobar/") (HrefString "/foo") (mkActiveOptions true false)
     = false.
Proof.
  split; [reflexivity|]. split; [reflexivity|]. split; [|reflexivity].
  apply (useActive_internal_href exampleCreateURLDescriptor exampleJoinPaths
           unit (viewing "/foobar/") (HrefString "/foo")
           (mkActiveOptions false false)
           (mkRoute (mkURL "/foobar/" "" "" [] "/foobar/"))
           eq_refl eq_refl).
  - reflexivity.
  - exists "bar/". reflexivity.
Defined.

(** The C10 theorem at work on an absolute URL. *)
Lemma external_href_untouched_witness :
  externalHref (HrefString "https://example.com/a")
  /\ getLinkURL exampleCreateURLDescriptor exampleJoinPaths
       (HrefString "https://example.com/a") None = None
  /\ useActive exampleCreateURLDescriptor exampleJoinPaths
       (viewing "/a") (HrefString "https://example.com/a")
       defaultActiveOptions = false.
Proof.
  assert (H : externalHref (HrefString "https://example.com/a")).
  { right. exists "https://example.com/a". split; [reflexivity|].
    left. exists "https", "example.com/a". reflexivity. }
  split; [exact H|].
  pose proof (external_href_untouched exampleCreateURLDescriptor
                exampleJoinPaths nat unit unit nat exampleCall _ H)
    as (H1 & _ & H3).
  split; [apply H1 | apply H3].
Defined.



End LinkFacts.

(* ===================================================================== *)
(** ** Link: what the click handler and the hooks do and never do *)
(* ===================================================================== *)

Module LinkGuardFacts.
Import JSString JSStringFacts URLTools URLToolsFacts Link LinkFacts LinkGuards.

Section GuardFacts.

Variable createURLDescriptor : Href -> URLDescriptor.
Variable joinPaths : list string -> string.
Variables StateObject HashScrollBehavior Navigation Handler : Type.
Context `{EqDecision Handler}.
Variable call : Handler -> MouseEvent -> MouseEvent.

Local Abbreviation getLinkURL := (getLinkURL createURLDescriptor joinPaths).
Local Abbreviation resolveHref := (resolveHref joinPaths).
Local Abbreviation useActive :=
  (useActive createURLDescriptor joinPaths (Navigation := Navigation)).
Local Abbreviation useLinkProps :=
  (useLinkProps createURLDescriptor joinPaths call
     (StateObject := StateObject) (HashScrollBehavior := HashScrollBehavior)
     (Navigation := Navigation)).
Local Abbreviation Render :=
  (Render StateObject HashScrollBehavior Navigation Handler).
Local Abbreviation render := (render createURLDescriptor joinPaths call
  (StateObject := StateObject) (HashScrollBehavior := HashScrollBehavior)
  (Navigation := Navigation)).
Local Abbreviation memoryAfter :=
  (memoryAfter createURLDescriptor joinPaths call
     (StateObject := StateObject) (HashScrollBehavior := HashScrollBehavior)
     (Navigation := Navigation)).
Local Abbreviation linkURLOf :=
  (linkURLOf createURLDescriptor joinPaths
     (StateObject := StateObject) (HashScrollBehavior := HashScrollBehavior)
     (Navigation := Navigation) (Handler := Handler)).
Local Abbreviation depsOf :=
  (depsOf createURLDescriptor joinPaths
     (StateObject := StateObject) (HashScrollBehavior := HashScrollBehavior)
     (Navigation := Navigation) (Handler := Handler)).
Local Abbreviation handleClick :=
  (handleClick (StateObject := StateObject)
     (HashScrollBehavior := HashScrollBehavior) (Navigation := Navigation)).

Lemma ownClick_test (event : MouseEvent) :
  (button event =? 0)
  && negb (altKey event || ctrlKey event || metaKey event || shiftKey event)
  = true
  <-> ownClick event.
Proof.
  unfold ownClick, unmodified.
  rewrite andb_true_iff, Z.eqb_eq, negb_true_iff, !orb_false_iff. tauto.
Qed.

Lemma not_ownClick_test (event : MouseEvent) :
  ~ ownClick event ->
  (button event =? 0)
  && negb (altKey event || ctrlKey event || metaKey event || shiftKey event)
  = false.
Proof.
  intros H. apply not_true_is_false. now rewrite ownClick_test.
Qed.

(** A click with another button or with a modifier key is left to the
    browser: the handler neither touches the event, nor runs the link's own
    [onClick], nor calls anybody. *)
Theorem handleClick_leaves_other_clicks
    (nav : option Navigation) (disabled : bool)
    (behavior : option HashScrollBehavior) (state : option StateObject)
    (userOnClick : option (MouseEvent -> MouseEvent))
    (routeURL linkURL : option URLDescriptor) (event : MouseEvent) :
  ~ ownClick event ->
  handleClick nav disabled behavior state userOnClick routeURL linkURL event
  = mkClickOutcome event [] false.
Proof.
  intros H. unfold Link.handleClick. now rewrite not_ownClick_test.
Qed.

(** Whether a click gets past the guards can be told. *)
Lemma classic_reaches (disabled : bool)
    (userOnClick : option (MouseEvent -> MouseEvent))
    (routeURL linkURL : option URLDescriptor) (event : MouseEvent) :
  reachesNavigate disabled userOnClick routeURL linkURL event
  \/ ~ reachesNavigate disabled userOnClick routeURL linkURL event.
Proof.
  unfold reachesNavigate.
  destruct ((button event =? 0)
            && negb (altKey event || ctrlKey event || metaKey event
                     || shiftKey event)) eqn:Hown.
  - apply ownClick_test in Hown.
    destruct disabled; [right; intros (_ & H & _); discriminate|].
    destruct routeURL as [r|];
      [|right; intros (_ & _ & [? H] & _); discriminate].
    destruct linkURL as [l|];
      [|right; intros (_ & _ & _ & [? H] & _); discriminate].
    destruct (defaultPrevented (afterOnClick userOnClick event)) eqn:E.
    + right. intros (_ & _ & _ & _ & H). discriminate.
    + left. eauto 10.
  - right. intros (H & _). apply ownClick_test in H. congruence.
Qed.

(** The test before [scrollToHash], as the handler computes it. *)
Lemma samePageHash_test (l r : URLDescriptor) :
  (String.eqb (modifyTrailingSlash (pathname l) RemoveSlash)
              (modifyTrailingSlash (pathname r) RemoveSlash)
   || String.eqb (pathname l) "")
  && String.eqb (hash l) (hash r) && truthy (hash l) = true
  <-> samePageHash l r.
Proof.
  unfold samePageHash, truthy.
  rewrite !andb_true_iff, orb_true_iff, negb_true_iff, !String.eqb_eq,
    String.eqb_neq.
  tauto.
Qed.

(** What the handler does with a click that gets past its guards. *)
Lemma handleClick_reaches
    (nav : option Navigation) (disabled : bool)
    (behavior : option HashScrollBehavior) (state : option StateObject)
    (userOnClick : option (MouseEvent -> MouseEvent))
    (r l : URLDescriptor) (event : MouseEvent) :
  reachesNavigate disabled userOnClick (Some r) (Some l) event ->
  handleClick nav disabled behavior state userOnClick (Some r) (Some l) event
  = match nav with
    | None =>
        mkClickOutcome (preventDefault (afterOnClick userOnClick event)) []
          true
    | Some n =>
        mkClickOutcome (preventDefault (afterOnClick userOnClick event))
          (CallNavigate n l (option_map mkNavigateOptions state)
           :: if (String.eqb (modifyTrailingSlash (pathname l) RemoveSlash)
                             (modifyTrailingSlash (pathname r) RemoveSlash)
                  || String.eqb (pathname l) "")
                 && String.eqb (hash l) (hash r) && truthy (hash l)
              then [CallScrollToHash (hash r) behavior]
              else [])
          false
    end.
Proof.
  intros (Hown & -> & _ & _ & Hprevented).
  apply ownClick_test in Hown.
  unfold Link.handleClick. rewrite Hown.
  fold (afterOnClick userOnClick event). rewrite Hprevented. cbn [negb].
  destruct nav as [n|]; [|reflexivity].
  cbv zeta. destruct ((_ || _) && _ && _); reflexivity.
Qed.

(** A click that is stopped by a guard makes no call and does not throw. *)
Lemma handleClick_stopped
    (nav : option Navigation) (disabled : bool)
    (behavior : option HashScrollBehavior) (state : option StateObject)
    (userOnClick : option (MouseEvent -> MouseEvent))
    (routeURL linkURL : option URLDescriptor) (event : MouseEvent) :
  ~ reachesNavigate disabled userOnClick routeURL linkURL event ->
  click_calls
    (handleClick nav disabled behavior state userOnClick routeURL linkURL
       event) = []
  /\ click_threw
       (handleClick nav disabled behavior state userOnClick routeURL linkURL
          event) = false.
Proof.
  intros Hnot. unfold Link.handleClick.
  destruct (_ && _) eqn:Hown; [|now split].
  apply ownClick_test in Hown.
  destruct disabled; [now split|].
  fold (afterOnClick userOnClick event).
  destruct routeURL as [r|]; [|now split].
  destruct linkURL as [l|]; [|now split].
  destruct (defaultPrevented (afterOnClick userOnClick event)) eqn:Hprevented;
    [now split|].
  exfalso. apply Hnot. unfold reachesNavigate. eauto 10.
Qed.

(** On a disabled link the handler prevents the default action of its own
    clicks and does nothing else: the link's own [onClick] is not run and
    nobody is called. *)
Theorem handleClick_disabled_only_prevents
    (nav : option Navigation)
    (behavior : option HashScrollBehavior) (state : option StateObject)
    (userOnClick : option (MouseEvent -> MouseEvent))
    (routeURL linkURL : option URLDescriptor) (event : MouseEvent) :
  ownClick event ->
  handleClick nav true behavior state userOnClick routeURL linkURL event
  = mkClickOutcome (preventDefault event) [] false.
Proof.
  intros Hown. apply ownClick_test in Hown.
  unfold Link.handleClick. now rewrite Hown.
Qed.

(** The handler calls [navigation.navigate] exactly for the clicks that
    get past its guards while a navigation object is there; the call is
    then the first one it makes, for the link URL, with [{ state }] when a
    state was given. *)
Theorem handleClick_navigates_iff
    (nav : option Navigation) (disabled : bool)
    (behavior : option HashScrollBehavior) (state : option StateObject)
    (userOnClick : option (MouseEvent -> MouseEvent))
    (routeURL linkURL : option URLDescriptor) (event : MouseEvent) :
  let outcome :=
    handleClick nav disabled behavior state userOnClick routeURL linkURL
      event in
  ((exists n url options, In (CallNavigate n url options) (click_calls outcome))
   <-> reachesNavigate disabled userOnClick routeURL linkURL event
       /\ is_Some nav)
  /\ (forall n url options,
        In (CallNavigate n url options) (click_calls outcome) ->
        nav = Some n /\ linkURL = Some url
        /\ options = option_map mkNavigateOptions state
        /\ exists rest, click_calls outcome = CallNavigate n url options :: rest).
Proof.
  intros outcome. subst outcome.
  destruct (classic_reaches disabled userOnClick routeURL linkURL event)
    as [Hreach | Hnot].
  - pose proof Hreach as (_ & _ & [r ->] & [l ->] & _).
    rewrite (handleClick_reaches nav disabled behavior state userOnClick r l
               event Hreach).
    destruct nav as [n|]; cbn [click_calls].
    + split.
      * split; [intros _; split; [exact Hreach | eauto]|].
        intros _. eexists _, _, _. now left.
      * intros n' url options [H | H].
        -- injection H as <- <- <-. repeat split; eauto.
        -- destruct (_ && _); [|destruct H].
           destruct H as [H | []]. discriminate.
    + split.
      * split; [intros (? & ? & ? & []) | intros [_ [? H]]; discriminate].
      * intros ? ? ? [].
  - destruct (handleClick_stopped nav disabled behavior state userOnClick
                routeURL linkURL event Hnot) as [-> _].
    split.
    + split; [intros (? & ? & ? & []) | intros [H _]; contradiction].
    + intros ? ? ? [].
Qed.

(** The handler ends in a [TypeError] exactly when a click gets past its
    guards and the context holds no navigation object; the default action
    has been prevented by then and nobody has been called. *)
Theorem handleClick_throws_iff
    (nav : option Navigation) (disabled : bool)
    (behavior : option HashScrollBehavior) (state : option StateObject)
    (userOnClick : option (MouseEvent -> MouseEvent))
    (routeURL linkURL : option URLDescriptor) (event : MouseEvent) :
  let outcome :=
    handleClick nav disabled behavior state userOnClick routeURL linkURL
      event in
  (click_threw outcome = true
   <-> reachesNavigate disabled userOnClick routeURL linkURL event
       /\ nav = None)
  /\ (click_threw outcome = true ->
      click_calls outcome = []
      /\ defaultPrevented (click_event outcome) = true).
Proof.
  intros outcome. subst outcome.
  destruct (classic_reaches disabled userOnClick routeURL linkURL event)
    as [Hreach | Hnot].
  - pose proof Hreach as (_ & _ & [r ->] & [l ->] & _).
    rewrite (handleClick_reaches nav disabled behavior state userOnClick r l
               event Hreach).
    destruct nav as [n|]; cbn.
    + split; [|discriminate]. split; [discriminate | intros [_ H]; discriminate].
    + split; [|auto]. split; auto.
  - destruct (handleClick_stopped nav disabled behavior state userOnClick
                routeURL linkURL event Hnot) as [_ Hthrew].
    rewrite Hthrew.
    split; [|discriminate]. split; [discriminate | intros [H _]; contradiction].
Qed.

(** The handler calls [scrollToHash] exactly when it navigates to a hash
    of the page that is shown: the click gets past the guards, there is a
    navigation object, the link's pathname is the route's (up to a trailing
    slash) or empty, and the two hashes are the same non-empty hash.  It
    scrolls to that hash, with the behaviour it was given. *)
Theorem handleClick_scrolls_iff
    (nav : option Navigation) (disabled : bool)
    (behavior : option HashScrollBehavior) (state : option StateObject)
    (userOnClick : option (MouseEvent -> MouseEvent))
    (r l : URLDescriptor) (event : MouseEvent) (h : string)
    (b : option HashScrollBehavior) :
  In (CallScrollToHash h b)
     (click_calls
        (handleClick nav disabled behavior state userOnClick (Some r) (Some l)
           event))
  <-> reachesNavigate disabled userOnClick (Some r) (Some l) event
      /\ is_Some nav
      /\ samePageHash l r
      /\ h = hash r
      /\ b = behavior.
Proof.
  destruct (classic_reaches disabled userOnClick (Some r) (Some l) event)
    as [Hreach | Hnot].
  - rewrite (handleClick_reaches nav disabled behavior state userOnClick r l
               event Hreach).
    destruct nav as [n|]; cbn [click_calls].
    + pose proof (samePageHash_test l r) as Htest.
      destruct (_ && _).
      * split.
        -- intros [H | [H | []]]; [discriminate|]. injection H as <- <-.
           split; [exact Hreach|]. split; [eauto|].
           split; [now apply Htest | auto].
        -- intros (_ & _ & _ & -> & ->). right. now left.
      * split.
        -- intros [H | []]. discriminate.
        -- intros (_ & _ & Hsame & _). apply Htest in Hsame. discriminate.
    + split; [intros [] | intros (_ & [? H] & _); discriminate].
  - destruct (handleClick_stopped nav disabled behavior state userOnClick
                (Some r) (Some l) event Hnot) as [-> _].
    split; [intros [] | intros [H _]; contradiction].
Qed.

(** Where there are a link URL and a current route URL, a click of the
    handler's own ends with the default action prevented whenever the
    link's own [onClick], if there is one, returns: whether that [onClick]
    prevents the default action itself or not, whether the link is disabled
    or not, and also when the call of [navigate] then fails for want of a
    navigation object. *)
Theorem handleClick_prevents_default_when_onClick_returns
    (nav : option Navigation) (disabled : bool)
    (behavior : option HashScrollBehavior) (state : option StateObject)
    (userOnClick : option (MouseEvent -> MouseEvent))
    (r l : URLDescriptor) (event : MouseEvent) :
  ownClick event ->
  defaultPrevented
    (click_event
       (handleClick nav disabled behavior state userOnClick (Some r) (Some l)
          event))
  = true.
Proof.
  intros Hown. pose proof Hown as Htest. apply ownClick_test in Htest.
  unfold Link.handleClick. rewrite Htest.
  destruct disabled; [reflexivity|].
  fold (afterOnClick userOnClick event).
  destruct (defaultPrevented (afterOnClick userOnClick event)) eqn:E;
    cbn [negb]; [exact E|].
  destruct nav; [|reflexivity].
  cbv zeta. destruct ((_ || _) && _ && _); reflexivity.
Qed.

(** *** The hooks *)

(** The click handler is kept between renders.  After any earlier
    renders, the handler that [useLinkProps] returns is the closure made by
    the render [made], the first of the last renders that have the
    [disabled], the [onClick], the link href and the route href of the
    current one: it runs with the navigation object, the state, the hash
    scroll behaviour and the URLs of [made], whatever the current ones are,
    and with the [disabled] and the [onClick] of the current render, which
    are those of [made].  The render before [made], if there is one, differs
    in one of the four; the hook keeps that handler for the next render;
    and the href returned is always the one of the current link URL, or
    the href given when there is no link URL. *)
Theorem useLinkProps_handler_kept
    (earlier : list Render)
    (fromContext : option HashScrollBehavior)
    (context : NaviContext Navigation)
    (options : UseLinkPropsOptions StateObject HashScrollBehavior Handler) :
  let current := mkRender fromContext context options in
  let props :=
    fst (useLinkProps (memoryAfter earlier) fromContext context options) in
  href_prop props
  = match getLinkURL (opt_href options) (shownURL context) with
    | Some l => HrefString (href l)
    | None => opt_href options
    end
  /\ exists before made after,
       (earlier ++ [current] = before ++ made :: after)%list
       /\ Forall (fun r => depsOf r = depsOf current) (made :: after)
       /\ (forall previous,
             last before = Some previous ->
             depsOf previous <> depsOf current)
       /\ onClick props
          = handleClick (navigation (render_context made))
              (flag (opt_disabled options))
              (orElse (opt_hashScrollBehavior (render_options made))
                 (render_scroll made))
              (opt_state (render_options made))
              (option_map call (opt_onClick options))
              (shownURL (render_context made)) (linkURLOf made)
       /\ memoryAfter (earlier ++ [current])%list
          = Some (onClick props, depsOf made).
Proof.
  intros current props. subst props.
  change (useLinkProps (memoryAfter earlier) fromContext context options)
    with (render (memoryAfter earlier) current).
  rewrite memoryAfter_snoc.
  destruct (handler_made createURLDescriptor joinPaths StateObject
              HashScrollBehavior Navigation Handler call earlier current)
    as (before & made & after & Hsplit & Hsame & Hchanged & _ & ->).
  cbn [fst snd href_prop onClick]. rewrite render_unfolded.
  cbn [fst href_prop]. split; [reflexivity|].
  exists before, made, after.
  split; [exact Hsplit|]. split; [exact Hsame|]. split; [exact Hchanged|].
  split; [|reflexivity].
  apply Forall_inv, same_deps in Hsame as (Hd & Ho & _).
  unfold LinkGuards.handlerOf. now rewrite Hd, Ho.
Qed.

(** How an href becomes a link URL.  An object href is never external and
    is handed to [createURLDescriptor] as it is; so is an internal string
    href that begins with a slash, whatever route is shown, and any internal
    string href when no route is shown; an internal string href that does
    not begin with a slash is joined to the shown route's pathname first. *)
Theorem getLinkURL_resolution (routeURL : option URLDescriptor) :
  (forall d,
     getLinkURL (HrefObject d) routeURL
     = Some (createURLDescriptor (HrefObject d)))
  /\ (forall s,
        isExternalHref (HrefString s) = false ->
        firstCharIs "/" s = true ->
        getLinkURL (HrefString s) routeURL
        = Some (createURLDescriptor (HrefString s)))
  /\ (forall s,
        isExternalHref (HrefString s) = false ->
        getLinkURL (HrefString s) None
        = Some (createURLDescriptor (HrefString s)))
  /\ (forall s r,
        isExternalHref (HrefString s) = false ->
        firstCharIs "/" s = false ->
        getLinkURL (HrefString s) (Some r)
        = Some (createURLDescriptor
                  (HrefString (joinPaths ["/"; pathname r; s])))).
Proof.
  split; [|split; [|split]].
  - intros d. unfold Link.getLinkURL. cbn. now destruct routeURL.
  - intros s Hint Hslash. rewrite getLinkURL_internal by exact Hint.
    destruct routeURL; cbn; now rewrite ?Hslash.
  - intros s Hint. now rewrite getLinkURL_internal.
  - intros s r Hint Hslash. rewrite getLinkURL_internal by exact Hint.
    cbn. now rewrite Hslash.
Qed.

(** The effect of [useLinkProps] calls [navigation.prefetch] exactly when
    [prefetch] is set, the context holds a navigation object and there is a
    link URL with a non-empty pathname; it then makes that one call, for
    the link URL, and it never calls anything else. *)
Theorem useLinkProps_prefetches_iff
    (memory : HookMemory StateObject HashScrollBehavior Navigation Handler)
    (fromContext : option HashScrollBehavior)
    (context : NaviContext Navigation)
    (options : UseLinkPropsOptions StateObject HashScrollBehavior Handler) :
  let linkURL := getLinkURL (opt_href options) (shownURL context) in
  let calls :=
    effect_calls (fst (useLinkProps memory fromContext context options)) in
  (calls <> []
   <-> opt_prefetch options = true
       /\ is_Some (navigation context)
       /\ exists l, linkURL = Some l /\ pathname l <> "")
  /\ (forall call, In call calls ->
      exists nav l,
        navigation context = Some nav /\ linkURL = Some l
        /\ call = CallPrefetch nav l /\ calls = [call]).
Proof.
  intros linkURL calls. subst linkURL calls.
  change (useLinkProps memory fromContext context options)
    with (render memory (mkRender fromContext context options)).
  rewrite render_unfolded.
  unfold LinkGuards.linkURLOf, Link.getLinkURL, shownURL.
  cbn [fst effect_calls render_options render_context].
  destruct (isExternalHref (opt_href options)); cbn [negb].
  - destruct (navigation context); split;
      try (split; [congruence | intros (_ & _ & l & H & _); discriminate]);
      intros ? [].
  - destruct (navigation context) as [nav|].
    + destruct (opt_prefetch options); cbn [andb].
      * unfold truthy. destruct (String.eqb_spec (pathname (createURLDescriptor
            (resolveHref (opt_href options)
               (option_map route_url
                  (orElse (steadyRoute context) (busyRoute context)))))) "")
          as [E | E]; cbn [negb].
        -- split; [|intros ? []].
           split; [congruence|]. intros (_ & _ & l & [= <-] & H). contradiction.
        -- split.
           ++ split; [|discriminate]. intros _. repeat split; eauto.
           ++ intros c [<- | []]. eauto 10.
      * split; [|intros ? []].
        split; [congruence | intros (H & _); discriminate].
    + split; [|intros ? []].
      split; [congruence | intros (_ & [? H] & _); discriminate].
Qed.

(** A link that is active as an exact match is active as a prefix too, and
    so is a link whose pathname is the route's pathname with a slash
    added. *)
Theorem useActive_exact_then_prefix
    (context : NaviContext Navigation) (href : Href) (loading : bool) :
  (useActive context href (mkActiveOptions true loading) = true ->
   useActive context href (mkActiveOptions false loading) = true)
  /\ (forall route l,
        currentRoute context (mkActiveOptions false loading) = Some route ->
        getLinkURL href (Some (route_url route)) = Some l ->
        pathname l
        = modifyTrailingSlash (pathname (route_url route)) AddSlash ->
        useActive context href (mkActiveOptions false loading) = true).
Proof.
  unfold Link.useActive, currentRoute. cbn [exact Link.loading].
  split.
  - destruct (option_map route_url _) as [r|];
      [|intros H; exact H].
    destruct (Link.getLinkURL _ _ _ _) as [l|]; [|intros H; exact H].
    intros H. apply String.eqb_eq in H. rewrite H.
    apply Z.eqb_eq, indexOf_zero_iff, startsWith_iff.
    unfold modifyTrailingSlash.
    destruct (hasTrailingSlash (pathname r)).
    + exists "". clear. induction (pathname r) as [|c s IH]; [reflexivity|].
      rewrite app_cons. now rewrite <- IH.
    + now exists "/".
  - intros route l -> Hlink Hpath. cbn [option_map]. rewrite Hlink, Hpath.
    apply Z.eqb_eq, indexOf_zero_iff, startsWith_iff.
    exists "". clear.
    induction (modifyTrailingSlash _ _) as [|c s IH]; [reflexivity|].
    rewrite app_cons. now rewrite <- IH.
Qed.

(** Without a route, steady or busy, no link is active; and when only one
    of the two is there, the [loading] option makes no difference. *)
Theorem useActive_routes
    (context : NaviContext Navigation) (href : Href)
    (options : ActiveOptions) :
  (steadyRoute context = None -> busyRoute context = None ->
   useActive context href options = false)
  /\ (steadyRoute context = None \/ busyRoute context = None ->
      useActive context href (mkActiveOptions (exact options) true)
      = useActive context href (mkActiveOptions (exact options) false)).
Proof.
  unfold Link.useActive. split.
  - intros -> ->. destruct (loading options); cbn;
      now destruct (Link.getLinkURL _ _ _ _).
  - cbn [Link.loading]. intros [-> | ->];
      [destruct (busyRoute context) | destruct (steadyRoute context)];
      reflexivity.
Qed.

End GuardFacts.

(** *** The guards on examples *)

(** A control-click on a link to [/about] is left alone. *)
Lemma handleClick_leaves_other_clicks_witness :
  ~ ownClick controlClick
  /\ onClick
       (fst (useLinkProps exampleCreateURLDescriptor exampleJoinPaths
               exampleCall None None (viewing "/posts/")
               (linkTo "/about" false false None)))
       controlClick
     = mkClickOutcome controlClick [] false.
Proof.
  assert (H : ~ ownClick controlClick).
  { intros (_ & _ & Hctrl & _). discriminate. }
  split; [exact H|].
  apply (handleClick_leaves_other_clicks nat unit unit (Some tt) false None
           None None (Some (Navigation.pageURL "/posts/"))
           (Some (Navigation.pageURL "/about"))
           controlClick H).
Defined.

(** A disabled link to [/about], clicked. *)
Lemma handleClick_disabled_only_prevents_witness :
  ownClick primaryClick
  /\ onClick
       (fst (useLinkProps exampleCreateURLDescriptor exampleJoinPaths
               exampleCall None None (viewing "/posts/")
               (linkTo "/about" true false None)))
       primaryClick
     = mkClickOutcome (preventDefault primaryClick) [] false.
Proof.
  assert (H : ownClick primaryClick) by (repeat split).
  split; [exact H|].
  apply (handleClick_disabled_only_prevents nat unit unit (Some tt) None None
           None (Some (Navigation.pageURL "/posts/"))
           (Some (Navigation.pageURL "/about"))
           primaryClick H).
Defined.

(** A link clicked in a context without a navigation object: the handler
    fails, the default action is prevented all the same. *)
Lemma handleClick_prevents_default_when_onClick_returns_witness :
  ownClick primaryClick
  /\ defaultPrevented
       (click_event
          (handleClick (None : option unit) false (None : option unit)
             (None : option nat) None
             (Some (Navigation.pageURL "/posts/"))
             (Some (Navigation.pageURL "/about"))
             primaryClick))
     = true.
Proof.
  assert (H : ownClick primaryClick) by (repeat split).
  split; [exact H|].
  apply (handleClick_prevents_default_when_onClick_returns nat unit unit None
           false None None None (Navigation.pageURL "/posts/")
           (Navigation.pageURL "/about") primaryClick H).
Defined.

End LinkGuardFacts.

(* ===================================================================== *)
(** ** Link: the component *)
(* ===================================================================== *)

Module LinkComponentFacts.
Import JSString JSStringFacts URLTools Link LinkFacts LinkGuards.
Import LinkGuardFacts LinkComponent.

Section ComponentFacts.

Variable createURLDescriptor : Href -> URLDescriptor.
Variable joinPaths : list string -> string.
Variables StateObject HashScrollBehavior Navigation Children : Type.
Variable Handler : Type.
Context `{EqDecision Handler}.
Variable call : Handler -> MouseEvent -> MouseEvent.

Local Abbreviation getLinkURL := (getLinkURL createURLDescriptor joinPaths).
Local Abbreviation Props := (Props HashScrollBehavior Children Handler).
Local Abbreviation LinkRender :=
  (LinkRender HashScrollBehavior Navigation Children Handler).
Local Abbreviation HookMemory :=
  (HookMemory StateObject HashScrollBehavior Navigation Handler).
Local Abbreviation Link :=
  (Link createURLDescriptor joinPaths call (StateObject := StateObject)
     (HashScrollBehavior := HashScrollBehavior) (Navigation := Navigation)
     (Children := Children)).
Local Abbreviation LinkEffect :=
  (LinkEffect createURLDescriptor joinPaths call (StateObject := StateObject)
     (HashScrollBehavior := HashScrollBehavior) (Navigation := Navigation)
     (Children := Children)).
Local Abbreviation linkMemoryAfter :=
  (linkMemoryAfter createURLDescriptor joinPaths call
     (StateObject := StateObject) (HashScrollBehavior := HashScrollBehavior)
     (Navigation := Navigation) (Children := Children)).
Local Abbreviation render := (render createURLDescriptor joinPaths call
  (StateObject := StateObject) (HashScrollBehavior := HashScrollBehavior)
  (Navigation := Navigation)).
Local Abbreviation memoryAfter :=
  (memoryAfter createURLDescriptor joinPaths call
     (StateObject := StateObject) (HashScrollBehavior := HashScrollBehavior)
     (Navigation := Navigation)).
Local Abbreviation linkURLOf :=
  (linkURLOf createURLDescriptor joinPaths
     (StateObject := StateObject) (HashScrollBehavior := HashScrollBehavior)
     (Navigation := Navigation) (Handler := Handler)).
Local Abbreviation hookRender :=
  (hookRender (StateObject := StateObject)
     (HashScrollBehavior := HashScrollBehavior) (Navigation := Navigation)
     (Children := Children) (Handler := Handler)).

(** What a render of [<Link>] takes from its hook: the handler, unless a
    [target] is set, and the memory. *)
Lemma Link_hook (memory : HookMemory)
    (fromContext : option HashScrollBehavior)
    (context : NaviContext Navigation) (props : Props) :
  renderer_onClick (fst (Link memory fromContext context props))
  = (if given (props_target props)
     then option_map (callerHandler call) (props_onClick props)
     else Some (onClick
                  (fst (render memory
                          (hookRender
                             (mkLinkRender fromContext context props))))))
  /\ renderer_href (fst (Link memory fromContext context props))
     = href_prop
         (fst (render memory
                 (hookRender (mkLinkRender fromContext context props))))
  /\ snd (Link memory fromContext context props)
     = snd (render memory
              (hookRender (mkLinkRender fromContext context props)))
  /\ renderer_active (fst (Link memory fromContext context props))
     = match props_active props with
       | Some a => a
       | None =>
           useActive createURLDescriptor joinPaths context
             (href_prop
                (fst (render memory
                        (hookRender
                           (mkLinkRender fromContext context props)))))
             (mkActiveOptions (flag (props_exact props)) false)
       end.
Proof.
  unfold LinkComponent.Link, LinkGuards.render. cbn [hookRender
    LinkComponent.hookRender render_scroll render_context render_options].
  destruct (useLinkProps _ _ _ _ _ _ _) as [hook memory'].
  cbn. auto.
Qed.

Lemma linkMemoryAfter_hook (renders : list LinkRender) :
  linkMemoryAfter renders = memoryAfter (map hookRender renders).
Proof.
  induction renders as [|r renders IH] using rev_ind; [reflexivity|].
  rewrite map_app. cbn [map].
  rewrite (memoryAfter_snoc createURLDescriptor joinPaths StateObject
             HashScrollBehavior Navigation Handler call).
  rewrite <- IH. unfold LinkComponent.linkMemoryAfter at 1.
  rewrite fold_left_app. cbn [fold_left].
  fold (linkMemoryAfter renders).
  destruct r as [fromContext context props].
  cbn [link_scroll link_context link_props].
  now destruct (Link_hook (linkMemoryAfter renders) fromContext context props)
    as (_ & _ & -> & _).
Qed.

(** [<Link>] keeps [disabled] and a state away from the click handler.
    After any earlier renders of a link without a [target], a click that
    gets past the other guards of the handler is never stopped because the
    link was given [disabled]: its default action is prevented, and the
    handler, made by one of the renders of the link, calls
    [navigation.navigate] on the navigation object of that render, for a
    link URL with the href of the current one and with no options; where
    that render had no navigation object the call fails with a
    [TypeError].  On the first render the handler is that render's own.
    The renderer alone is told that the link is disabled. *)
Theorem Link_navigates_even_if_disabled
    (earlier : list LinkRender)
    (fromContext : option HashScrollBehavior)
    (context : NaviContext Navigation) (props : Props)
    (l : URLDescriptor) (event : MouseEvent) :
  given (props_target props) = false ->
  getLinkURL (props_href props) (shownURL context) = Some l ->
  reachesNavigate false (option_map call (props_onClick props))
    (shownURL context) (Some l) event ->
  let current := mkLinkRender fromContext context props in
  let rendered :=
    fst (Link (linkMemoryAfter earlier) fromContext context props) in
  renderer_disabled rendered = props_disabled props
  /\ exists handler made,
       renderer_onClick rendered = Some handler
       /\ In made (earlier ++ [current])%list
       /\ (earlier = [] -> made = current)
       /\ defaultPrevented (click_event (handler event)) = true
       /\ match navigation (link_context made) with
          | Some nav =>
              exists madeURL rest,
                href madeURL = href l
                /\ click_calls (handler event)
                   = CallNavigate nav madeURL None :: rest
          | None =>
              click_threw (handler event) = true
              /\ click_calls (handler event) = []
          end.
Proof.
  intros Htarget Hlink Hreach current rendered. subst rendered current.
  split.
  { unfold LinkComponent.Link. now destruct (useLinkProps _ _ _ _ _ _ _). }
  destruct (Link_hook (linkMemoryAfter earlier) fromContext context props)
    as (-> & _).
  rewrite Htarget, linkMemoryAfter_hook.
  destruct (handler_made createURLDescriptor joinPaths StateObject
              HashScrollBehavior Navigation Handler call
              (map hookRender earlier)
              (hookRender (mkLinkRender fromContext context props)))
    as (before & made' & after & Hsplit & Hsame & _ & _ & ->).
  cbn [fst onClick].
  assert (Hin :
    In made'
       (map hookRender
          (earlier ++ [mkLinkRender fromContext context props]))).
  { rewrite map_app. cbn [map]. rewrite Hsplit.
    apply in_app_iff. right. now left. }
  apply in_map_iff in Hin as (made & <- & Hin).
  exists (handlerOf createURLDescriptor joinPaths call (hookRender made)), made.
  split; [reflexivity|]. split; [exact Hin|]. split.
  { intros ->. destruct Hin as [Hin | []]. now symmetry. }
  apply Forall_inv, same_deps in Hsame as (_ & Ho & Hl & Hu).
  cbn [hookRender LinkComponent.hookRender render_options render_context
       hookOptions opt_onClick link_context link_props] in Ho, Hu.
  change (linkURLOf (hookRender (mkLinkRender fromContext context props)))
    with (getLinkURL (props_href props) (shownURL context)) in Hl.
  rewrite Hlink in Hl.
  destruct Hreach as (Hown & _ & [r Hr] & _ & Hprevented).
  rewrite Hr in Hu.
  unfold LinkGuards.handlerOf.
  cbn [hookRender LinkComponent.hookRender render_options render_context
       render_scroll hookOptions opt_onClick opt_disabled opt_state
       opt_hashScrollBehavior flag default].
  destruct (linkURLOf (hookRender made)) as [madeURL|] eqn:Hmade;
    [|discriminate].
  injection Hl as Hl.
  destruct (shownURL (link_context made)) as [madeRoute|] eqn:Hroute;
    [|discriminate].
  rewrite (handleClick_reaches StateObject HashScrollBehavior Navigation);
    [|unfold reachesNavigate; rewrite Ho; eauto 10].
  destruct (navigation (link_context made)) as [nav|]; cbn.
  - split; [reflexivity|]. eauto.
  - auto.
Qed.

(** With a [target], [<Link>] does not capture clicks, on any render: the
    anchor gets the caller's own [onClick], or no handler at all, so a
    click calls none of the collaborators and the default action is
    prevented only if the caller's handler does it. *)
Theorem Link_target_leaves_clicks (memory : HookMemory)
    (fromContext : option HashScrollBehavior)
    (context : NaviContext Navigation) (props : Props) :
  given (props_target props) = true ->
  (props_onClick props = None ->
   renderer_onClick (fst (Link memory fromContext context props)) = None)
  /\ (forall own,
        props_onClick props = Some own ->
        exists handler,
          renderer_onClick (fst (Link memory fromContext context props))
          = Some handler
          /\ forall event,
               handler event = mkClickOutcome (call own event) [] false).
Proof.
  intros Htarget.
  destruct (Link_hook memory fromContext context props) as (-> & _).
  rewrite Htarget. split.
  - now intros ->.
  - intros own ->. eexists. split; reflexivity.
Qed.

(** A [<Link>] with a [target] and without an [onClick] gives its anchor
    no handler; a [<LinkAnchor>] with an [onClick] of its own then calls a
    handler that is not there: every click that its own handler does not
    default-prevent ends in a [TypeError]. *)
Theorem anchorHandleClick_target_without_handler (memory : HookMemory)
    (fromContext : option HashScrollBehavior)
    (context : NaviContext Navigation) (props : Props)
    (children : Children) (className : option string) (hidden : option bool)
    (style : option Style) (own : MouseEvent -> MouseEvent) :
  given (props_target props) = true ->
  props_onClick props = None ->
  exists handler,
    anchorHandleClick (mkAnchorProps children className hidden style (Some own))
      (renderer_anchorProps (fst (Link memory fromContext context props)))
    = Some handler
    /\ forall event,
         handler event
         = mkClickOutcome (own event) []
             (negb (defaultPrevented (own event))).
Proof.
  intros Htarget Hnone. unfold anchorHandleClick, LinkComponent.Link.
  destruct (useLinkProps _ _ _ _ _ _ _) as [hook memory'].
  cbn. rewrite Htarget, Hnone. cbn.
  eexists. split; [reflexivity|].
  intros event. cbn beta. now destruct (defaultPrevented (own event)).
Qed.

(** The default renderer's anchor: its class name is the link's class
    name, a space, and the active class name when the link is active and
    has one; its style is the link's style, where the active style takes
    over, key by key, when and only when the link is active. *)
Theorem defaultLinkRenderer_class_and_style
    (props : LinkRendererProps StateObject HashScrollBehavior Navigation
               Children) :
  anchor_className (defaultLinkRenderer props)
  = Some (orEmpty (renderer_className props) ++ " "
          ++ (if renderer_active props
              then orEmpty (renderer_activeClassName props)
              else ""))
  /\ exists style,
       anchor_style (defaultLinkRenderer props) = Some style
       /\ forall key,
            style !! key
            = if renderer_active props
              then match renderer_activeStyle props ≫= (.!! key) with
                   | Some value => Some value
                   | None => renderer_style props ≫= (.!! key)
                   end
              else renderer_style props ≫= (.!! key).
Proof.
  unfold defaultLinkRenderer.
  cbn [anchor_className anchor_style]. split.
  - destruct (renderer_active props); [|reflexivity]. cbn [andb].
    destruct (renderer_activeClassName props) as [s|]; [|reflexivity].
    cbn. unfold truthy. destruct (String.eqb_spec s "") as [-> | _];
      reflexivity.
  - eexists. split; [reflexivity|]. intros key. unfold assign.
    rewrite lookup_union.
    destruct (renderer_active props).
    + destruct (renderer_activeStyle props) as [a|],
               (renderer_style props) as [s|]; cbn;
        rewrite ?lookup_empty;
        try destruct (a !! key); try destruct (s !! key); reflexivity.
    + cbn. rewrite lookup_empty.
      destruct (renderer_style props) as [s|]; cbn;
        rewrite ?lookup_empty; try destruct (s !! key); reflexivity.
Qed.

(** An external href goes through [<Link>] untouched, on the first
    render and on every later one: the renderer gets the href as it was
    given, a handler that calls nobody, and [active] false unless the
    caller set it; and nothing is prefetched. *)
Theorem Link_external_href (earlier : list LinkRender)
    (fromContext : option HashScrollBehavior)
    (context : NaviContext Navigation) (props : Props) :
  isExternalHref (props_href props) = true ->
  let rendered :=
    fst (Link (linkMemoryAfter earlier) fromContext context props) in
  renderer_href rendered = props_href props
  /\ renderer_active rendered = default false (props_active props)
  /\ LinkEffect (linkMemoryAfter earlier) fromContext context props = []
  /\ forall handler event,
       renderer_onClick rendered = Some handler ->
       click_calls (handler event) = [].
Proof.
  intros Hext rendered.
  assert (Hlink : forall routeURL,
            getLinkURL (props_href props) routeURL = None)
    by (intros; now apply getLinkURL_external).
  set (current := mkLinkRender fromContext context props).
  assert (Hnone : linkURLOf (hookRender current) = None) by apply Hlink.
  assert (Hhref :
    href_prop (fst (render (linkMemoryAfter earlier) (hookRender current)))
    = props_href props).
  { rewrite render_unfolded. cbn [fst href_prop]. now rewrite Hnone. }
  split; [|split; [|split]].
  - subst rendered.
    now destruct (Link_hook (linkMemoryAfter earlier) fromContext context
                    props) as (_ & -> & _).
  - subst rendered.
    destruct (Link_hook (linkMemoryAfter earlier) fromContext context props)
      as (_ & _ & _ & ->).
    fold current. rewrite Hhref.
    unfold Link.useActive. rewrite Hlink.
    now destruct (props_active props).
  - unfold LinkComponent.LinkEffect.
    change (useLinkProps createURLDescriptor joinPaths call
              (linkMemoryAfter earlier) fromContext context
              (hookOptions props))
      with (render (linkMemoryAfter earlier) (hookRender current)).
    rewrite render_unfolded. cbn [fst effect_calls]. rewrite Hnone.
    now destruct (navigation _).
  - subst rendered. intros handler event.
    destruct (Link_hook (linkMemoryAfter earlier) fromContext context props)
      as (-> & _).
    destruct (given (props_target props)).
    + destruct (props_onClick props); [|discriminate].
      now intros [= <-].
    + intros [= <-]. rewrite linkMemoryAfter_hook. fold current.
      destruct (handler_made createURLDescriptor joinPaths StateObject
                  HashScrollBehavior Navigation Handler call
                  (map hookRender earlier) (hookRender current))
        as (before & made & after & _ & Hsame & _ & _ & ->).
      cbn [fst onClick].
      apply Forall_inv, same_deps in Hsame as (_ & _ & Hl & _).
      rewrite Hnone in Hl. unfold LinkGuards.handlerOf.
      change (LinkGuards.linkURLOf createURLDescriptor joinPaths made)
        with (linkURLOf made).
      destruct (linkURLOf made); [discriminate|].
      apply handleClick_no_link.
Qed.

End ComponentFacts.

(** *** The component on examples *)

(** A disabled link to [/about], clicked after its first render while
    [/posts/] is shown. *)
Lemma Link_navigates_even_if_disabled_witness :
  exists handler madeURL rest,
    renderer_onClick
      (fst (Link exampleCreateURLDescriptor exampleJoinPaths exampleCall
              (StateObject := nat) None None (viewing "/posts/")
              (exampleProps "/about" (Some true) None)))
    = Some handler
    /\ click_calls (handler primaryClick)
       = CallNavigate tt madeURL None :: rest.
Proof.
  assert (Hreach :
    reachesNavigate false None (shownURL (viewing "/posts/"))
      (Some (Navigation.pageURL "/about")) primaryClick).
  { repeat split; eauto. }
  destruct (Link_navigates_even_if_disabled exampleCreateURLDescriptor
              exampleJoinPaths nat unit unit unit nat exampleCall []
              None (viewing "/posts/")
              (exampleProps "/about" (Some true) None)
              (Navigation.pageURL "/about") primaryClick
              eq_refl eq_refl Hreach)
    as (_ & handler & made & Hhandler & _ & Hfirst & _ & Hcalls).
  rewrite (Hfirst eq_refl) in Hcalls.
  destruct Hcalls as (madeURL & rest & _ & Hcalls).
  exists handler, madeURL, rest. split; [exact Hhandler | exact Hcalls].
Defined.

(** A link with [target="_blank"] and no [onClick]. *)
Lemma Link_target_leaves_clicks_witness :
  renderer_onClick
    (fst (Link exampleCreateURLDescriptor exampleJoinPaths exampleCall
            (StateObject := nat) None None (viewing "/posts/")
            (exampleProps "/about" None (Some "_blank"))))
  = None.
Proof.
  apply (Link_target_leaves_clicks exampleCreateURLDescriptor
           exampleJoinPaths nat unit unit unit nat exampleCall None None
           (viewing "/posts/")
           (exampleProps "/about" None (Some "_blank")) eq_refl).
  reflexivity.
Defined.

(** The same link under an anchor with an [onClick] that leaves the event
    alone. *)
Lemma anchorHandleClick_target_without_handler_witness :
  exists handler,
    anchorHandleClick (mkAnchorProps tt None None None (Some (fun e => e)))
      (renderer_anchorProps
         (fst (Link exampleCreateURLDescriptor exampleJoinPaths exampleCall
                 (StateObject := nat) None None (viewing "/posts/")
                 (exampleProps "/about" None (Some "_blank")))))
    = Some handler
    /\ click_threw (handler primaryClick) = true.
Proof.
  destruct (anchorHandleClick_target_without_handler
              exampleCreateURLDescriptor exampleJoinPaths nat unit unit unit
              nat exampleCall None None (viewing "/posts/")
              (exampleProps "/about" None (Some "_blank"))
              tt None None None (fun e => e) eq_refl eq_refl)
    as (handler & Hhandler & Hevent).
  exists handler. split; [exact Hhandler|]. now rewrite Hevent.
Defined.

(** A link to another site. *)
Lemma Link_external_href_witness :
  renderer_href
    (fst (Link exampleCreateURLDescriptor exampleJoinPaths exampleCall
            (StateObject := nat) None None (viewing "/posts/")
            (exampleProps "https://example.com/" None None)))
  = HrefString "https://example.com/".
Proof.
  apply (Link_external_href exampleCreateURLDescriptor exampleJoinPaths nat
           unit unit unit nat exampleCall [] None (viewing "/posts/")
           (exampleProps "https://example.com/" None None) eq_refl).
Defined.

End LinkComponentFacts.

(* ===================================================================== *)
(** ** BrowserNavigation: context changes and steady states *)
(* ===================================================================== *)

Module NavigationFacts.
Import URLTools Navigation.

Local Open Scope list_scope.
Local Open Scope nat_scope.

Section Facts.

Variables Context Junction Route History : Type.
Variable location : History -> URLDescriptor.
Variable createBrowserHistory : History.

Local Abbreviation Router := (Router Context Junction).
Local Abbreviation RoutingState := (RoutingState Route).
Local Abbreviation Effect := (Effect Context Junction Route History).
Local Abbreviation World := (World Context Junction Route History).
Local Abbreviation Event := (Event Context Route).
Local Abbreviation Observable :=
  (HistoryRoutingObservable Context Junction Route History).
Local Abbreviation BrowserNavigation :=
  (BrowserNavigation Context Junction Route History).
Local Abbreviation Options :=
  (BrowserNavigationOptions Context Junction History).
Local Abbreviation constructor :=
  (constructor Context Junction Route History location createBrowserHistory).
Local Abbreviation navigationAfter :=
  (navigationAfter location createBrowserHistory
     (Context := Context) (Junction := Junction) (Route := Route)).
Local Abbreviation faithfulHistory :=
  (faithfulHistory location createBrowserHistory
     (Context := Context) (Junction := Junction) (Route := Route)).

(** *** The private root fields *)

Lemma step_keeps_private_fields (event : Event) (nav : BrowserNavigation)
    (w : World) :
  nav_rootJunction (fst (step event nav w)) = nav_rootJunction nav
  /\ nav_rootPath (fst (step event nav w)) = nav_rootPath nav
  /\ nav_resolver (fst (step event nav w)) = nav_resolver nav.
Proof.
  destruct event; cbn; unfold bind; cbn.
  - auto.
  - auto.
  - auto.
  - auto.
  - auto.
  - destruct (handleResolution _ _ _ _ _ _ _); cbn; auto.
Qed.

Lemma run_keeps_private_fields (events : list Event)
    (nav : BrowserNavigation) (w : World) :
  nav_rootJunction (fst (run events nav w)) = nav_rootJunction nav
  /\ nav_rootPath (fst (run events nav w)) = nav_rootPath nav
  /\ nav_resolver (fst (run events nav w)) = nav_resolver nav.
Proof.
  revert nav w; induction events as [|event rest IH]; intros nav w.
  - auto.
  - cbn [run]. unfold bind.
    destruct (step event nav w) as [nav' w'] eqn:E.
    destruct (IH nav' w') as (H1 & H2 & H3).
    destruct (step_keeps_private_fields event nav w) as (K1 & K2 & K3).
    rewrite E in K1, K2, K3. cbn [fst] in K1, K2, K3.
    rewrite H1, H2, H3. auto.
Qed.

Lemma constructor_fields (options : Options) (w : World) :
  let nav := fst (constructor options w) in
  nav_rootJunction nav = None
  /\ nav_rootPath nav = None
  /\ nav_resolver nav = nextRef w
  /\ nav_router nav
     = mkRouter (S (nextRef w)) (nextRef w) (opt_initialRootContext options)
         (Some (opt_rootJunction options)) (opt_rootPath options).
Proof. cbn. auto. Qed.

(** *** The invariant *)

Lemma constructor_coherent (options : Options) :
  coherent (fst (constructor options emptyWorld))
           (snd (constructor options emptyWorld)).
Proof.
  split; cbn.
  - reflexivity.
  - lia.
  - reflexivity.
  - intros g r u [H | [H | []]]; [|discriminate].
    injection H as <- _ <-. cbn. split; [lia | reflexivity].
  - reflexivity.
  - reflexivity.
Qed.

Lemma in_deliverAll observers (state : RoutingState) (e : Effect) :
  In e (deliverAll observers state) ->
  exists o, e = Delivered o state.
Proof.
  unfold deliverAll. rewrite in_map_iff. intros (o & <- & _). eauto.
Qed.

(** Membership in a list of effects, taken apart. *)
Ltac effect_in H :=
  repeat match type of H with
         | In _ (_ :: _) => destruct H as [H | H]
         | In _ (_ ++ _) => apply in_app_iff in H as [H | H]
         | In _ (deliverAll _ _) => apply in_deliverAll in H as [? H]
         | In _ (map _ _) => apply in_map_iff in H as (? & H & _)
         | In _ [] => destruct H
         | In _ (if ?b then _ else _) => destruct b eqn:?
         end;
  try discriminate.

Lemma requestsKnown_start (effects : list Effect) (o : Observable)
    (router : Router) (url : URLDescriptor) :
  requestsKnown effects o ->
  requestsKnown (effects ++ snd (startResolution _ _ _ _ router url o))
                (fst (startResolution _ _ _ _ router url o)).
Proof.
  intros Hreq g r u. cbn. rewrite in_app_iff. intros [H | [H | H]].
  - destruct (Hreq g r u H). split; [lia | intros; lia].
  - injection H as <- _ <-. auto.
  - apply in_deliverAll in H as [ob H]. discriminate.
Qed.

Lemma requestsKnown_quiet (effects news : list Effect) (o o' : Observable) :
  requestsKnown effects o ->
  hro_generation o' = hro_generation o ->
  hro_url o' = hro_url o ->
  (forall g r u, ~ In (ResolveRequested g r u) news) ->
  requestsKnown (effects ++ news) o'.
Proof.
  intros Hreq Hg Hu Hnone g r u. rewrite in_app_iff, Hg, Hu.
  intros [H | H]; [exact (Hreq g r u H) | now apply Hnone in H].
Qed.

Lemma step_coherent (event : Event) (nav : BrowserNavigation) (w : World) :
  coherent nav w ->
  reportsRequest w event ->
  coherent (fst (step event nav w)) (snd (step event nav w)).
Proof.
  intros [Hres Hfresh Hrouter Hreq Hcell Hwait] Hevent.
  destruct event as [context | | observer | subscription | url | g state];
    cbn; unfold bind; cbn.
  - split; cbn; try (reflexivity || lia).
    apply (requestsKnown_start _ _ _ _ Hreq).
  - split; cbn; try (assumption || lia).
    + rewrite <- app_assoc.
      apply (requestsKnown_quiet _ _ _ _ Hreq); try reflexivity.
      intros g r u H. effect_in H.
    + destruct (rs_isSteady _) eqn:E; [assumption | reflexivity].
  - split; cbn; try (assumption || lia).
    apply (requestsKnown_quiet _ _ _ _ Hreq); try reflexivity.
    intros g r u [H | []]. discriminate.
  - split; cbn; assumption || lia.
  - split; cbn; try (assumption || reflexivity || lia).
    apply (requestsKnown_start _ _ _ _ Hreq).
  - unfold handleResolution.
    destruct
      (Nat.eqb_spec g (hro_generation (nav_historyRoutingObservable nav)))
      as [-> | Hne]; cbn.
    + destruct Hevent as [r Hr]. apply Hreq in Hr as [_ Hurl].
      split; cbn; try (assumption || lia).
      * apply (requestsKnown_quiet _ _ _ _ Hreq); try reflexivity.
        intros g r' u. rewrite in_app_iff. intros [H | H].
        -- apply in_deliverAll in H as [ob H]. discriminate.
        -- destruct (rs_isSteady state); [|destruct H].
           apply in_map_iff in H as (d & H & _). discriminate.
      * now apply Hurl.
      * destruct (rs_isSteady state); [congruence | reflexivity].
    + split; cbn; try (assumption || lia).
      rewrite app_nil_r. exact Hreq.
Qed.

Lemma run_coherent (events : list Event) (nav : BrowserNavigation)
    (w : World) :
  coherent nav w ->
  faithfulRun events nav w ->
  coherent (fst (run events nav w)) (snd (run events nav w)).
Proof.
  revert nav w; induction events as [|event rest IH]; intros nav w Hc Hf.
  - exact Hc.
  - destruct Hf as [Hevent Hrest]. cbn [run]. unfold bind.
    pose proof (step_coherent event nav w Hc Hevent) as Hc'.
    destruct (step event nav w) as [nav' w']. now apply IH.
Qed.

Lemma run_app (events1 events2 : list Event) (nav : BrowserNavigation)
    (w : World) :
  run (events1 ++ events2) nav w
  = run events2 (fst (run events1 nav w)) (snd (run events1 nav w)).
Proof.
  revert nav w; induction events1 as [|event rest IH]; intros nav w.
  - reflexivity.
  - cbn [app run]. unfold bind. destruct (step event nav w) as [nav' w'].
    apply IH.
Qed.

Lemma faithfulRun_app (events1 events2 : list Event)
    (nav : BrowserNavigation) (w : World) :
  faithfulRun (events1 ++ events2) nav w
  <-> faithfulRun events1 nav w
      /\ faithfulRun events2 (fst (run events1 nav w))
                             (snd (run events1 nav w)).
Proof.
  revert nav w; induction events1 as [|event rest IH]; intros nav w.
  - cbn. tauto.
  - cbn [app faithfulRun run]. unfold bind. rewrite IH.
    destruct (step event nav w) as [nav' w']. cbn [fst snd]. tauto.
Qed.

Lemma navigationAfter_snoc (options : Options) (events : list Event)
    (event : Event) :
  navigationAfter options (events ++ [event])
  = step event (fst (navigationAfter options events))
               (snd (navigationAfter options events)).
Proof.
  unfold Navigation.navigationAfter, bind.
  destruct (createBrowserNavigation _ _ _ _ _ _ options emptyWorld)
    as [nav0 w0].
  rewrite run_app. cbn [run]. unfold bind.
  destruct (step event _ _) as [nav' w']. reflexivity.
Qed.

Lemma navigationAfter_coherent (options : Options) (events : list Event) :
  faithfulHistory options events ->
  coherent (fst (navigationAfter options events))
           (snd (navigationAfter options events)).
Proof.
  unfold Navigation.faithfulHistory, Navigation.navigationAfter, bind.
  pose proof (constructor_coherent options) as Hc.
  unfold createBrowserNavigation.
  destruct (constructor options emptyWorld) as [nav0 w0].
  intros Hf. now apply run_coherent.
Qed.

Lemma step_bound (event : Event) (nav : BrowserNavigation) (w : World) :
  bound nav w -> bound (fst (step event nav w)) (snd (step event nav w)).
Proof.
  unfold bound. intros (H1 & H2 & H3).
  destruct event as [context | | observer | subscription | url | g state];
    cbn; unfold bind; cbn.
  1-5: repeat split; (assumption || lia).
  unfold handleResolution.
  destruct (Nat.eqb g _); cbn; repeat split; assumption.
Qed.

Lemma navigationAfter_bound (options : Options) (events : list Event) :
  bound (fst (navigationAfter options events))
        (snd (navigationAfter options events)).
Proof.
  induction events as [|event events IH] using rev_ind.
  - unfold bound. cbn. repeat split. lia.
  - rewrite navigationAfter_snoc. now apply step_bound.
Qed.

(** *** Context changes *)

(** C8: the constructor leaves the private [rootJunction] and [rootPath]
    unassigned (its own Router gets both from the options), and nothing
    assigns them later, so the Router that [setContext] builds has
    [rootJunction] and [rootPath] undefined, whatever was supplied to
    [createBrowserNavigation] and whatever happened in between. *)
Theorem setContext_router_without_root (options : Options)
    (events : list Event) (context : Context) :
  let created := fst (navigationAfter options []) in
  let nav := fst (navigationAfter options events) in
  let w := snd (navigationAfter options events) in
  let replacement := nav_router (fst (setContext context nav w)) in
  nav_rootJunction created = None
  /\ nav_rootPath created = None
  /\ rootJunction (nav_router created) = Some (opt_rootJunction options)
  /\ rootPath (nav_router created) = opt_rootPath options
  /\ rootJunction replacement = None
  /\ rootPath replacement = None.
Proof.
  intros created nav w replacement.
  assert (Hnav : nav_rootJunction nav = None /\ nav_rootPath nav = None).
  { subst nav. unfold Navigation.navigationAfter, bind, createBrowserNavigation.
    destruct (constructor_fields options emptyWorld) as (H1 & H2 & _).
    destruct (constructor options emptyWorld) as [nav0 w0].
    destruct (run_keeps_private_fields events nav0 w0) as (K1 & K2 & _).
    cbn [fst] in *. now rewrite K1, K2. }
  destruct Hnav as [Hj Hp].
  repeat split; try reflexivity.
  - subst replacement. cbn. exact Hj.
  - subst replacement. cbn. exact Hp.
Qed.

(** C2, as the code has it: [setContext] forms a new Router for the new
    context, bound to the Resolver the navigation object created at the
    start, whatever the old and the new context are; it hands that Router
    to the observable, which asks it to resolve the current URL again,
    the URL itself being unchanged. *)
Theorem setContext_new_router_same_resolver (options : Options)
    (events : list Event) (context : Context) :
  let nav := fst (navigationAfter options events) in
  let w := snd (navigationAfter options events) in
  let nav' := fst (setContext context nav w) in
  let w' := snd (setContext context nav w) in
  let o := nav_historyRoutingObservable nav in
  let o' := nav_historyRoutingObservable nav' in
  router_ref (nav_router nav') <> router_ref (nav_router nav)
  /\ rootContext (nav_router nav') = Some context
  /\ router_resolver (nav_router nav') = router_resolver (nav_router nav)
  /\ router_resolver (nav_router nav')
     = nav_resolver (fst (navigationAfter options []))
  /\ hro_router o' = nav_router nav'
  /\ hro_url o' = hro_url o
  /\ hro_generation o' = S (hro_generation o)
  /\ log w'
     = log w
       ++ ResolveRequested (S (hro_generation o)) (nav_router nav') (hro_url o)
          :: deliverAll (hro_observers o)
               (mkRoutingState (hro_url o) [] false None).
Proof.
  intros nav w nav' w' o o'.
  destruct (navigationAfter_bound options events) as (Hres & Hfresh & _).
  fold nav in Hres, Hfresh. fold w in Hfresh.
  assert (Hresolver :
    nav_resolver nav = nav_resolver (fst (navigationAfter options []))).
  { subst nav. unfold Navigation.navigationAfter, bind, createBrowserNavigation.
    destruct (constructor options emptyWorld) as [nav0 w0].
    now destruct (run_keeps_private_fields events nav0 w0) as (_ & _ & K). }
  subst nav' w' o'. cbn.
  repeat split; try (reflexivity || congruence).
  - lia.
  - rewrite Hresolver. reflexivity.
Qed.

(** *** Steady states *)

(** What one event adds to the log. *)
Lemma step_news (event : Event) (nav : BrowserNavigation) (w : World) :
  let o := nav_historyRoutingObservable nav in
  let o' := nav_historyRoutingObservable (fst (step event nav w)) in
  exists news,
    log (snd (step event nav w)) = log w ++ news
    /\ (forall d st, In (SteadyCompleted d st) news ->
        rs_isSteady st = true /\ hro_lastState o' = st)
    /\ (forall ob st, In (Delivered ob st) news -> hro_lastState o' = st)
    /\ (forall g st, event = Resolution g st -> g <> hro_generation o ->
        news = [] /\ o' = o)
    /\ (forall st d, event = Resolution (hro_generation o) st ->
        rs_isSteady st = true -> In d (hro_waiting o) ->
        In (SteadyCompleted d st) news)
    /\ (forall url, event = LocationChange url ->
        hro_url o' = url
        /\ hro_generation o' = S (hro_generation o)
        /\ hro_waiting o' = hro_waiting o
        /\ forall d st, ~ In (SteadyCompleted d st) news).
Proof.
  intros o o'. subst o'.
  destruct event as [context | | observer | subscription | url | g state];
    cbn; unfold bind; cbn; fold o.
  - eexists. split; [reflexivity|]. split; [|split; [|split; [|split]]].
    + intros d st H. effect_in H.
    + intros ob st H. effect_in H. now injection H as _ <-.
    + discriminate.
    + discriminate.
    + discriminate.
  - eexists. split; [now rewrite <- app_assoc|].
    split; [|split; [|split; [|split]]].
    + intros d st H. effect_in H. injection H as _ <-. cbn. auto.
    + intros ob st H. effect_in H.
    + discriminate.
    + discriminate.
    + discriminate.
  - eexists. split; [reflexivity|]. split; [|split; [|split; [|split]]].
    + intros d st H. effect_in H.
    + intros ob st H. effect_in H. now injection H as _ <-.
    + discriminate.
    + discriminate.
    + discriminate.
  - exists []. split; [now rewrite app_nil_r|].
    split; [|split; [|split; [|split]]].
    + intros d st [].
    + intros ob st [].
    + discriminate.
    + discriminate.
    + discriminate.
  - eexists. split; [reflexivity|]. split; [|split; [|split; [|split]]].
    + intros d st H. effect_in H.
    + intros ob st H. effect_in H. now injection H as _ <-.
    + discriminate.
    + discriminate.
    + intros url' H. injection H as <-. repeat split.
      intros d st H. effect_in H.
  - unfold handleResolution. fold o.
    destruct (Nat.eqb_spec g (hro_generation o)) as [-> | Hne]; cbn.
    + eexists. split; [reflexivity|]. split; [|split; [|split; [|split]]].
      * intros d st H. effect_in H. injection H as _ <-. auto.
      * intros ob st H. effect_in H. now injection H as _ <-.
      * intros g st H Hg. injection H as H _.
        exact (False_ind _ (Hg (eq_sym H))).
      * intros st d H Hsteady Hd. injection H as <-.
        apply in_app_iff. right. rewrite Hsteady.
        apply in_map_iff. eauto.
      * discriminate.
    + exists []. split; [now rewrite app_nil_r|].
      split; [|split; [|split; [|split]]].
      * intros d st [].
      * intros ob st [].
      * auto.
      * intros st d H. injection H as H _.
        exact (False_ind _ (Hne H)).
      * discriminate.
Qed.

(** *** Deferred steady states *)

Local Abbreviation completions :=
  (completions (Context := Context) (Junction := Junction) (Route := Route)
     (History := History)).

Lemma completions_app (d : nat) (a b : list Effect) :
  completions d (a ++ b) = completions d a ++ completions d b.
Proof.
  induction a as [|e a IH]; [reflexivity|].
  destruct e; cbn; try exact IH.
  destruct (Nat.eqb _ _); cbn; now rewrite IH.
Qed.

Lemma completions_deliverAll (d : nat)
    (observers : list (nat * Observer Context Junction History))
    (state : RoutingState) :
  completions d (deliverAll observers state) = ([] : list RoutingState).
Proof. induction observers as [|o observers IH]; [reflexivity | exact IH]. Qed.

(** Completing the waiting deferred values completes each of them once. *)
Lemma completions_waiting (d : nat) (state : RoutingState)
    (waiting : list nat) :
  List.NoDup waiting ->
  (In d waiting ->
   completions d (map (fun d' => SteadyCompleted d' state) waiting)
   = [state])
  /\ (~ In d waiting ->
      completions d (map (fun d' => SteadyCompleted d' state) waiting) = []).
Proof.
  induction 1 as [|d' waiting Hout Hnodup [IHin IHout]]; cbn.
  - split; [tauto | reflexivity].
  - destruct (Nat.eqb_spec d' d) as [-> | Hne].
    + split; [|tauto]. intros _. now rewrite IHout.
    + split.
      * intros [Heq | Hin]; [contradiction | now apply IHin].
      * intros Hnot. apply IHout. tauto.
Qed.

Lemma constructor_settled (options : Options) :
  settled (fst (constructor options emptyWorld))
          (snd (constructor options emptyWorld)).
Proof.
  split; cbn.
  - constructor.
  - intros d [].
  - intros d Hd. lia.
  - intros d _. split; [reflexivity|].
    intros [Hin | [Hin | []]]; discriminate.
Qed.

(** An event that completes and returns nothing, and leaves the waiting
    list and the numbering alone, keeps the deferred values settled. *)
Lemma settled_quiet (nav nav' : BrowserNavigation) (w w' : World)
    (news : list Effect) :
  settled nav w ->
  log w' = log w ++ news ->
  hro_waiting (nav_historyRoutingObservable nav')
  = hro_waiting (nav_historyRoutingObservable nav) ->
  hro_nextDeferred (nav_historyRoutingObservable nav')
  = hro_nextDeferred (nav_historyRoutingObservable nav) ->
  (forall d, completions d news = []) ->
  (forall d, ~ In (SteadyStateReturned d) news) ->
  settled nav' w'.
Proof.
  intros [Honce Hwaiting Hdone Hnew] Hlog Hw Hn Hquiet Hnone.
  split; rewrite ?Hw, ?Hn, ?Hlog.
  - exact Honce.
  - intros d Hin. rewrite completions_app, Hquiet, app_nil_r. auto.
  - intros d Hd Hout. rewrite completions_app, Hquiet, app_nil_r. auto.
  - intros d Hd. rewrite completions_app, Hquiet, app_nil_r.
    destruct (Hnew d Hd) as [Hc Hr]. split; [exact Hc|].
    rewrite in_app_iff. intros [Hin | Hin]; [tauto | now apply Hnone in Hin].
Qed.

Lemma step_settled (event : Event) (nav : BrowserNavigation) (w : World) :
  settled nav w ->
  settled (fst (step event nav w)) (snd (step event nav w)).
Proof.
  intros Hs.
  destruct event as [context | | observer | subscription | url | g state].
  - eapply settled_quiet; [exact Hs | cbn; reflexivity | reflexivity
                          | reflexivity | |].
    + intros d. cbn. apply completions_deliverAll.
    + intros d Hin. effect_in Hin.
  - destruct Hs as [Honce Hwaiting Hdone Hnew].
    cbn; unfold bind; cbn.
    set (o := nav_historyRoutingObservable nav) in *.
    assert (Hfresh : ~ In (hro_nextDeferred o) (hro_waiting o)).
    { intros Hin. apply Hwaiting in Hin as [Hlt _]. lia. }
    destruct (rs_isSteady (hro_lastState o)) eqn:Hsteady; split; cbn.
    + exact Honce.
    + intros d Hin. destruct (Hwaiting d Hin) as [Hlt Hc].
      split; [lia|]. rewrite !completions_app, Hc. cbn.
      destruct (Nat.eqb_spec (hro_nextDeferred o) d); [lia | reflexivity].
    + intros d Hd Hout. rewrite !completions_app. cbn.
      destruct (Nat.eqb_spec (hro_nextDeferred o) d) as [<- | Hne].
      * destruct (Hnew (hro_nextDeferred o)) as [-> _]; [lia|].
        cbn. eauto.
      * destruct (Hdone d) as (st & -> & Hst); [lia | exact Hout |].
        cbn. eauto.
    + intros d Hd. rewrite !completions_app. cbn.
      destruct (Nat.eqb_spec (hro_nextDeferred o) d); [lia|].
      destruct (Hnew d) as [-> Hr]; [lia|]. split; [reflexivity|].
      rewrite !in_app_iff. intros [[Hin | Hin] | Hin]; [tauto | |];
        effect_in Hin. injection Hin as Hin. lia.
    + apply List.NoDup_app; [exact Honce | repeat constructor; intros []|].
      intros d Hin [<- | []]. contradiction.
    + intros d Hin. rewrite !completions_app, app_nil_r. cbn.
      rewrite app_nil_r.
      apply in_app_iff in Hin as [Hin | [<- | []]].
      * destruct (Hwaiting d Hin). split; [lia | assumption].
      * destruct (Hnew (hro_nextDeferred o)) as [Hc _]; [lia|].
        split; [lia | exact Hc].
    + intros d Hd Hout. rewrite !completions_app, app_nil_r. cbn.
      rewrite app_nil_r. apply Hdone.
      * rewrite in_app_iff in Hout. cbn in Hout.
        destruct (Nat.eq_dec d (hro_nextDeferred o)) as [-> | Hne];
          [exfalso; apply Hout; right; now left | lia].
      * rewrite in_app_iff in Hout. tauto.
    + intros d Hd. rewrite !completions_app, app_nil_r. cbn.
      rewrite app_nil_r.
      destruct (Hnew d) as [Hc Hr]; [lia|]. split; [exact Hc|].
      rewrite !in_app_iff. intros [[Hin | []] | [Hin | []]]; [tauto|].
      injection Hin as Hin. lia.
  - eapply settled_quiet; [exact Hs | cbn; reflexivity | reflexivity
                          | reflexivity | |].
    + intros d. reflexivity.
    + intros d Hin. effect_in Hin.
  - eapply settled_quiet with (news := []);
      [exact Hs | cbn; now rewrite app_nil_r | reflexivity | reflexivity | |].
    + reflexivity.
    + intros d [].
  - eapply settled_quiet; [exact Hs | cbn; reflexivity | reflexivity
                          | reflexivity | |].
    + intros d. cbn. apply completions_deliverAll.
    + intros d Hin. effect_in Hin.
  - cbn; unfold bind, handleResolution.
    set (o := nav_historyRoutingObservable nav) in *.
    destruct (Nat.eqb g (hro_generation o)); cbn.
    + destruct (rs_isSteady state) eqn:Hsteady.
      * destruct Hs as [Honce Hwaiting Hdone Hnew]. fold o in Honce, Hwaiting,
          Hdone, Hnew.
        split; cbn.
        -- constructor.
        -- intros d [].
        -- intros d Hd _. rewrite !completions_app, completions_deliverAll.
           cbn [app].
           destruct (completions_waiting d state _ Honce) as [Hin Hout].
           destruct (in_dec Nat.eq_dec d (hro_waiting o)) as [Hd' | Hd'].
           ++ destruct (Hwaiting d Hd') as [_ ->]. rewrite (Hin Hd').
              cbn. eauto.
           ++ rewrite (Hout Hd'), app_nil_r. now apply Hdone.
        -- intros d Hd. rewrite !completions_app, completions_deliverAll.
           cbn [app].
           destruct (completions_waiting d state _ Honce) as [_ Hout].
           destruct (Hnew d Hd) as [-> Hr].
           assert (Hd' : ~ In d (hro_waiting o)).
           { intros Hin. apply Hwaiting in Hin as [Hlt _]. lia. }
           rewrite (Hout Hd'). split; [reflexivity|].
           rewrite !in_app_iff. intros [Hin | [Hin | Hin]]; [tauto | |];
             effect_in Hin.
      * eapply settled_quiet; [exact Hs | cbn; reflexivity | reflexivity
                              | reflexivity | |].
        -- intros d. rewrite app_nil_r. apply completions_deliverAll.
        -- intros d Hin. effect_in Hin.
    + eapply settled_quiet with (news := []);
        [exact Hs | cbn; now rewrite app_nil_r | reflexivity | reflexivity
        | |].
      * reflexivity.
      * intros d [].
Qed.

Lemma run_settled (events : list Event) (nav : BrowserNavigation)
    (w : World) :
  settled nav w -> settled (fst (run events nav w)) (snd (run events nav w)).
Proof.
  revert nav w; induction events as [|event rest IH]; intros nav w Hs.
  - exact Hs.
  - cbn [run]. unfold bind.
    pose proof (step_settled event nav w Hs) as Hs'.
    destruct (step event nav w) as [nav' w']. now apply IH.
Qed.

Lemma navigationAfter_settled (options : Options) (events : list Event) :
  settled (fst (navigationAfter options events))
          (snd (navigationAfter options events)).
Proof.
  unfold Navigation.navigationAfter, bind, createBrowserNavigation.
  pose proof (constructor_settled options) as Hs.
  destruct (constructor options emptyWorld) as [nav0 w0].
  now apply run_settled.
Qed.

Lemma navigationAfter_app (options : Options) (events later : list Event) :
  navigationAfter options (events ++ later)
  = run later (fst (navigationAfter options events))
              (snd (navigationAfter options events)).
Proof.
  unfold Navigation.navigationAfter, bind.
  destruct (createBrowserNavigation _ _ _ _ _ _ options emptyWorld)
    as [nav0 w0].
  apply run_app.
Qed.

Lemma faithfulHistory_prefix (options : Options)
    (events later : list Event) :
  faithfulHistory options (events ++ later) -> faithfulHistory options events.
Proof.
  unfold Navigation.faithfulHistory. rewrite faithfulRun_app. tauto.
Qed.

(** Deferred values are numbered upwards. *)
Lemma step_nextDeferred (event : Event) (nav : BrowserNavigation)
    (w : World) :
  hro_nextDeferred (nav_historyRoutingObservable nav)
  <= hro_nextDeferred (nav_historyRoutingObservable (fst (step event nav w))).
Proof.
  destruct event as [context | | observer | subscription | url | g state];
    cbn; unfold bind; cbn; try lia.
  unfold handleResolution. destruct (Nat.eqb g _); cbn; lia.
Qed.

Lemma run_nextDeferred (events : list Event) (nav : BrowserNavigation)
    (w : World) :
  hro_nextDeferred (nav_historyRoutingObservable nav)
  <= hro_nextDeferred (nav_historyRoutingObservable (fst (run events nav w))).
Proof.
  revert nav w; induction events as [|event rest IH]; intros nav w.
  - cbn. lia.
  - cbn [run]. unfold bind.
    pose proof (step_nextDeferred event nav w) as Hstep.
    destruct (step event nav w) as [nav' w']. cbn [fst] in Hstep.
    specialize (IH nav' w'). lia.
Qed.

Lemma getSteadyState_nextDeferred (nav : BrowserNavigation) (w : World) :
  hro_nextDeferred
    (nav_historyRoutingObservable (fst (step GetSteadyState nav w)))
  = S (hro_nextDeferred (nav_historyRoutingObservable nav)).
Proof. reflexivity. Qed.

(** What a call of [getSteadyState] does. *)
Lemma getSteadyState_called (nav : BrowserNavigation) (w : World) :
  let o := nav_historyRoutingObservable nav in
  let called := step GetSteadyState nav w in
  log (snd called)
  = log w
    ++ (if rs_isSteady (hro_lastState o)
        then [SteadyCompleted (hro_nextDeferred o) (hro_lastState o)]
        else [])
    ++ [SteadyStateReturned (hro_nextDeferred o)]
  /\ hro_waiting (nav_historyRoutingObservable (fst called))
     = if rs_isSteady (hro_lastState o)
       then hro_waiting o
       else hro_waiting o ++ [hro_nextDeferred o].
Proof. cbn. unfold bind. cbn. now rewrite <- app_assoc. Qed.

(** What one event does to a deferred value that waits: it goes on
    waiting, uncompleted; or the event is a steady report for the current
    request, which completes it, once, with the state reported. *)
Lemma step_waiting_deferred (event : Event) (nav : BrowserNavigation)
    (w : World) (d : nat) :
  let o := nav_historyRoutingObservable nav in
  let o' := nav_historyRoutingObservable (fst (step event nav w)) in
  settled nav w ->
  In d (hro_waiting o) ->
  exists news,
    log (snd (step event nav w)) = log w ++ news
    /\ ((In d (hro_waiting o') /\ completions d news = [])
        \/ (exists st,
              event = Resolution (hro_generation o) st
              /\ rs_isSteady st = true
              /\ hro_lastState o' = st
              /\ completions d news = [st]
              /\ ~ In d (hro_waiting o')))
    /\ (forall st,
          event = Resolution (hro_generation o) st ->
          rs_isSteady st = true ->
          completions d news = [st] /\ ~ In d (hro_waiting o')).
Proof.
  intros o o' [Honce Hwaiting _ _] Hd. fold o in Honce, Hwaiting.
  destruct (Hwaiting d Hd) as [Hlt _].
  subst o'.
  destruct event as [context | | observer | subscription | url | g state];
    cbn; unfold bind; cbn; fold o.
  - eexists. split; [reflexivity|]. split; [|discriminate].
    left. split; [exact Hd|]. cbn. apply completions_deliverAll.
  - eexists. split; [now rewrite <- app_assoc|]. split; [|discriminate].
    left. rewrite completions_app.
    destruct (rs_isSteady (hro_lastState o)); cbn.
    + split; [exact Hd|].
      destruct (Nat.eqb_spec (hro_nextDeferred o) d); [lia | reflexivity].
    + split; [|reflexivity]. apply in_app_iff. now left.
  - eexists. split; [reflexivity|]. split; [|discriminate].
    left. split; [exact Hd | reflexivity].
  - exists []. split; [now rewrite app_nil_r|]. split; [|discriminate].
    left. split; [exact Hd | reflexivity].
  - eexists. split; [reflexivity|]. split; [|discriminate].
    left. split; [exact Hd|]. cbn. apply completions_deliverAll.
  - unfold handleResolution. fold o.
    destruct (Nat.eqb_spec g (hro_generation o)) as [-> | Hne]; cbn.
    + eexists. split; [reflexivity|].
      rewrite completions_app, completions_deliverAll. cbn [app].
      destruct (rs_isSteady state) eqn:Hsteady.
      * destruct (completions_waiting d state _ Honce) as [Hin _].
        rewrite (Hin Hd). split.
        -- right. exists state. repeat split; auto.
        -- intros st [= <-] _. split; [reflexivity | auto].
      * split.
        -- left. split; [exact Hd | reflexivity].
        -- intros st [= <-] Hst. congruence.
    + exists []. split; [now rewrite app_nil_r|]. split.
      * left. split; [exact Hd | reflexivity].
      * intros st [= Hg _]. contradiction.
Qed.

(** A deferred value that was handed out and does not wait any more is
    left alone. *)
Lemma step_done_deferred (event : Event) (nav : BrowserNavigation)
    (w : World) (d : nat) :
  let o := nav_historyRoutingObservable nav in
  let o' := nav_historyRoutingObservable (fst (step event nav w)) in
  settled nav w ->
  d < hro_nextDeferred o ->
  ~ In d (hro_waiting o) ->
  exists news,
    log (snd (step event nav w)) = log w ++ news
    /\ ~ In d (hro_waiting o')
    /\ completions d news = [].
Proof.
  intros o o' [Honce _ _ _] Hlt Hd. fold o in Honce. subst o'.
  destruct event as [context | | observer | subscription | url | g state];
    cbn; unfold bind; cbn; fold o.
  - eexists. split; [reflexivity|]. split; [exact Hd|].
    cbn. apply completions_deliverAll.
  - eexists. split; [now rewrite <- app_assoc|].
    rewrite completions_app.
    destruct (rs_isSteady (hro_lastState o)); cbn.
    + split; [exact Hd|].
      destruct (Nat.eqb_spec (hro_nextDeferred o) d); [lia | reflexivity].
    + split; [|reflexivity]. rewrite in_app_iff. cbn. intros [H | [H | []]];
        [tauto | lia].
  - eexists. split; [reflexivity|]. split; [exact Hd | reflexivity].
  - exists []. split; [now rewrite app_nil_r|].
    split; [exact Hd | reflexivity].
  - eexists. split; [reflexivity|]. split; [exact Hd|].
    cbn. apply completions_deliverAll.
  - unfold handleResolution. fold o.
    destruct (Nat.eqb g (hro_generation o)); cbn.
    + eexists. split; [reflexivity|].
      rewrite completions_app, completions_deliverAll. cbn [app].
      destruct (rs_isSteady state).
      * destruct (completions_waiting d state _ Honce) as [_ Hout].
        rewrite (Hout Hd). split; [intros [] | reflexivity].
      * split; [exact Hd | reflexivity].
    + exists []. split; [now rewrite app_nil_r|].
      split; [exact Hd | reflexivity].
Qed.


End Facts.

(** *** The example *)

(** C2 as stated fails where the contexts differ: the option contexts are
    [0] and then [1], the replacement Router is bound to the very Resolver
    of the first one, and it has neither the root junction nor the root
    path that were supplied. *)
Lemma setContext_other_context_same_resolver :
  let nav := fst (exampleNavigationAfter []) in
  let nav' := fst (exampleNavigationAfter [SetContext 1]) in
  rootContext (nav_router nav) = Some 0
  /\ rootContext (nav_router nav') = Some 1
  /\ router_resolver (nav_router nav') = router_resolver (nav_router nav)
  /\ rootJunction (nav_router nav) = Some "root"
  /\ rootJunction (nav_router nav') = None
  /\ rootPath (nav_router nav) = Some "/app"
  /\ rootPath (nav_router nav') = None.
Proof. repeat split. Qed.

(** In the example every report of the router is one for a request made. *)
Lemma exampleSuperseded_faithful :
  faithfulHistory (fun history => history) (pageURL "/") exampleOptions
    (exampleSuperseded ++ [Resolution 2 (steadyAt "/b")]).
Proof.
  unfold Navigation.faithfulHistory. cbn.
  repeat split; eexists; cbn; eauto 10.
Qed.


End NavigationFacts.



(* ===================================================================== *)
(** ** BrowserNavigation: subscribers and the router they are shown *)
(* ===================================================================== *)

Module SubscriptionFacts.
Import URLTools Navigation NavigationFacts.

Local Open Scope list_scope.
Local Open Scope nat_scope.

Section Facts.

Variables Context Junction Route History : Type.
Variable location : History -> URLDescriptor.
Variable createBrowserHistory : History.

Local Abbreviation Event := (Event Context Route).
Local Abbreviation World := (World Context Junction Route History).
Local Abbreviation Observer := (Observer Context Junction History).
Local Abbreviation BrowserNavigation :=
  (BrowserNavigation Context Junction Route History).
Local Abbreviation Options :=
  (BrowserNavigationOptions Context Junction History).
Local Abbreviation navigationAfter :=
  (navigationAfter location createBrowserHistory
     (Context := Context) (Junction := Junction) (Route := Route)).
Local Abbreviation navSubscribe :=
  (navSubscribe Context Junction Route History).
Local Abbreviation getSnapshot :=
  (getSnapshot Context Junction Route History).
Local Abbreviation mapObserverNext :=
  (mapObserverNext Context Junction Route History).
Local Abbreviation ns_router := (ns_router Context Junction Route History).

(** A subscription stays on the observable's list until it is ended. *)
Lemma step_keeps_observer (event : Event) (nav : BrowserNavigation)
    (w : World) (subscription : nat) (observer : Observer) :
  event <> Unsubscribe subscription ->
  In (subscription, observer)
     (hro_observers (nav_historyRoutingObservable nav)) ->
  In (subscription, observer)
     (hro_observers (nav_historyRoutingObservable (fst (step event nav w)))).
Proof.
  intros Hevent Hin.
  destruct event as [context | | ob | s | url | g state];
    cbn; unfold bind; cbn; try exact Hin.
  - apply in_app_iff. now left.
  - apply list_elem_of_In, list_elem_of_filter. split.
    + cbn. apply negb_prop_intro. intros H. apply Is_true_eq_true in H.
      apply Nat.eqb_eq in H. congruence.
    + now apply list_elem_of_In.
  - unfold handleResolution. now destruct (Nat.eqb g _).
Qed.

Lemma run_keeps_observer (events : list Event) (nav : BrowserNavigation)
    (w : World) (subscription : nat) (observer : Observer) :
  (forall s, In (Unsubscribe s) events -> s <> subscription) ->
  In (subscription, observer)
     (hro_observers (nav_historyRoutingObservable nav)) ->
  In (subscription, observer)
     (hro_observers
        (nav_historyRoutingObservable (fst (run events nav w)))).
Proof.
  revert nav w; induction events as [|event rest IH]; intros nav w Hnot Hin.
  - exact Hin.
  - cbn [run]. unfold bind.
    assert (Hstep := step_keeps_observer event nav w subscription observer).
    destruct (step event nav w) as [nav' w']. cbn [fst] in Hstep.
    apply IH.
    + intros s Hs. apply Hnot. now right.
    + apply Hstep; [|exact Hin].
      intros ->. apply (Hnot subscription); [now left | reflexivity].
Qed.

(** What was logged stays logged. *)
Lemma step_keeps_log (event : Event) (nav : BrowserNavigation) (w : World)
    (effect : Effect Context Junction Route History) :
  In effect (log w) -> In effect (log (snd (step event nav w))).
Proof.
  intros Hin. destruct (step_news _ _ _ _ event nav w) as (news & -> & _).
  apply in_app_iff. now left.
Qed.

Lemma run_keeps_log (events : list Event) (nav : BrowserNavigation)
    (w : World) (effect : Effect Context Junction Route History) :
  In effect (log w) -> In effect (log (snd (run events nav w))).
Proof.
  revert nav w; induction events as [|event rest IH]; intros nav w Hin.
  - exact Hin.
  - cbn [run]. unfold bind.
    assert (Hstep := step_keeps_log event nav w effect Hin).
    destruct (step event nav w) as [nav' w']. now apply IH.
Qed.

(** Routers only get younger. *)
Lemma step_router_ref (event : Event) (nav : BrowserNavigation) (w : World)
    (k : nat) :
  bound nav w ->
  k <= router_ref (nav_router nav) ->
  k <= router_ref (nav_router (fst (step event nav w))).
Proof.
  intros (_ & Hfresh & _) Hk.
  destruct event as [context | | ob | s | url | g state];
    cbn; unfold bind; cbn; try exact Hk.
  - lia.
  - unfold handleResolution. now destruct (Nat.eqb g _).
Qed.

Lemma run_router_ref (events : list Event) (nav : BrowserNavigation)
    (w : World) (k : nat) :
  bound nav w ->
  k <= router_ref (nav_router nav) ->
  k <= router_ref (nav_router (fst (run events nav w))).
Proof.
  revert nav w; induction events as [|event rest IH]; intros nav w Hb Hk.
  - exact Hk.
  - cbn [run]. unfold bind.
    assert (Hb' := step_bound _ _ _ _ event nav w Hb).
    assert (Hk' := step_router_ref event nav w k Hb Hk).
    destruct (step event nav w) as [nav' w']. now apply IH.
Qed.

(** A subscriber is shown the router of the moment it subscribed.  After
    [subscribe], a context change and whatever follows short of ending the
    subscription, the observable still holds the [MapObserver] built at
    subscription, with the history and the router of that moment; the busy
    state of the re-resolution was delivered to it; every state it gets is
    passed on with that router, which is no longer the navigation's
    router, the one [getSnapshot] shows. *)
Theorem subscriber_keeps_first_router (options : Options)
    (events later : list Event) (observer : nat) (context : Context) :
  let nav := fst (navigationAfter options events) in
  let w := snd (navigationAfter options events) in
  let subscribed := navSubscribe observer nav w in
  let subscription := fst (fst subscribed) in
  let changed :=
    step (SetContext context) (snd (fst subscribed)) (snd subscribed) in
  let final := run later (fst changed) (snd changed) in
  let mapObserver := MapObserver observer (nav_history nav) (nav_router nav) in
  (forall s, In (Unsubscribe s) later -> s <> subscription) ->
  In (subscription, mapObserver)
     (hro_observers (nav_historyRoutingObservable (fst final)))
  /\ In (Delivered mapObserver
           (mkRoutingState
              (hro_url (nav_historyRoutingObservable nav)) [] false None))
        (log (snd final))
  /\ (forall state,
        ns_router (mapObserverNext (nav_history nav) (nav_router nav) state)
        = nav_router nav)
  /\ ns_router (getSnapshot (fst final)) = nav_router (fst final)
  /\ router_ref (nav_router nav) < router_ref (nav_router (fst final)).
Proof.
  intros nav w subscribed subscription changed final mapObserver Hnot.
  destruct (navigationAfter_bound _ _ _ _ location createBrowserHistory
              options events) as (Hres & Hfresh & Hrouter).
  fold nav in Hres, Hfresh, Hrouter. fold w in Hfresh.
  assert (Hchanged_in :
    In (subscription, mapObserver)
       (hro_observers (nav_historyRoutingObservable (fst changed)))).
  { subst changed subscribed subscription mapObserver. cbn.
    apply in_app_iff. right. now left. }
  assert (Hchanged_log :
    In (Delivered mapObserver
          (mkRoutingState (hro_url (nav_historyRoutingObservable nav)) []
             false None))
       (log (snd changed))).
  { subst changed subscribed mapObserver. cbn.
    apply in_app_iff. right. right.
    unfold deliverAll. apply in_map_iff.
    eexists (_, _). split; [reflexivity|].
    apply in_app_iff. right. now left. }
  assert (Hchanged_bound : bound (fst changed) (snd changed)).
  { subst changed subscribed. cbn. unfold bound. cbn.
    repeat split; (assumption || lia). }
  assert (Hchanged_ref :
    S (router_ref (nav_router nav)) <= router_ref (nav_router (fst changed))).
  { subst changed subscribed. cbn. lia. }
  split; [|split; [|split; [|split]]].
  - subst final. now apply run_keeps_observer.
  - subst final. now apply run_keeps_log.
  - reflexivity.
  - reflexivity.
  - subst final.
    pose proof (run_router_ref later (fst changed) (snd changed) _
                  Hchanged_bound Hchanged_ref).
    lia.
Qed.

End Facts.

(** After the example's start an observer subscribes and the context
    changes. *)
Lemma subscriber_keeps_first_router_witness :
  let nav := fst (exampleNavigationAfter []) in
  let final :=
    fst (exampleNavigationAfter [Subscribe 5; SetContext 1]) in
  In (1, MapObserver 5 (nav_history nav) (nav_router nav))
     (hro_observers (nav_historyRoutingObservable final))
  /\ router_ref (nav_router nav) < router_ref (nav_router final).
Proof.
  intros nav final.
  destruct (subscriber_keeps_first_router nat string string URLDescriptor
              (fun history => history) (pageURL "/") exampleOptions
              [] [] 5 1) as (Hin & _ & _ & _ & Href).
  - intros s [].
  - split; [exact Hin | exact Href].
Defined.

End SubscriptionFacts.

(* ===================================================================== *)
(** ** Resolver: one loader call per key *)
(* ===================================================================== *)

Module ResolverFacts.
Import Resolver.

Local Open Scope list_scope.
Local Open Scope nat_scope.

Section Facts.

Variables Value Error : Type.

Local Abbreviation Resolver := (Resolver Value Error).
Local Abbreviation Entry := (Entry Value Error).
Local Abbreviation Operation := (Operation Value Error).

Lemma wellFormed_new : wellFormed (newResolver : Resolver).
Proof. split; cbn; intros *; rewrite lookup_empty; discriminate. Qed.

Lemma wellFormed_resolve (router : nat) (path : string)
    (options : ResolveOptions) (r : Resolver) :
  wellFormed r -> wellFormed (snd (resolve router path options r)).
Proof.
  intros [Hbound Hinj]. unfold resolve.
  destruct (table r !! cacheKey path options) eqn:E; cbn [snd].
  - now split.
  - split; cbn.
    + intros key handle. rewrite lookup_insert. case_decide.
      * intros [= <-]. lia.
      * intros H'. apply Hbound in H'. lia.
    + intros key1 key2 handle. rewrite !lookup_insert.
      repeat case_decide; subst.
      * reflexivity.
      * intros [= <-] H'. apply Hbound in H'. lia.
      * intros H' [= <-]. apply Hbound in H'. lia.
      * apply Hinj.
Qed.

Lemma wellFormed_settle (key : Key) (outcome : Entry) (r : Resolver) :
  wellFormed r -> wellFormed (settle key outcome r).
Proof.
  intros Hwf. unfold settle.
  destruct (table r !! key); [|exact Hwf].
  destruct (entries r !! n) as [[]|]; try exact Hwf.
  destruct Hwf as [Hbound Hinj]. now split.
Qed.

Lemma wellFormed_run (operations : list Operation) (r : Resolver) :
  wellFormed r -> wellFormed (fst (run operations r)).
Proof.
  revert r;
    induction operations as [|[router path options | key outcome] rest IH];
    intros r Hwf; cbn [run].
  - exact Hwf.
  - pose proof (wellFormed_resolve router path options r Hwf) as Hwf'.
    destruct (resolve router path options r) as [handle r'].
    specialize (IH r' Hwf'). destruct (run rest r'). exact IH.
  - apply IH. now apply wellFormed_settle.
Qed.

Lemma invocationCount_app (key : Key) (r : Resolver) (keys : list Key) :
  length (filter (fun k => k = key) (invocations r ++ keys))
  = invocationCount key r + length (filter (fun k => k = key) keys).
Proof. unfold invocationCount. now rewrite filter_app, length_app. Qed.

(** Once a request is on the table and pending, operations other than
    the completion of its own loader leave it there, pending, answer every
    call for its key with its handle, and invoke no loader for its key. *)
Lemma run_known (key : Key) (handle : nat) (operations : list Operation)
    (r : Resolver) :
  wellFormed r ->
  table r !! key = Some handle ->
  entries r !! handle = Some Pending ->
  unsettled key operations ->
  table (fst (run operations r)) !! key = Some handle
  /\ entries (fst (run operations r)) !! handle = Some Pending
  /\ invocationCount key (fst (run operations r)) = invocationCount key r
  /\ forall a, In a (snd (run operations r)) ->
       answer_key a = key -> answer_handle a = handle.
Proof.
  revert r;
    induction operations as [|[router path options | key' outcome] rest IH];
    intros r Hwf Htable Hentry Hunsettled; cbn [run].
  - cbn. repeat split; auto. intros a [].
  - assert (Hrest : unsettled key rest).
    { intros o H. apply (Hunsettled o). now right. }
    pose proof (wellFormed_resolve router path options r Hwf) as Hwf'.
    unfold resolve in *.
    destruct (table r !! cacheKey path options) as [h |] eqn:E; cbn [snd] in *.
    + destruct (IH r Hwf Htable Hentry Hrest) as (H1 & H2 & H3 & H4).
      destruct (run rest r) as [final answers]. cbn [fst snd] in *.
      repeat split; auto.
      intros a [<- | Ha]; [|now apply H4].
      cbn. intros Hk. rewrite Hk in E. congruence.
    + assert (Hne : cacheKey path options <> key) by congruence.
      assert (Hfresh : handle <> nextHandle r).
      { destruct Hwf as [Hbound _]. apply Hbound in Htable. lia. }
      match goal with
      | |- context [run rest ?r'] =>
          destruct (IH r' Hwf') as (H1 & H2 & H3 & H4);
            [ cbn; now rewrite lookup_insert_ne
            | cbn; now rewrite lookup_insert_ne
            | exact Hrest
            | destruct (run rest r') as [final answers] ]
      end.
      cbn [fst snd] in *. repeat split; auto.
      * rewrite H3. unfold invocationCount at 1. cbn [invocations].
        rewrite invocationCount_app. cbn.
        rewrite decide_False by exact Hne. cbn. lia.
      * intros a [<- | Ha]; [|now apply H4]. cbn. congruence.
  - assert (Hrest : unsettled key rest).
    { intros o H. apply (Hunsettled o). now right. }
    assert (Hne : key' <> key).
    { intros ->. apply (Hunsettled outcome). now left. }
    pose proof (wellFormed_settle key' outcome r Hwf) as Hwf'.
    assert (Hsame : table (settle key' outcome r) = table r
                    /\ entries (settle key' outcome r) !! handle = Some Pending
                    /\ invocations (settle key' outcome r) = invocations r).
    { unfold settle. destruct (table r !! key') as [h |] eqn:E; [|auto].
      destruct (entries r !! h) as [[] |]; auto.
      cbn. repeat split; auto.
      rewrite lookup_insert_ne; [exact Hentry|].
      intros ->. destruct Hwf as [_ Hinj].
      apply Hne. exact (Hinj _ _ _ E Htable). }
    destruct Hsame as (Ht & He & Hi).
    destruct (IH (settle key' outcome r) Hwf') as (H1 & H2 & H3 & H4); auto.
    + now rewrite Ht.
    + repeat split; auto. rewrite H3. unfold invocationCount. now rewrite Hi.
Qed.

(** C1: take a resolver after any history and a key it does not know.
    The first [resolve] for the key and every further call for it that is
    issued before the key's loader completes, by whichever router and
    mixed with whatever other requests and completions, together invoke the
    loader for that key exactly once; all of them are answered with one
    and the same handle, which is still pending; and once the loader
    completes, that handle shows its outcome, the same to every caller. *)
Theorem resolve_coalesces_concurrent_calls
    (history calls : list Operation) (router : nat) (path : string)
    (options : ResolveOptions) :
  let key := cacheKey path options in
  let r0 := fst (run history newResolver) in
  table r0 !! key = None ->
  unsettled key calls ->
  let first := resolve router path options r0 in
  let final := run calls (snd first) in
  invocationCount key (fst final) = S (invocationCount key r0)
  /\ (forall a, In a (snd final) ->
      answer_key a = key -> answer_handle a = fst first)
  /\ received (fst final) (fst first) = Some Pending
  /\ (forall outcome,
        received (settle key outcome (fst final)) (fst first) = Some outcome).
Proof.
  intros key r0 Hnew Hunsettled first final.
  assert (Hwf0 : wellFormed r0) by (apply wellFormed_run, wellFormed_new).
  pose proof (wellFormed_resolve router path options r0 Hwf0) as Hwf1.
  fold first in Hwf1.
  assert (Hfirst : first
    = (nextHandle r0,
       mkResolver Value Error
         (<[key := nextHandle r0]> (table r0))
         (<[nextHandle r0 := Pending]> (entries r0))
         (S (nextHandle r0))
         (invocations r0 ++ [key]))).
  { subst first. unfold resolve. fold key. now rewrite Hnew. }
  destruct (run_known key (fst first) calls (snd first) Hwf1)
    as (Htable & Hentry & Hcount & Hanswers).
  - rewrite Hfirst. cbn. apply lookup_insert_eq.
  - rewrite Hfirst. cbn. apply lookup_insert_eq.
  - exact Hunsettled.
  - fold final in Htable, Hentry, Hcount, Hanswers.
    split; [|split; [|split]].
    + rewrite Hcount, Hfirst. unfold invocationCount at 1.
      cbn [snd invocations].
      rewrite invocationCount_app. cbn.
      rewrite decide_True by reflexivity. cbn. lia.
    + exact Hanswers.
    + exact Hentry.
    + intros outcome. unfold received, settle.
      rewrite Htable, Hentry. cbn. apply lookup_insert_eq.
Qed.

End Facts.

(** The C1 theorem at work: two routers ask for [/a/b] with content, a
    request for another path and its completion come in between. *)
Lemma resolve_coalesces_concurrent_calls_witness :
  let calls : list (Operation nat string) :=
    [Resolve 2 "/a/b" (mkResolveOptions true);
     Resolve 1 "/other" (mkResolveOptions true);
     Settle ("/other", true) (Fulfilled 7);
     Resolve 1 "/a/b" (mkResolveOptions true)] in
  let first := resolve 1 "/a/b" (mkResolveOptions true) newResolver in
  let final := run calls (snd first) in
  invocationCount ("/a/b", true) (fst final) = 1
  /\ map answer_handle
       (filter (fun a => answer_key a = ("/a/b", true)) (snd final))
     = [fst first; fst first]
  /\ received (settle ("/a/b", true) (Fulfilled 3) (fst final)) (fst first)
     = Some (Fulfilled 3).
Proof.
  intros calls first final.
  assert (Hunsettled : unsettled ("/a/b", true) calls).
  { intros outcome H. cbn in H.
    repeat (destruct H as [H | H]; [discriminate|]). destruct H. }
  destruct (resolve_coalesces_concurrent_calls nat string [] calls 1 "/a/b"
              (mkResolveOptions true) eq_refl Hunsettled)
    as (Hcount & _ & _ & Hsettled).
  split; [exact Hcount|]. split; [reflexivity|]. apply Hsettled.
Defined.

End ResolverFacts.

(* ===================================================================== *)
(** ** RouterEnv: what a loader is given, and what the blog reads of it *)
(* ===================================================================== *)

Module EnvFacts.
Import JSString Env BlogPages.

Local Open Scope list_scope.
Local Open Scope nat_scope.

Section Facts.

Variables Context HTTPMethod Router Route SiteMap : Type.
Context `{RouterInterface Router Route SiteMap}.
Variable join : list string -> string.
Variable PostPage : Type.

Local Abbreviation RouterEnv := (RouterEnv Context HTTPMethod Router).
Local Abbreviation EnvObject := (EnvObject Context HTTPMethod Router).

(** The loader of an index page reads [pathname] and [router] of its
    environment, and nothing else. *)
Lemma indexPageLoader_reads (env env' : RouterEnv)
    (chunkCount i : nat) (chunk : list (Post PostPage)) :
  pathname env' = pathname env ->
  router env' = router env ->
  indexPageLoader join chunkCount i chunk env'
  = indexPageLoader join chunkCount i chunk env.
Proof.
  intros Hp Hr. unfold indexPageLoader, Env.blogPathname. now rewrite Hp, Hr.
Qed.

(** [getContent] returns exactly when the object has a [url]. *)
Lemma getContent_returns_iff (object : EnvObject) :
  (exists element, getContent object = Returns element)
  <-> is_Some (env_url object).
Proof.
  unfold getContent. destruct (env_url object) as [url|].
  - split; eauto.
  - split; [intros [element Hr]; discriminate | intros [url Hu]; discriminate].
Qed.


End Facts.

(** The loader of the first index page, for two posts under [/blog]. *)
Example indexPageLoader_first_page :
  map link_href
    (posts (page_content
       (indexPageLoader (String.concat "/") 2 0
          [mkPost "hello" tt; mkPost "second" tt]
          (mkRouterEnv tt tt ∅ "/blog" ∅ tt ""))))
  = ["/blog/posts/hello"; "/blog/posts/second"].
Proof. reflexivity. Qed.

(** [getContent] on the environment of a request for [/blog/page/2]: a
    [TypeError] with the declared fields alone, the layout of an index page
    once [url] and [mountname] are there as well. *)
Example getContent_example :
  getContent (onlyDeclared exampleBlogEnv)
  = Throws (ReadOfUndefined "pathname")
  /\ getContent exampleEnvObject
     = Returns (mkBlogContextProvider "/blog" "create-react-blog" true).
Proof. split; reflexivity. Qed.

End EnvFacts.

(* ===================================================================== *)
(** ** The blog's switch of pages *)
(* ===================================================================== *)

Module BlogPagesFacts.
Import Env BlogPages.

Local Open Scope list_scope.
Local Open Scope nat_scope.

Section ObjectFacts.

Context {V : Type}.
Implicit Types (obj target source : list (string * V)).

Lemma objGet_objSet key key' (value : V) obj :
  objGet key (objSet key' value obj)
  = if String.eqb key' key then Some value else objGet key obj.
Proof.
  induction obj as [|[k v] obj IH]; cbn.
  - reflexivity.
  - destruct (String.eqb k key') eqn:Hk; cbn.
    + apply String.eqb_eq in Hk. subst k.
      destruct (String.eqb key' key); reflexivity.
    + destruct (String.eqb k key) eqn:Hk'.
      * apply String.eqb_eq in Hk'. subst k.
        rewrite String.eqb_sym in Hk. now rewrite Hk.
      * exact IH.
Qed.

Lemma objSet_fresh key (value : V) obj :
  ~ In key (map fst obj) -> objSet key value obj = obj ++ [(key, value)].
Proof.
  induction obj as [|[k v] obj IH]; cbn; intros Hfresh.
  - reflexivity.
  - destruct (String.eqb k key) eqn:Hk.
    + apply String.eqb_eq in Hk. tauto.
    + f_equal. apply IH. tauto.
Qed.

Lemma objSpread_fresh source : forall target,
  List.NoDup (map fst (target ++ source)) ->
  objSpread target source = target ++ source.
Proof.
  unfold objSpread.
  induction source as [|[k v] source IH]; intros target Hnodup; cbn.
  - now rewrite app_nil_r.
  - assert (Hfresh : ~ In k (map fst target)).
    { rewrite map_app in Hnodup. cbn in Hnodup.
      apply List.NoDup_remove_2 in Hnodup.
      intros Hin. apply Hnodup, in_or_app. now left. }
    rewrite objSet_fresh by exact Hfresh.
    rewrite IH; rewrite <- app_assoc; [reflexivity | exact Hnodup].
Qed.

Lemma objSet_keys key (value : V) obj :
  List.NoDup (map fst obj) -> List.NoDup (map fst (objSet key value obj)).
Proof.
  intros Hnodup.
  destruct (in_dec string_dec key (map fst obj)) as [Hin|Hout].
  - assert (Hsame : map fst (objSet key value obj) = map fst obj);
      [|now rewrite Hsame].
    clear Hnodup. induction obj as [|[k v] obj IH]; cbn in *; [tauto|].
    destruct (String.eqb k key) eqn:Hk; cbn; [reflexivity|].
    f_equal. apply IH. destruct Hin as [->|Hin]; [|exact Hin].
    now rewrite String.eqb_refl in Hk.
  - rewrite objSet_fresh, map_app by exact Hout. cbn.
    apply List.NoDup_app; [exact Hnodup| |].
    + repeat constructor. now intros [].
    + intros k Hin [<-|[]]. tauto.
Qed.

Lemma objSpread_keys source : forall target,
  List.NoDup (map fst target) ->
  List.NoDup (map fst (objSpread target source)).
Proof.
  unfold objSpread.
  induction source as [|[k v] source IH]; intros target Hnodup; cbn.
  - exact Hnodup.
  - apply IH, objSet_keys, Hnodup.
Qed.

(** Reading a property of a spread: the last of the source's values for
    the key, and the target's value when the source has none. *)
Lemma objGet_objSpread key source : forall target,
  objGet key (objSpread target source)
  = match last (List.filter (fun entry => String.eqb (fst entry) key) source)
    with
    | Some entry => Some (snd entry)
    | None => objGet key target
    end.
Proof.
  unfold objSpread.
  induction source as [|[k v] source IH]; intros target; cbn.
  - reflexivity.
  - rewrite IH, objGet_objSet.
    destruct (String.eqb k key) eqn:Hk; cbn [fst].
    + destruct (List.filter _ source) as [|e l] eqn:Hl; [reflexivity|].
      change (last ((k, v) :: e :: l)) with (last (e :: l)).
      destruct (last (e :: l)) eqn:Hlast; [reflexivity|].
      now apply last_None in Hlast.
    + reflexivity.
Qed.

Lemma objGet_lookup obj : forall i key (value : V),
  List.NoDup (map fst obj) -> obj !! i = Some (key, value) ->
  objGet key obj = Some value.
Proof.
  induction obj as [|[k v] obj IH]; intros i key value Hnodup Hi.
  - destruct i; discriminate.
  - cbn. destruct i as [|i]; cbn in Hi.
    + injection Hi as -> ->. now rewrite String.eqb_refl.
    + destruct (String.eqb k key) eqn:Hk.
      * apply String.eqb_eq in Hk. subst k.
        apply List.NoDup_cons_iff in Hnodup as [Hout _].
        exfalso. apply Hout.
        apply (in_map fst) with (x := (key, value)).
        apply list_elem_of_In. now apply list_elem_of_lookup_2 in Hi.
      * apply List.NoDup_cons_iff in Hnodup as [_ Hnodup].
        now apply IH with (i := i).
Qed.

End ObjectFacts.

Lemma chunkFrom_one {A : Type} (fuel : nat) : forall l : list A,
  length l <= fuel -> chunkFrom fuel 1 l = map (fun x => [x]) l.
Proof.
  induction fuel as [|fuel IH]; intros [|x l] Hlen; cbn in *;
    try reflexivity; try lia.
  f_equal. apply IH. lia.
Qed.

Lemma chunk_one {A : Type} (l : list A) :
  chunk l 1 = map (fun x => [x]) l.
Proof. unfold chunk. cbn. now apply chunkFrom_one. Qed.

Lemma indexPagePath_inj i j : indexPagePath i = indexPagePath j -> i = j.
Proof.
  unfold indexPagePath. intros Heq.
  assert (Hpretty : pretty (i + 1) = pretty (j + 1)).
  { change (String "/" (pretty (i + 1)) = String "/" (pretty (j + 1)))
      in Heq.
    now injection Heq. }
  apply pretty_nat_inj in Hpretty. lia.
Qed.

Section PagesFacts.

Variables Context HTTPMethod Router Route SiteMap : Type.
Context `{RouterInterface Router Route SiteMap}.
Variable join : list string -> string.
Variable PostPage : Type.

Local Abbreviation Post := (Post PostPage).

Local Abbreviation Entry :=
  (Entry Context HTTPMethod Router Route SiteMap PostPage).

(** The pair of the index page that shows [post] as the [i]-th of [count]
    pages. *)
Local Abbreviation pagePair := (fun (count i : nat) (post : Post) =>
  (indexPagePath i, LoaderEntry (indexPageLoader join count i [post]))
  : string * Entry).

Lemma chunkPagePairs_one posts :
  chunkPagePairs join posts = imap (pagePair (length posts)) posts.
Proof.
  unfold chunkPagePairs, chunks, INDEX_PAGE_SIZE.
  rewrite chunk_one, imap_fmap, length_map. reflexivity.
Qed.

Lemma pagePairs_keys count (posts : list Post) : forall start,
  map fst (imap (fun i => pagePair count (start + i)) posts)
  = map indexPagePath (seq start (length posts)).
Proof.
  induction posts as [|post posts IH]; intros start; cbn.
  - reflexivity.
  - rewrite Nat.add_0_r. f_equal.
    rewrite <- IH. f_equal. apply imap_ext. intros i x _. cbn.
    now rewrite Nat.add_succ_r.
Qed.

Lemma indexPagePaths_NoDup start len :
  List.NoDup (map indexPagePath (seq start len)).
Proof.
  apply Finite.Injective_map_NoDup.
  - intros i j. apply indexPagePath_inj.
  - apply List.seq_NoDup.
Qed.

Local Abbreviation postPair := (fun post : Post =>
  (String "/" (slug post), PostEntry (getPage post)) : string * Entry).

(** The paths of the ['/page'] switch and the whole table of paths, when
    there is a first post. *)
Local Abbreviation pagePathsOf := (fun rest : list Post =>
  ("/1", RedirectEntry (firstPageRedirect join))
  :: imap (fun i => pagePair (S (length rest)) (1 + i)) rest).

Lemma pagePathsOf_keys rest :
  map fst (pagePathsOf rest)
  = map indexPagePath (seq 0 (S (length rest))).
Proof.
  cbn [map fst]. rewrite (pagePairs_keys (S (length rest)) rest 1).
  reflexivity.
Qed.

Lemma pagesSwitchPaths_cons first rest :
  pagesSwitchPaths join (first :: rest)
  = Some
      [("/", LoaderEntry
               (indexPageLoader join (S (length rest)) 0 [first]));
       ("/page", SwitchEntry None (pagePathsOf rest));
       ("/posts",
        SwitchEntry (Some BlogPostLayout)
          (fromPairs (map postPair (first :: rest))));
       ("/tags", ImportEntry "./tags");
       ("/about", ImportEntry "./about");
       ("/rss", RssEntry rssContent)].
Proof.
  unfold pagesSwitchPaths. rewrite chunkPagePairs_one.
  cbn [imap length snd]. unfold fromPairs at 1.
  assert (Hkeys : List.NoDup (map fst (pagePathsOf rest))).
  { rewrite pagePathsOf_keys. apply indexPagePaths_NoDup. }
  rewrite (objSpread_fresh _ [])
    by (cbn [app]; now apply List.NoDup_cons_iff in Hkeys).
  cbn [app]. rewrite objSpread_fresh by exact Hkeys.
  reflexivity.
Qed.

(** The module cannot be loaded without a post: taking the first index
    page off [chunkPagePairs] fails exactly when there is no post. *)
Theorem pagesSwitch_needs_a_post (posts : list Post) :
  pagesSwitchPaths join posts = @None (list (string * Entry))
  <-> posts = [].
Proof.
  destruct posts as [|first rest].
  - split; reflexivity.
  - rewrite pagesSwitchPaths_cons. split; discriminate.
Qed.

(** With one post per index page: the root path is the index page of the
    first post; the ['/page'] switch lists ['/1'] to ['/n'] for [n] posts,
    in this order and each once; ['/1'] is the redirect to the root, which
    no index page overrides; and ['/k+1'] is the index page of the post at
    position [k], for every later post. *)
Theorem pagesSwitch_index_pages (posts : list Post)
    (paths : list (string * Entry)) :
  pagesSwitchPaths join posts = Some paths ->
  exists pagePaths,
    objGet "/page" paths = Some (SwitchEntry None pagePaths) /\
    map fst pagePaths = map indexPagePath (seq 0 (length posts)) /\
    objGet "/1" pagePaths = Some (RedirectEntry (firstPageRedirect join)) /\
    (forall post, posts !! 0 = Some post ->
       objGet "/" paths
       = Some (LoaderEntry
                 (indexPageLoader join (length posts) 0 [post]))) /\
    (forall k post, posts !! S k = Some post ->
       objGet (indexPagePath (S k)) pagePaths
       = Some (LoaderEntry
                 (indexPageLoader join (length posts) (S k) [post]))).
Proof.
  destruct posts as [|first rest]; [discriminate|].
  rewrite pagesSwitchPaths_cons. intros [= <-].
  exists (pagePathsOf rest).
  split; [reflexivity|]. split; [apply pagePathsOf_keys|].
  split; [reflexivity|]. split.
  - intros post [= <-]. reflexivity.
  - intros k post Hk. apply objGet_lookup with (i := S k).
    + rewrite pagePathsOf_keys. apply indexPagePaths_NoDup.
    + rewrite lookup_cons, list_lookup_imap.
      rewrite lookup_cons in Hk. rewrite Hk. reflexivity.
Qed.

(** The ['/posts'] switch lists each slug once, and under a slug the page
    of the last post that has it; a slug of no post is not listed. *)
Theorem pagesSwitch_posts_by_slug (posts : list Post)
    (paths : list (string * Entry)) :
  pagesSwitchPaths join posts = Some paths ->
  exists postPaths,
    objGet "/posts" paths
    = Some (SwitchEntry (Some BlogPostLayout) postPaths) /\
    List.NoDup (map fst postPaths) /\
    forall s,
      objGet (String "/" s) postPaths
      = option_map (fun post => PostEntry (getPage post))
          (last (List.filter (fun post => String.eqb (slug post) s) posts)).
Proof.
  destruct posts as [|first rest]; [discriminate|].
  rewrite pagesSwitchPaths_cons. intros [= <-].
  eexists. split; [reflexivity|]. split.
  - apply objSpread_keys. constructor.
  - intros s. unfold fromPairs. rewrite objGet_objSpread.
    assert (Hfilter : forall posts,
      List.filter (fun entry : string * Entry =>
                     String.eqb (fst entry) (String "/" s))
        (map postPair posts)
      = map postPair
          (List.filter (fun post => String.eqb (slug post) s) posts)).
    { intros l. induction l as [|post l IH]; [reflexivity|].
      cbn [map List.filter fst]. cbn [String.eqb]. rewrite Ascii.eqb_refl.
      destruct (String.eqb (slug post) s); cbn [map]; now rewrite IH. }
    specialize (Hfilter (first :: rest)). cbn [map] in Hfilter.
    rewrite Hfilter.
    change (map postPair) with (fmap (M := list) postPair).
    rewrite fmap_last.
    destruct (last _); reflexivity.
Qed.

(** An index page after the first, under ['/page/k+2']: it shows page
    number [k+2] of as many pages as there are posts, its title ends in
    ["page k+1"], and it links its post under the blog's root, two levels
    above its own pathname, resolved without content. *)
Theorem pagesSwitch_later_index_page (posts : list Post)
    (paths : list (string * Entry)) (k : nat) (post : Post)
    (env : RouterEnv Context HTTPMethod Router) :
  pagesSwitchPaths join posts = Some paths ->
  posts !! S k = Some post ->
  exists pagePaths load,
    objGet "/page" paths = Some (SwitchEntry None pagePaths) /\
    objGet (String "/" (pretty (k + 2))) pagePaths
    = Some (LoaderEntry load) /\
    page_title (load env)
    = (BLOG_TITLE ++ " – page " ++ pretty (k + 1))%string /\
    pageNumber (page_content (load env)) = k + 2 /\
    pageCount (page_content (load env)) = length posts /\
    let href := join [join [pathname env; "../.."]; "posts"; slug post] in
    Env.posts (page_content (load env))
    = [mkPostLink href
         (resolve (router env) href (mkRouterResolveOptions false))].
Proof.
  destruct posts as [|first rest]; [discriminate|].
  rewrite pagesSwitchPaths_cons. intros [= <-] Hk.
  exists (pagePathsOf rest),
    (indexPageLoader join (S (length rest)) (S k) [post]).
  split; [reflexivity|]. split.
  - replace (k + 2) with (S k + 1) by lia.
    apply (objGet_lookup (pagePathsOf rest) (S k) (indexPagePath (S k))).
    + rewrite pagePathsOf_keys. apply indexPagePaths_NoDup.
    + rewrite lookup_cons, list_lookup_imap.
      rewrite lookup_cons in Hk. rewrite Hk. reflexivity.
  - unfold indexPageLoader, blogPathname. cbn.
    replace (k + 1) with (S k) by lia.
    repeat split. f_equal. lia.
Qed.

End PagesFacts.

(** The example's three posts. *)
Lemma pagesSwitch_index_pages_witness :
  exists paths pagePaths,
    examplePaths = Some paths /\
    objGet "/page" paths = Some (SwitchEntry None pagePaths) /\
    map fst pagePaths = ["/1"; "/2"; "/3"]%string.
Proof.
  exists (default [] examplePaths).
  destruct (pagesSwitch_index_pages unit unit unit string string
              (String.concat "/") string examplePosts
              (default [] examplePaths) eq_refl)
    as (pagePaths & Hpage & Hkeys & _).
  exists pagePaths. split; [reflexivity|]. split; [exact Hpage | exact Hkeys].
Defined.

(** The first and the last of the example's posts have the slug [hello]
    and different pages: the page of the last one is listed. *)
Lemma pagesSwitch_posts_by_slug_witness :
  exists paths postPaths,
    examplePaths = Some paths /\
    objGet "/posts" paths
    = Some (SwitchEntry (Some BlogPostLayout) postPaths) /\
    objGet "/hello" postPaths = Some (PostEntry "second page") /\
    objGet "/world" postPaths = Some (PostEntry "world page") /\
    objGet "/other" postPaths = None.
Proof.
  exists (default [] examplePaths).
  destruct (pagesSwitch_posts_by_slug unit unit unit string string
              (String.concat "/") string examplePosts
              (default [] examplePaths) eq_refl)
    as (postPaths & Hposts & _ & Hslug).
  exists postPaths. split; [reflexivity|]. split; [exact Hposts|].
  split; [|split]; rewrite Hslug; reflexivity.
Defined.

(** The third index page of the example. *)
Lemma pagesSwitch_later_index_page_witness :
  exists paths pagePaths load,
    examplePaths = Some paths /\
    objGet "/page" paths = Some (SwitchEntry None pagePaths) /\
    objGet "/3" pagePaths = Some (LoaderEntry load) /\
    page_title (load (mkRouterEnv tt tt ∅ "/blog/page/3" ∅ tt ""))
    = "create-react-blog – page 2"%string /\
    pageNumber
      (page_content (load (mkRouterEnv tt tt ∅ "/blog/page/3" ∅ tt "")))
    = 3.
Proof.
  exists (default [] examplePaths).
  destruct (pagesSwitch_later_index_page unit unit unit string string
              (String.concat "/") string examplePosts
              (default [] examplePaths) 1 (mkPost "hello" "second page")
              (mkRouterEnv tt tt ∅ "/blog/page/3" ∅ tt "") eq_refl eq_refl)
    as (pagePaths & load & Hpage & Hload & Htitle & Hnumber & _).
  exists pagePaths, load.
  split; [reflexivity|]. split; [exact Hpage|]. split; [exact Hload|].
  split; [exact Htitle | exact Hnumber].
Defined.

End BlogPagesFacts.

(* ===================================================================== *)
(** ** Route tree: unmatched paths and redirects are routes *)
(* ===================================================================== *)

Module RouteTreeFacts.
Import JSString RouteTree.

Local Open Scope list_scope.
Local Open Scope nat_scope.

Section Facts.

Variables Context HTTPMethod Router Content Error : Type.

Local Abbreviation RouterEnv := (Env.RouterEnv Context HTTPMethod Router).
Local Abbreviation Node := (Node Context HTTPMethod Router Content Error).
Local Abbreviation Resolution := (Resolution Content Error).
Local Abbreviation Completion := (Completion Error).

(** Induction on route trees: through the children of a switch and
    through whatever a lazy loader returns. *)
Lemma Node_induction (P : Node -> Prop) :
  (forall paths,
     Forall (fun entry => P (snd entry)) paths -> P (Switch paths)) ->
  (forall title getContent, P (Page title getContent)) ->
  (forall target, P (Redirect target)) ->
  (forall loader,
     (forall env node, loader env = Normal node -> P node) ->
     P (Lazy loader)) ->
  forall node, P node.
Proof.
  intros HSwitch HPage HRedirect HLazy.
  fix IH 1. intros [paths | title getContent | target | loader].
  - apply HSwitch. induction paths as [|[key child] rest IHrest].
    + constructor.
    + constructor; [exact (IH child) | exact IHrest].
  - apply HPage.
  - apply HRedirect.
  - apply HLazy. intros env node E.
    destruct (loader env) as [node' | e]; [|discriminate].
    injection E as <-. exact (IH node').
Qed.

(** [choose] resolves the child that [bestMatch] names. *)
Lemma choose_bestMatch
    (resolveChild : Node -> string -> string -> Completion Resolution)
    (children : list (string * Node)) (matched remaining : string)
    (best : option (string * Node * string)) :
  choose resolveChild children matched remaining
    (chosen resolveChild matched best)
  = match bestMatch children remaining best with
    | Some (key, child, unmatched) =>
        resolveChild child (matched ++ key)%string unmatched
    | None => Normal (notFound matched remaining)
    end.
Proof.
  revert best; induction children as [|[key child] rest IH]; intros best.
  - destruct best as [[[key child] unmatched]|]; reflexivity.
  - cbn [choose bestMatch].
    destruct (matchKey key remaining) as [unmatched|]; [|apply IH].
    destruct best as [[[key' child'] unmatched']|]; cbn [chosen].
    + destruct (Nat.ltb (String.length key') (String.length key)).
      * apply (IH (Some (key, child, unmatched))).
      * apply (IH (Some (key', child', unmatched'))).
    + apply (IH (Some (key, child, unmatched))).
Qed.

Lemma bestMatch_In (children : list (string * Node)) (remaining : string)
    (best : option (string * Node * string)) key child unmatched :
  bestMatch children remaining best = Some (key, child, unmatched) ->
  best = Some (key, child, unmatched)
  \/ (In (key, child) children /\ matchKey key remaining = Some unmatched).
Proof.
  revert best; induction children as [|[key' child'] rest IH]; intros best.
  - cbn. auto.
  - cbn [bestMatch]. destruct (matchKey key' remaining) as [unmatched'|] eqn:E.
    + destruct (match best with Some _ => _ | None => true end).
      * intros H. apply IH in H as [H | [H1 H2]].
        -- injection H as <- <- <-. right. split; [now left | exact E].
        -- right. split; [now right | exact H2].
      * intros H. apply IH in H as [H | [H1 H2]]; [now left|].
        right. split; [now right | exact H2].
    + intros H. apply IH in H as [H | [H1 H2]]; [now left|].
      right. split; [now right | exact H2].
Qed.

Lemma bestMatch_none (children : list (string * Node)) (remaining : string) :
  (forall key child,
     In (key, child) children -> matchKey key remaining = None) ->
  bestMatch children remaining None = None.
Proof.
  induction children as [|[key child] rest IH]; intros H; [reflexivity|].
  cbn [bestMatch]. rewrite (H key child) by now left.
  apply IH. intros key' child' Hin. apply (H key' child'). now right.
Qed.

(** The walk returns: whatever a loader throws is caught on the way. *)
Lemma resolveNode_returns (env : RouterEnv) (node : Node) :
  forall matched remaining,
    exists resolution,
      resolveNode env node matched remaining = Normal resolution.
Proof.
  induction node as [paths IH | title getContent | target | loader IH]
    using Node_induction; intros matched remaining; cbn [resolveNode].
  - pose proof (choose_bestMatch (resolveNode env) paths matched remaining None)
      as Hchoose.
    cbn [chosen] in Hchoose. rewrite Hchoose.
    destruct (bestMatch paths remaining None)
      as [[[key child] unmatched]|] eqn:E.
    + apply bestMatch_In in E as [E | [Hin _]]; [discriminate|].
      rewrite List.Forall_forall in IH.
      destruct (IH (key, child) Hin (matched ++ key)%string unmatched)
        as [below Hbelow].
      cbn [snd] in Hbelow. rewrite Hbelow. cbn. eauto.
    + cbn. eauto.
  - destruct (getContent _); eauto.
  - eauto.
  - destruct (loader _) as [node' | e] eqn:E; [|eauto].
    apply (IH _ _ E).
Qed.

Lemma choose_returns (env : RouterEnv) (paths : list (string * Node))
    (matched remaining : string) :
  exists resolution,
    choose (resolveNode env) paths matched remaining None = Normal resolution.
Proof.
  pose proof (choose_bestMatch (resolveNode env) paths matched remaining None)
    as Hchoose.
  cbn [chosen] in Hchoose. rewrite Hchoose.
  destruct (bestMatch paths remaining None) as [[[key child] unmatched]|].
  - apply resolveNode_returns.
  - eauto.
Qed.

(** A switch with no matching child and no index route chooses
    nothing. *)
Lemma bestMatch_dead_end (paths : list (string * Node)) (remaining : string) :
  noChildMatches paths remaining ->
  noIndexRoute paths ->
  bestMatch paths remaining None = None.
Proof.
  intros Hchildren Hindex. apply bestMatch_none.
  intros key child Hin. destruct (string_dec key "/") as [-> | Hne].
  - now apply Hindex in Hin.
  - now apply (Hchildren key child).
Qed.

(** What the walk gives is made of the routes of the nodes it goes
    through, followed by what the node it arrives at gives; the error, if
    any, is that node's. *)
Lemma arrives_resolveNode (env : RouterEnv) (node node' : Node)
    (matched remaining matched' remaining' : string) :
  Arrives env node matched remaining node' matched' remaining' ->
  exists routes,
    forall below : Resolution,
      resolveNode env node' matched' remaining' = Normal below ->
      resolveNode env node matched remaining
      = Normal (mkResolution (routes ++ res_routes below) (res_error below)).
Proof.
  induction 1 as [node matched remaining
                 | paths matched remaining key child unmatched
                     node' matched' remaining' Hbest Harrives IH
                 | loader matched remaining node node' matched' remaining'
                     Hload Harrives IH].
  - exists []. intros [routes error] ->. reflexivity.
  - destruct IH as [routes IH].
    exists (mkRoute SwitchType matched None None None :: routes).
    intros below Hbelow. cbn [resolveNode].
    pose proof (choose_bestMatch (resolveNode env) paths matched remaining None)
      as Hchoose.
    cbn [chosen] in Hchoose. rewrite Hchoose, Hbest, (IH below Hbelow).
    reflexivity.
  - destruct IH as [routes IH]. exists routes.
    intros below Hbelow. cbn [resolveNode]. rewrite Hload.
    exact (IH below Hbelow).
Qed.

(** The routing state of a request, from what the walk from the root
    switch gives: the routes below the root's own, and the error. *)
Lemma routerResolve_root (rootPaths : list (string * Node)) (env : RouterEnv)
    (pathname : string) :
  exists resolution,
    routerResolve rootPaths env pathname
    = Normal (mkRoutingState pathname (res_routes resolution) true
                (res_error resolution))
    /\ resolveNode env (Switch rootPaths) "" pathname
       = Normal (withRoute (mkRoute SwitchType "" None None None) resolution).
Proof.
  unfold routerResolve. cbn [resolveNode].
  destruct (choose_returns env rootPaths "" pathname) as [resolution ->].
  exists resolution. split; reflexivity.
Qed.

(** The last of the routes below the first one. *)
Lemma last_below (first final : Route Content) (below routes : list _) :
  first :: below = routes ++ [final] ->
  first <> final ->
  last below = Some final.
Proof.
  destruct routes as [|route routes]; cbn; intros Heq Hne.
  - injection Heq as Heq _. contradiction.
  - injection Heq as _ ->. apply last_snoc.
Qed.

(** C4: resolution never throws, whatever the tree, its loaders and the
    pathname are.  When the walk for the requested pathname, through the
    switches it matches and the nodes that lazy loaders return, arrives at
    a switch with no matching child and no index route, the routing state
    ends in a route of type [NotFound] for the whole pathname walked, and
    carries no error.  When it arrives at a redirect, the routing state
    ends in a route of type [Redirect] that carries the target, with no
    error; the target is not resolved. *)
Theorem notFound_and_redirect_are_routes
    (rootPaths : list (string * Node)) (env : RouterEnv) (pathname : string) :
  (exists state, routerResolve rootPaths env pathname = Normal state)
  /\ (forall paths matched remaining,
        Arrives env (Switch rootPaths) "" pathname
          (Switch paths) matched remaining ->
        noChildMatches paths remaining ->
        noIndexRoute paths ->
        exists state,
          routerResolve rootPaths env pathname = Normal state
          /\ lastRoute state
             = Some (mkRoute NotFoundType (matched ++ remaining)%string
                       None None None)
          /\ state_error state = None)
  /\ (forall target matched remaining,
        Arrives env (Switch rootPaths) "" pathname
          (Redirect target) matched remaining ->
        exists state,
          routerResolve rootPaths env pathname = Normal state
          /\ lastRoute state
             = Some (mkRoute RedirectType matched None None (Some target))
          /\ state_error state = None).
Proof.
  destruct (routerResolve_root rootPaths env pathname)
    as (resolution & Hstate & Hroot).
  split; [eauto|]. split.
  - intros paths matched remaining Harrives Hchildren Hindex.
    destruct (arrives_resolveNode env _ _ _ _ _ _ Harrives) as [routes Hwalk].
    specialize (Hwalk
      (withRoute (mkRoute SwitchType matched None None None)
         (notFound matched remaining))).
    rewrite Hroot in Hwalk.
    assert (Hhere :
      resolveNode env (Switch paths) matched remaining
      = Normal (withRoute (mkRoute SwitchType matched None None None)
                  (notFound matched remaining))).
    { cbn [resolveNode].
      pose proof (choose_bestMatch (resolveNode env) paths matched remaining
                    None) as Hchoose.
      cbn [chosen] in Hchoose.
      rewrite Hchoose, (bestMatch_dead_end _ _ Hchildren Hindex).
      reflexivity. }
    specialize (Hwalk Hhere). injection Hwalk as Hroutes Herror.
    eexists. split; [exact Hstate|]. split; [|exact Herror].
    unfold lastRoute. cbn [state_routes].
    cbn in Hroutes.
    eapply (last_below _ _ _
              (routes ++ [mkRoute SwitchType matched None None None])).
    + rewrite <- app_assoc. exact Hroutes.
    + discriminate.
  - intros target matched remaining Harrives.
    destruct (arrives_resolveNode env _ _ _ _ _ _ Harrives) as [routes Hwalk].
    specialize (Hwalk _ eq_refl).
    rewrite Hroot in Hwalk. injection Hwalk as Hroutes Herror.
    eexists. split; [exact Hstate|]. split; [|exact Herror].
    unfold lastRoute. cbn [state_routes]. cbn in Hroutes.
    eapply (last_below _ _ _ routes); [exact Hroutes | discriminate].
Qed.

End Facts.

(** *** The example trees *)

Example resolve_posts_hello :
  routerResolve exampleTree exampleEnv "/posts/hello"
  = Normal
      (mkRoutingState "/posts/hello"
         [mkRoute SwitchType "/posts" None None None;
          mkRoute PageType "/posts/hello" (Some "Hello")
            (Some "hello, world") None]
         true None).
Proof. reflexivity. Qed.

Example resolve_old :
  routerResolve exampleTree exampleEnv "/old"
  = Normal
      (mkRoutingState "/old"
         [mkRoute RedirectType "/old" None None (Some "/new")] true None).
Proof. reflexivity. Qed.

(** [/posts/missing] matches the switch at [/posts] and nothing below it,
    whether the switch is there from the start or loaded on demand. *)
Lemma posts_missing_arrives :
  exists paths,
    Arrives exampleEnv (Switch exampleTree) "" "/posts/missing"
      (Switch paths) "/posts" "/missing"
    /\ noChildMatches paths "/missing"
    /\ noIndexRoute paths.
Proof.
  eexists. split; [|split].
  - eapply arrives_child; [reflexivity|]. apply arrives_here.
  - intros key child [Hin | []] _. now injection Hin as <- <-.
  - intros child [Hin | []]. discriminate.
Qed.

Lemma lazy_posts_missing_arrives :
  exists paths,
    Arrives exampleEnv (Switch lazyTree) "" "/posts/missing"
      (Switch paths) "/posts" "/missing"
    /\ noChildMatches paths "/missing"
    /\ noIndexRoute paths.
Proof.
  eexists. split; [|split].
  - eapply arrives_child; [reflexivity|].
    eapply arrives_loaded; [reflexivity|]. apply arrives_here.
  - intros key child [Hin | []] _. now injection Hin as <- <-.
  - intros child [Hin | []]. discriminate.
Qed.

(** The C4 theorem at work: [/posts/missing] in the example tree and in
    the tree whose switch is loaded on demand, and the redirect below
    [/moved], itself loaded on demand. *)
Lemma notFound_and_redirect_are_routes_witness :
  (exists state,
     routerResolve exampleTree exampleEnv "/posts/missing" = Normal state
     /\ lastRoute state
        = Some (mkRoute NotFoundType "/posts/missing" None None None)
     /\ state_error state = None)
  /\ (exists state,
        routerResolve lazyTree exampleEnv "/posts/missing" = Normal state
        /\ lastRoute state
           = Some (mkRoute NotFoundType "/posts/missing" None None None)
        /\ state_error state = None)
  /\ (exists state,
        routerResolve lazyTree exampleEnv "/moved/old" = Normal state
        /\ lastRoute state
           = Some (mkRoute RedirectType "/moved/old" None None (Some "/new"))
        /\ state_error state = None).
Proof.
  split; [|split].
  - destruct posts_missing_arrives as (paths & Harrives & Hchildren & Hindex).
    destruct (notFound_and_redirect_are_routes unit unit unit string string
                exampleTree exampleEnv "/posts/missing") as (_ & Hdead & _).
    exact (Hdead paths "/posts" "/missing" Harrives Hchildren Hindex).
  - destruct lazy_posts_missing_arrives
      as (paths & Harrives & Hchildren & Hindex).
    destruct (notFound_and_redirect_are_routes unit unit unit string string
                lazyTree exampleEnv "/posts/missing") as (_ & Hdead & _).
    exact (Hdead paths "/posts" "/missing" Harrives Hchildren Hindex).
  - destruct (notFound_and_redirect_are_routes unit unit unit string string
                lazyTree exampleEnv "/moved/old") as (_ & _ & Hredirect).
    apply (Hredirect "/new" "/moved/old" "").
    eapply arrives_child; [reflexivity|].
    eapply arrives_child; [reflexivity|].
    eapply arrives_loaded; [reflexivity|]. apply arrives_here.
Defined.

End RouteTreeFacts.

(* ===================================================================== *)
(** ** BrowserNavigation: what rendering does to the document *)
(* ===================================================================== *)

Module RenderingFacts.
Import JSString URLTools Rendering.

Local Open Scope list_scope.

Section Facts.

Variable Route : Type.
Variable lastRouteType : Navigation.RoutingState Route -> RouteTree.RouteType.
Variable lastRouteTitle : Navigation.RoutingState Route -> option string.
Variable areURLDescriptorsEqual : URLDescriptor -> URLDescriptor -> bool.
Variable hasElement : string -> bool.

Local Abbreviation Rendering := (Rendering Route).
Local Abbreviation handleRendered :=
  (handleRendered lastRouteType lastRouteTitle areURLDescriptorsEqual
     hasElement).
Lemma sameObject_refl (a : option (StateObject Route)) : sameObject a a = true.
Proof. destruct a; cbn; [apply Nat.eqb_refl | reflexivity]. Qed.

(** [document.title] as [handleRendered] sets it for a received state. *)
Local Abbreviation titleEffects r :=
  (match receivedState r, setDocumentTitle r with
   | Some next, Some f =>
       match lastRouteType (object_state next) with
       | RouteTree.PageType =>
           [SetTitle (f (lastRouteTitle (object_state next)))]
       | _ => []
       end
   | _, _ => []
   end).

Lemma titleEffects_no_scroll (r : Rendering) (effect : DOMEffect) :
  In effect (titleEffects r) -> isScroll effect = false.
Proof.
  destruct (receivedState r) as [next|], (setDocumentTitle r) as [f|];
    cbn; try tauto.
  destruct (lastRouteType _); cbn; try tauto.
  intros [<- | []]. reflexivity.
Qed.

(** The three ways a call of [handleRendered] can go: nothing new was
    received; a steady state with the URL of the rendered one was received
    (the call returns early); or the received state becomes the rendered
    one, with or without a scroll. *)
Lemma handleRendered_cases (r : Rendering) :
  (sameObject (renderedState r) (receivedState r) = true
   /\ handleRendered r = (r, []))
  \/ (sameObject (renderedState r) (receivedState r) = false
      /\ handleRendered r = (r, titleEffects r)
      /\ exists next prev,
           receivedState r = Some next /\ renderedState r = Some prev
           /\ Navigation.rs_isSteady (object_state next) = true
           /\ areURLDescriptorsEqual
                (Navigation.rs_url (object_state next))
                (Navigation.rs_url (object_state prev)) = true)
  \/ (sameObject (renderedState r) (receivedState r) = false
      /\ exists scroll,
           handleRendered r = (rendered r, titleEffects r ++ scroll)
           /\ (scroll = []
               \/ exists next,
                    receivedState r = Some next
                    /\ Navigation.rs_isSteady (object_state next) = true
                    /\ disableScrollHandling r = false
                    /\ scroll
                       = scrollToHash hasElement
                           (hash (Navigation.rs_url (object_state next)))
                    /\ forall prev,
                         renderedState r = Some prev ->
                         areURLDescriptorsEqual
                           (Navigation.rs_url (object_state next))
                           (Navigation.rs_url (object_state prev)) = false
                         /\ (hash (Navigation.rs_url (object_state prev))
                             <> hash (Navigation.rs_url (object_state next))
                             \/ pathname (Navigation.rs_url (object_state prev))
                                <> pathname
                                     (Navigation.rs_url (object_state next))))).
Proof.
  unfold Rendering.handleRendered.
  destruct (sameObject (renderedState r) (receivedState r)) eqn:Hobj;
    cbn [negb]; [now left | right].
  destruct (receivedState r) as [next|] eqn:Hnext.
  2:{ right. split; [reflexivity|]. exists []. rewrite app_nil_r. auto. }
  cbv zeta.
  destruct (Navigation.rs_isSteady (object_state next)) eqn:Hsteady.
  2:{ right. split; [reflexivity|]. exists []. rewrite app_nil_r. auto. }
  destruct (renderedState r) as [prev|] eqn:Hprev.
  - destruct (areURLDescriptorsEqual _ _) eqn:Hequal.
    + left. split; [reflexivity|]. split; [reflexivity|]. eauto 10.
    + right. split; [reflexivity|].
      destruct (disableScrollHandling r) eqn:Hdisable; cbn [negb andb].
      * exists []. rewrite app_nil_r. auto.
      * destruct (negb _ || negb _) eqn:Hdiffer.
        -- eexists. split; [reflexivity|]. right.
           exists next. do 4 (split; [first [reflexivity | assumption]|]).
           intros prev' [= <-]. split; [exact Hequal|].
           apply orb_true_iff in Hdiffer as [Hd | Hd];
             apply negb_true_iff, String.eqb_neq in Hd; auto.
        -- exists []. rewrite app_nil_r. auto.
  - right. split; [reflexivity|].
    destruct (disableScrollHandling r) eqn:Hdisable; cbn [negb].
    + exists []. rewrite app_nil_r. auto.
    + eexists. split; [reflexivity|]. right.
      exists next. do 4 (split; [first [reflexivity | assumption]|]). discriminate.
Qed.

(** Calling [handleRendered] again right away changes no field and
    scrolls nothing; and if the first call took the received state as
    rendered, the second does nothing at all. *)
Theorem handleRendered_again (r : Rendering) :
  let first := handleRendered r in
  let second := handleRendered (fst first) in
  fst second = fst first
  /\ (forall effect, In effect (snd second) -> isScroll effect = false)
  /\ (renderedState (fst first) = receivedState r -> snd second = []).
Proof.
  cbv zeta.
  assert (Hdone : forall r' : Rendering,
            sameObject (renderedState r') (receivedState r') = true ->
            handleRendered r' = (r', [])).
  { intros r' H. unfold Rendering.handleRendered. now rewrite H. }
  destruct (handleRendered_cases r)
    as [[Hobj Heq] | [(Hobj & Heq & _) | (Hobj & scroll & Heq & _)]];
    rewrite Heq; cbn [fst snd].
  - rewrite Heq. repeat split. intros ? [].
  - rewrite Heq. cbn [fst snd]. split; [reflexivity|]. split.
    + apply titleEffects_no_scroll.
    + intros H. rewrite H, sameObject_refl in Hobj. discriminate.
  - rewrite (Hdone (rendered r)) by apply sameObject_refl.
    repeat split. intros ? [].
Qed.

(** [handleRendered] scrolls only for a newly received steady state,
    only when scroll handling is not disabled, and, when a state was
    rendered before, only if the URLs differ and not merely in the query
    string; the received state is then the rendered one.  What it does is
    what [scrollToHash] does for the state's hash: the window goes to the
    top left corner when the hash is empty; otherwise the element named by
    the hash without its first character is scrolled to and focused, and
    only if there is one. *)
Theorem handleRendered_scrolls_only (r : Rendering) (effect : DOMEffect) :
  In effect (snd (handleRendered r)) ->
  isScroll effect = true ->
  disableScrollHandling r = false
  /\ renderedState (fst (handleRendered r)) = receivedState r
  /\ exists next,
       receivedState r = Some next
       /\ sameObject (renderedState r) (Some next) = false
       /\ Navigation.rs_isSteady (object_state next) = true
       /\ (forall prev,
             renderedState r = Some prev ->
             areURLDescriptorsEqual
               (Navigation.rs_url (object_state next))
               (Navigation.rs_url (object_state prev)) = false
             /\ (hash (Navigation.rs_url (object_state prev))
                 <> hash (Navigation.rs_url (object_state next))
                 \/ pathname (Navigation.rs_url (object_state prev))
                    <> pathname (Navigation.rs_url (object_state next))))
       /\ let hash := hash (Navigation.rs_url (object_state next)) in
          (hash = "" /\ effect = WindowScroll 0 0)
          \/ (hash <> "" /\ hasElement (sliceFrom1 hash) = true
              /\ (effect = ScrollIntoView (sliceFrom1 hash)
                  \/ effect = Focus (sliceFrom1 hash))).
Proof.
  intros Hin Hscroll.
  destruct (handleRendered_cases r)
    as [[Hobj Heq] | [(Hobj & Heq & _) | (Hobj & scroll & Heq & Hcases)]];
    rewrite Heq in *; cbn [fst snd] in *.
  - destruct Hin.
  - apply titleEffects_no_scroll in Hin. congruence.
  - apply in_app_iff in Hin as [Hin | Hin].
    { apply titleEffects_no_scroll in Hin. congruence. }
    destruct Hcases as [-> | (next & Hnext & Hsteady & Hdisable & -> & Hprev)];
      [destruct Hin|].
    split; [exact Hdisable|]. split; [reflexivity|].
    exists next. split; [exact Hnext|]. rewrite Hnext in Hobj.
    split; [exact Hobj|]. split; [exact Hsteady|]. split; [exact Hprev|].
    cbv zeta. unfold scrollToHash, truthy in Hin.
    destruct (String.eqb_spec
                (hash (Navigation.rs_url (object_state next))) "")
      as [Hempty | Hhash]; cbn [negb] in Hin.
    + left. destruct Hin as [<- | []]. auto.
    + right. destruct (hasElement _) eqn:Helement; [|destruct Hin].
      destruct Hin as [<- | [<- | []]]; auto.
Qed.

End Facts.

Section TitleFacts.

Variables Context Junction Route History : Type.
Variable location : History -> URLDescriptor.
Variable createBrowserHistory : History.
Variable lastRouteType : Navigation.RoutingState Route -> RouteTree.RouteType.
Variable lastRouteTitle : Navigation.RoutingState Route -> option string.
Variable areURLDescriptorsEqual : URLDescriptor -> URLDescriptor -> bool.
Variable hasElement : string -> bool.

Local Abbreviation Rendering := (Rendering Route).
Local Abbreviation handleRendered :=
  (handleRendered lastRouteType lastRouteTitle areURLDescriptorsEqual
     hasElement).
Local Abbreviation constructor :=
  (Navigation.constructor Context Junction Route History location
     createBrowserHistory).
Local Abbreviation titleEffects r :=
  (match receivedState r, setDocumentTitle r with
   | Some next, Some f =>
       match lastRouteType (object_state next) with
       | RouteTree.PageType =>
           [SetTitle (f (lastRouteTitle (object_state next)))]
       | _ => []
       end
   | _, _ => []
   end).

#[local] Arguments Navigation.nav_setDocumentTitle {_ _ _ _}.
#[local] Arguments Navigation.opt_setDocumentTitle {_ _ _}.

(** [document.title] is assigned only for a newly received state whose
    last route is a page, and never when the navigation was created with
    [setDocumentTitle: false]; the title is what the function supplied at
    creation makes of the page title, and without such a function it is the
    page title itself, or ['Untitled Page'] when that is missing or
    empty. *)
Theorem handleRendered_title
    (options : Navigation.BrowserNavigationOptions Context Junction History)
    (w : Navigation.World Context Junction Route History)
    (r : Rendering) (title : string) :
  setDocumentTitle r
  = Navigation.nav_setDocumentTitle (fst (constructor options w)) ->
  In (SetTitle title) (snd (handleRendered r)) ->
  Navigation.opt_setDocumentTitle options
  <> Some (Navigation.TitleFlag false)
  /\ exists next,
       receivedState r = Some next
       /\ sameObject (renderedState r) (Some next) = false
       /\ lastRouteType (object_state next) = RouteTree.PageType
       /\ title
          = match Navigation.opt_setDocumentTitle options with
            | Some (Navigation.TitleFunction f) =>
                f (lastRouteTitle (object_state next))
            | _ =>
                match lastRouteTitle (object_state next) with
                | Some pageTitle =>
                    if String.eqb pageTitle "" then "Untitled Page"
                    else pageTitle
                | None => "Untitled Page"
                end
            end.
Proof.
  intros Hfunction Hin.
  assert (Htitle : In (SetTitle title) (titleEffects r)
                   /\ sameObject (renderedState r) (receivedState r) = false).
  { destruct (handleRendered_cases Route lastRouteType lastRouteTitle
                areURLDescriptorsEqual hasElement r)
      as [[Hobj Heq] | [(Hobj & Heq & _) | (Hobj & scroll & Heq & Hcases)]];
      rewrite Heq in Hin; cbn [snd] in Hin.
    - destruct Hin.
    - auto.
    - apply in_app_iff in Hin as [Hin | Hin]; [auto|].
      exfalso.
      destruct Hcases as [-> | (next & _ & _ & _ & -> & _)]; [destruct Hin|].
      unfold scrollToHash in Hin.
      destruct (truthy _); [destruct (hasElement _)|];
        cbn in Hin; intuition discriminate. }
  destruct Htitle as [Htitle Hobj].
  cbn in Hfunction.
  destruct (receivedState r) as [next|] eqn:Hnext; [|destruct Htitle].
  destruct (setDocumentTitle r) as [f|] eqn:Hf; [|destruct Htitle].
  destruct (lastRouteType (object_state next)) eqn:Htype;
    try (now destruct Htitle).
  destruct Htitle as [[= <-] | []].
  destruct (Navigation.opt_setDocumentTitle options) as [[[] | g] |] eqn:Hopt;
    try discriminate; injection Hfunction as ->;
    (split; [discriminate|]); exists next;
    (do 3 (split; [first [reflexivity | assumption]|])).
  - unfold Navigation.defaultDocumentTitle, truthy.
    destruct (lastRouteTitle (object_state next)) as [pageTitle|];
      [|reflexivity].
    now destruct (String.eqb pageTitle "").
  - reflexivity.
  - unfold Navigation.defaultDocumentTitle, truthy.
    destruct (lastRouteTitle (object_state next)) as [pageTitle|];
      [|reflexivity].
    now destruct (String.eqb pageTitle "").
Qed.

End TitleFacts.

(** *** The example *)

(** A page with the hash [#intro] arrives after the root page: the title
    is set, the element is scrolled to and focused. *)
Example exampleHandleRendered_effects :
  snd (exampleHandleRendered exampleRendering)
  = [SetTitle "Guide"; ScrollIntoView "intro"; Focus "intro"].
Proof. reflexivity. Qed.

Lemma handleRendered_scrolls_only_witness :
  In (Focus "intro") (snd (exampleHandleRendered exampleRendering))
  /\ renderedState (fst (exampleHandleRendered exampleRendering))
     = Some (pageAt 2 "/guide" "#intro").
Proof.
  assert (Hin : In (Focus "intro")
                   (snd (exampleHandleRendered exampleRendering))).
  { right. right. now left. }
  split; [exact Hin|].
  apply (handleRendered_scrolls_only unit (fun _ => RouteTree.PageType)
           (fun _ => Some "Guide") samePathnameSearchHash onlyIntro
           exampleRendering (Focus "intro") Hin eq_refl).
Defined.

Lemma handleRendered_title_witness :
  In (SetTitle "Guide") (snd (exampleHandleRendered exampleRendering))
  /\ Navigation.opt_setDocumentTitle _ _ _ Navigation.exampleOptions
     <> Some (Navigation.TitleFlag false).
Proof.
  assert (Hin : In (SetTitle "Guide")
                   (snd (exampleHandleRendered exampleRendering)))
    by now left.
  split; [exact Hin|].
  apply (handleRendered_title nat string unit URLDescriptor
           (fun history => history) (Navigation.pageURL "/")
           (fun _ => RouteTree.PageType) (fun _ => Some "Guide")
           samePathnameSearchHash onlyIntro Navigation.exampleOptions
           Navigation.emptyWorld exampleRendering "Guide" eq_refl Hin).
Defined.

End RenderingFacts.



